(** * robotcode: JSON-RPC framing and dispatch, text documents, pull diagnostics

    A shallow embedding of

    - [robotcode/language_server/common/text_document.py]
    - [robotcode/language_server/common/lsp_types.py] (Position, Range)
    - [robotcode/server/jsonrpc2/protocol.py]
    - [robotcode/language_server/common/parts/diagnostics.py]

    followed by the properties proved about it.  Python objects that are
    shared and mutated in place (cache slots, diagnostics records, futures)
    live in explicit stores; code that raises returns a [result]. *)

From Stdlib Require Import ZArith NArith Lia Ascii String.
From stdpp Require Import gmap strings list.

Local Open Scope Z_scope.
Set Warnings "-register-all".

(** ** Outcomes of code that may raise *)

Inductive result (E A : Type) : Type :=
| Ok (a : A)
| Raise (e : E).
Arguments Ok {E A} a.
Arguments Raise {E A} e.

(** * Part I: definitions *)

(** ** lsp_types.py: Position and Range *)

Record Position := mkPosition { line : Z; character : Z }.

(** [Position.__gt__] *)
Definition Position_gt (self other : Position) : bool :=
  let line_gt := line self >? line other in
  if line_gt then line_gt
  else if line self =? line other then character self >? character other
  else false.

(** [Position.__le__] *)
Definition Position_le (self other : Position) : bool :=
  let line_lt := line self <? line other in
  if line_lt then line_lt
  else if line self =? line other then character self <=? character other
  else false.

(** [Position.__ge__] *)
Definition Position_ge (self other : Position) : bool :=
  let line_gt := line self >? line other in
  if line_gt then line_gt
  else if line self =? line other then character self >=? character other
  else false.

(** [Position.__lt__] *)
Definition Position_lt (self other : Position) : bool :=
  let line_lt := line self <? line other in
  if line_lt then line_lt
  else if line self =? line other then character self <? character other
  else false.

(** The [__eq__] that [@dataclass] generates: the tuples of fields are
    compared. *)
Definition Position_eq (self other : Position) : bool :=
  (line self =? line other) && (character self =? character other).

(** [Position.__ne__] *)
Definition Position_ne (self other : Position) : bool := negb (Position_eq self other).

Record Range := mkRange { start : Position; end_ : Position }.

(** [Position.is_in_range]: [range.start <= self < range.end], a chained
    comparison, is [range.start <= self and self < range.end]. *)
Definition Position_is_in_range (self : Position) (range : Range) : bool :=
  Position_le (start range) self && Position_lt self (end_ range).

(** [Range.zero] *)
Definition Range_zero : Range := mkRange (mkPosition 0 0) (mkPosition 0 0).

(** [Range.extend] *)
Definition Range_extend (self : Range) (start_line start_character end_line end_character : Z)
    : Range :=
  mkRange (mkPosition (line (start self) + start_line) (character (start self) + start_character))
          (mkPosition (line (end_ self) + end_line) (character (end_ self) + end_character)).

(** ** Python [str]: a sequence of code points *)

Abbreviation pystr := (list N).

(** ASCII text of a literal as code points. *)
Definition u (s : string) : pystr :=
  map (fun c : ascii => N_of_ascii c) (list_ascii_of_string s).

Definition LF : N := 10%N.
Definition CR : N := 13%N.

(** The line boundaries of [str.splitlines]: LF, VT, FF, CR, FS, GS, RS,
    NEL, LINE SEPARATOR, PARAGRAPH SEPARATOR. *)
Definition is_linebreak (c : N) : bool :=
  ((10 <=? c) && (c <=? 13))%N || ((28 <=? c) && (c <=? 30))%N
  || (c =? 133)%N || (c =? 8232)%N || (c =? 8233)%N.

(** [str.splitlines(True)]: [cur] is the line being read.  A CR directly
    followed by LF ends the line as one terminator. *)
Fixpoint splitlines_from (cur : pystr) (s : pystr) : list pystr :=
  match s with
  | [] => match cur with [] => [] | _ => [cur] end
  | c :: s' =>
      if is_linebreak c then
        if (c =? CR)%N then
          match s' with
          | c' :: s'' =>
              if (c' =? LF)%N then (cur ++ [c; c']) :: splitlines_from [] s''
              else (cur ++ [c]) :: splitlines_from [] s'
          | [] => (cur ++ [c]) :: splitlines_from [] s'
          end
        else (cur ++ [c]) :: splitlines_from [] s'
      else splitlines_from (cur ++ [c]) s'
  end.

Definition splitlines_keepends (s : pystr) : list pystr := splitlines_from [] s.

(** Python slice bound: a negative index counts from the end, and every
    bound is clamped to the sequence. *)
Definition slice_bound (len : nat) (i : Z) : nat :=
  if i <? 0 then Z.to_nat (Z.of_nat len + i) else Z.to_nat i.

(** [s[:i]] and [s[i:]] *)
Definition slice_to {A} (s : list A) (i : Z) : list A := take (slice_bound (length s) i) s.
Definition slice_from {A} (s : list A) (i : Z) : list A := drop (slice_bound (length s) i) s.

(** *** Vocabulary: the shape of a list of physical lines *)

(** A line terminator: one line boundary, or CR LF. *)
Definition is_terminator (t : pystr) : bool :=
  match t with
  | [c] => is_linebreak c
  | [c; c'] => (c =? CR)%N && (c' =? LF)%N
  | _ => false
  end.

(** A physical line: a run without line boundaries closed by a terminator;
    the last line of a text ([final]) may lack the terminator but is then
    not empty. *)
Fixpoint physical_line (final : bool) (l : pystr) : bool :=
  match l with
  | [] => false
  | c :: l' =>
      if is_linebreak c then is_terminator l
      else match l' with [] => final | _ => physical_line final l' end
  end.

Definition ends_with_cr (l : pystr) : bool :=
  match last l with Some c => (c =? CR)%N | None => false end.

Definition starts_with_lf (ls : list pystr) : bool :=
  match ls with (c :: _) :: _ => (c =? LF)%N | _ => false end.

(** Physical lines in sequence: only the last may lack its terminator, and
    a CR that ends a line is not followed by LF (the two would be one
    terminator). *)
Fixpoint well_split (ls : list pystr) : bool :=
  match ls with
  | [] => true
  | l :: ls' =>
      physical_line (match ls' with [] => true | _ => false end) l
      && negb (ends_with_cr l && starts_with_lf ls')
      && well_split ls'
  end.

(** ** text_document.py *)

Module TextDocument.

Inductive error :=
| InvalidRangeError (range : Range).

(** *** Vocabulary of the properties below *)

(** What the loop of [apply_incremental_change] writes for the line with
    index [i]. *)
Definition written_for (r : Range) (text : pystr) (i : Z) (l : pystr) : pystr :=
  if (i <? line (start r)) || (i >? line (end_ r)) then l
  else (if i =? line (start r) then slice_to l (character (start r)) ++ text else [])
       ++ (if i =? line (end_ r) then slice_from l (character (end_ r)) else []).

(** The spec's words for an edit whose start line exists: the lines before
    the start line, the prefix of the start line, the new text, the suffix
    of the end line (nothing when there is no such line), the lines after
    the end line. *)
Definition spliced (lines : list pystr) (r : Range) (text : pystr) : pystr :=
  let sl := Z.to_nat (line (start r)) in
  let el := Z.to_nat (line (end_ r)) in
  concat (take sl lines)
  ++ slice_to (default [] (lines !! sl)) (character (start r))
  ++ text
  ++ slice_from (default [] (lines !! el)) (character (end_ r))
  ++ concat (drop (S el) lines).

Section WithData.
(** [Any]: the values consumers memoize; [None] is [@None Any]. *)
Context {Any : Type}.

(** [CacheEntry]: [data] and the slot's own lock. *)
Record CacheEntry := mkCacheEntry { data : option Any; lock : bool }.

(** The fields of [TextDocument] that the operations below read or write.
    [_cache] is keyed by the identity of the consumer ([weakref.ref]
    compares by referent); [_data] maps a consumer to the object it
    stored, by address. *)
Record t := mk {
  _lock : bool;
  _version : option Z;
  _text : pystr;
  _orig_text : pystr;
  _orig_version : option Z;
  _lines : option (list pystr);
  _cache : gmap nat CacheEntry;
  _data : gmap nat nat;
  opened_in_editor : bool
}.

(** [TextDocument.__init__] *)
Definition __init__ (text : pystr) (version : option Z) : t :=
  {| _lock := false; _version := version; _text := text; _orig_text := text;
     _orig_version := version; _lines := None; _cache := ∅; _data := ∅;
     opened_in_editor := false |}.

Definition set_lock (b : bool) (self : t) : t :=
  mk b (_version self) (_text self) (_orig_text self) (_orig_version self)
     (_lines self) (_cache self) (_data self) (opened_in_editor self).
Definition set_version (v : option Z) (self : t) : t :=
  mk (_lock self) v (_text self) (_orig_text self) (_orig_version self)
     (_lines self) (_cache self) (_data self) (opened_in_editor self).
Definition set_text (s : pystr) (self : t) : t :=
  mk (_lock self) (_version self) s (_orig_text self) (_orig_version self)
     (_lines self) (_cache self) (_data self) (opened_in_editor self).
Definition set_orig_text (s : pystr) (self : t) : t :=
  mk (_lock self) (_version self) (_text self) s (_orig_version self)
     (_lines self) (_cache self) (_data self) (opened_in_editor self).
Definition set_lines (l : option (list pystr)) (self : t) : t :=
  mk (_lock self) (_version self) (_text self) (_orig_text self) (_orig_version self)
     l (_cache self) (_data self) (opened_in_editor self).
Definition set_cache (c : gmap nat CacheEntry) (self : t) : t :=
  mk (_lock self) (_version self) (_text self) (_orig_text self) (_orig_version self)
     (_lines self) c (_data self) (opened_in_editor self).
Definition set_data_map (m : gmap nat nat) (self : t) : t :=
  mk (_lock self) (_version self) (_text self) (_orig_text self) (_orig_version self)
     (_lines self) (_cache self) m (opened_in_editor self).

(** [async with self._lock: body].  The lock is not reentrant: a caller
    that finds it held is suspended ([None]: no outcome in this run).  The
    lock is released however the body leaves, by return or by raising. *)
Definition with_lock {R} (self : t) (body : t -> R * t) : option (R * t) :=
  if _lock self then None
  else let '(r, self') := body (set_lock true self) in
       Some (r, set_lock false self').

Definition _invalidate_cache (self : t) : t := set_cache ∅ self.

Definition _invalidate_data (self : t) : t := set_data_map ∅ self.

(** [__get_lines] *)
Definition __get_lines (self : t) : list pystr * t :=
  match _lines self with
  | None =>
      let lines := splitlines_keepends (_text self) in
      (lines, set_lines (Some lines) self)
  | Some lines => (lines, self)
  end.

(** [apply_none_change] *)
Definition apply_none_change (self : t) : option (unit * t) :=
  with_lock self (fun self => (tt, _invalidate_cache (set_lines None self))).

(** [apply_full_change] *)
Definition apply_full_change (version : option Z) (text : option pystr) (save : bool)
    (self : t) : option (unit * t) :=
  with_lock self (fun self =>
    let self := match version with Some v => set_version (Some v) self | None => self end in
    let self := match text with
                | Some s => set_lines None (set_text s self)
                | None => self
                end in
    let self := if save then set_orig_text (_text self) self else self in
    (tt, _invalidate_cache self)).

(** The [for i, line in enumerate(lines)] loop of [apply_incremental_change];
    [new_text] is the [io.StringIO] written so far. *)
Fixpoint write_lines (start_line start_col end_line end_col : Z) (text : pystr)
    (i : Z) (lines : list pystr) (new_text : pystr) : pystr :=
  match lines with
  | [] => new_text
  | line :: rest =>
      if (i <? start_line) || (i >? end_line) then
        write_lines start_line start_col end_line end_col text (i + 1) rest
          (new_text ++ line)
      else
        let new_text :=
          if i =? start_line then (new_text ++ slice_to line start_col) ++ text
          else new_text in
        let new_text :=
          if i =? end_line then new_text ++ slice_from line end_col
          else new_text in
        write_lines start_line start_col end_line end_col text (i + 1) rest new_text
  end.

(** The [try] block of [apply_incremental_change]. *)
Definition apply_incremental_change_try (version : option Z) (range : Range)
    (text : pystr) (self : t) : result error unit * t :=
  let self := match version with Some v => set_version (Some v) self | None => self end in
  if Position_gt (start range) (end_ range) then
    (Raise (InvalidRangeError range), self)
  else
    let '(lines, self) := __get_lines self in
    let start_line := line (start range) in
    let start_col := character (start range) in
    let end_line := line (end_ range) in
    let end_col := character (end_ range) in
    if start_line =? Z.of_nat (length lines) then
      (Ok tt, set_text (_text self ++ text) self)
    else
      (Ok tt, set_text (write_lines start_line start_col end_line end_col text 0 lines []) self).

(** [apply_incremental_change]: the [try] block, then the [finally] block,
    all under the document lock. *)
Definition apply_incremental_change (version : option Z) (range : Range)
    (text : pystr) (self : t) : option (result error unit * t) :=
  with_lock self (fun self =>
    let '(r, self) := apply_incremental_change_try version range text self in
    (r, _invalidate_cache (set_lines None self))).

(** [get_cache].  [entry] is the memoized computation: it reads the
    document and acts on the state [W] of whatever else it touches; it does
    not itself mutate the document, so the slot it was started for is still
    the one in [_cache] when its result is stored.  [None] stands for
    Python's [None]. *)
Definition get_cache {W} (reference : nat) (entry : t -> W -> option Any * W)
    (self : t) (w : W) : option (option Any * t * W) :=
  (* e = self._cache.get(reference, None); if e is None: async with self._lock: ... *)
  let slot :=
    match _cache self !! reference with
    | Some e => Some (e, self)
    | None =>
        with_lock self (fun self =>
          match _cache self !! reference with
          | Some e => (e, self)
          | None =>
              let e := mkCacheEntry None false in
              (e, set_cache (<[reference := e]> (_cache self)) self)
          end)
    end in
  match slot with
  | None => None
  | Some (e, self) =>
      match data e with
      | Some v => Some (Some v, self, w)
      | None =>
          (* async with e.lock: if e.data is None: e.data = await entry(self, ...) *)
          if lock e then None
          else
            let held := set_cache (<[reference := mkCacheEntry None true]> (_cache self)) self in
            let '(v, w') := entry held w in
            Some (v, set_cache (<[reference := mkCacheEntry v false]> (_cache self)) self, w')
      end
  end.

(** [set_data] and [get_data]: the object a consumer stored, by address. *)
Definition set_data (key : nat) (data : nat) (self : t) : t :=
  set_data_map (<[key := data]> (_data self)) self.

Definition get_data (key : nat) (self : t) : option nat := _data self !! key.

(** The [version] property. *)
Definition version (self : t) : option Z := _version self.

(** [_lines] is either unset or the split of the current text. *)
Definition lines_consistent (doc : t) : Prop :=
  _lines doc = None \/ _lines doc = Some (splitlines_keepends (_text doc)).

(** The state of the slot of [reference] in which [get_cache] runs the
    computation: no slot yet (and the document lock free to create it), or
    a slot without data whose lock is free. *)
Definition slot_empty (reference : nat) (doc : t) : Prop :=
  (_cache doc !! reference = None /\ _lock doc = false)
  \/ _cache doc !! reference = Some (mkCacheEntry None false).

(** The document as the computation sees it: its slot exists and is held. *)
Definition computing (reference : nat) (doc : t) : t :=
  set_cache (<[reference := mkCacheEntry None true]> (_cache doc)) doc.

(** The document once the computation returned [v]. *)
Definition computed (reference : nat) (v : option Any) (doc : t) : t :=
  set_cache (<[reference := mkCacheEntry v false]> (_cache doc)) doc.

(** *** The remaining operations *)

(** [text] *)
Definition text (self : t) : option (pystr * t) :=
  with_lock self (fun self => (_text self, self)).

(** [get_lines] *)
Definition get_lines (self : t) : option (list pystr * t) :=
  with_lock self __get_lines.

(** [save] *)
Definition save (version : option Z) (text : option pystr) (self : t) : option (unit * t) :=
  apply_full_change version text true self.

(** [version or self._orig_version]: [or] gives its right operand when the
    left one is falsy, which [None] and [0] both are. *)
Definition version_or (version orig : option Z) : option Z :=
  match version with
  | Some v => if v =? 0 then orig else Some v
  | None => orig
  end.

(** [revert]: the test is made without the document lock. *)
Definition revert (version : option Z) (self : t) : option (bool * t) :=
  if negb (bool_decide (_orig_text self = _text self))
     || negb (bool_decide (_orig_version self = _version self)) then
    match apply_full_change (version_or version (_orig_version self))
            (Some (_orig_text self)) false self with
    | Some (_, self) => Some (true, self)
    | None => None
    end
  else Some (false, self).

(** [invalidate_cache] *)
Definition invalidate_cache (self : t) : option (unit * t) :=
  with_lock self (fun self => (tt, _invalidate_cache self)).

(** [invalidate_data] *)
Definition invalidate_data (self : t) : option (unit * t) :=
  with_lock self (fun self => (tt, _invalidate_data self)).

(** [_clear] *)
Definition _clear (self : t) : t :=
  _invalidate_data (_invalidate_cache (set_lines None self)).

(** [clear] *)
Definition clear (self : t) : option (unit * t) :=
  with_lock self (fun self => (tt, _clear self)).

(** [__remove_cache_entry_safe]: the slot is looked up once without the
    lock and once more under it. *)
Definition __remove_cache_entry_safe (_ref : nat) (self : t) : option (unit * t) :=
  if bool_decide (is_Some (_cache self !! _ref)) then
    with_lock self (fun self =>
      if bool_decide (is_Some (_cache self !! _ref)) then
        (tt, set_cache (delete _ref (_cache self)) self)
      else (tt, self))
  else Some (tt, self).

(** [remove_cache_entry] *)
Definition remove_cache_entry (reference : nat) (self : t) : option (unit * t) :=
  __remove_cache_entry_safe reference self.

(** *** Vocabulary: the calls a user of a document can make *)

Inductive operation :=
| ApplyNoneChange
| ApplyFullChange (version : option Z) (text : option pystr)
| ApplyIncrementalChange (version : option Z) (range : Range) (text : pystr)
| Save (version : option Z) (text : option pystr)
| Revert (version : option Z)
| Text
| GetLines
| InvalidateCache
| InvalidateData
| Clear
| RemoveCacheEntry (reference : nat)
| GetCache (reference : nat) (entry : t -> option Any)
| SetData (key data : nat).

(** The document after a call; [None] when the call is suspended on a lock. *)
Definition after (op : operation) (self : t) : option t :=
  match op with
  | ApplyNoneChange => snd <$> apply_none_change self
  | ApplyFullChange version text => snd <$> apply_full_change version text false self
  | ApplyIncrementalChange version range text =>
      snd <$> apply_incremental_change version range text self
  | Save version text => snd <$> save version text self
  | Revert version => snd <$> revert version self
  | Text => snd <$> text self
  | GetLines => snd <$> get_lines self
  | InvalidateCache => snd <$> invalidate_cache self
  | InvalidateData => snd <$> invalidate_data self
  | Clear => snd <$> clear self
  | RemoveCacheEntry reference => snd <$> remove_cache_entry reference self
  | GetCache reference entry =>
      (fun r => snd (fst r)) <$> get_cache reference (fun d w => (entry d, w)) self tt
  | SetData key data => Some (set_data key data self)
  end.

Fixpoint after_all (ops : list operation) (self : t) : option t :=
  match ops with
  | [] => Some self
  | op :: ops' =>
      match after op self with
      | Some self' => after_all ops' self'
      | None => None
      end
  end.

(** The calls that tell the document of a change on the client's side. *)
Definition synchronizes (op : operation) : bool :=
  match op with
  | ApplyNoneChange | ApplyFullChange _ _ | ApplyIncrementalChange _ _ _ | Save _ _ => true
  | _ => false
  end.

(** No call is in progress: the document lock and every slot lock are
    free, and the line index is not stale. *)
Definition quiescent (doc : t) : Prop :=
  _lock doc = false
  /\ (forall reference e, _cache doc !! reference = Some e -> lock e = false)
  /\ lines_consistent doc.

End WithData.
Arguments t : clear implicits.
Arguments CacheEntry : clear implicits.
Arguments operation : clear implicits.

End TextDocument.

(** ** Python [bytes] *)

Abbreviation bytes := (list ascii).

(** A bytes literal. *)
Definition b (s : string) : bytes := list_ascii_of_string s.

Definition CRLF : bytes := ["013"; "010"]%char.

(** Bytes below 128 only. *)
Definition is_ascii (s : bytes) : bool := forallb (fun c => (nat_of_ascii c <? 128)%nat) s.

(** ** The fragment of [re] used by [MESSAGE_PATTERN]

    A backtracking matcher in continuation-passing style, with the
    semantics of Python's [re] for this fragment: alternatives are tried
    left to right, [*] [+] [?] are greedy, the first complete match found
    in that order is the result, a group keeps the text of its last
    successful iteration, and what a failed branch captured is dropped. *)

Inductive regex :=
| Eps
| Chr (c : ascii)                 (* a literal byte *)
| Cls (p : ascii -> bool)         (* a class, [\d], or [.] *)
| Cat (r1 r2 : regex)
| Alt (r1 r2 : regex)             (* r1|r2 *)
| Star (r : regex)                (* r* *)
| Grp (n : nat) (r : regex).      (* the n-th capturing group *)

Definition Plus (r : regex) : regex := Cat r (Star r).
Definition Opt (r : regex) : regex := Alt r Eps.

Fixpoint Lit (s : bytes) : regex :=
  match s with
  | [] => Eps
  | c :: s' => Cat (Chr c) (Lit s')
  end.

(** The least number of bytes a match of [r] consumes. *)
Fixpoint min_len (r : regex) : nat :=
  match r with
  | Eps => 0
  | Chr _ | Cls _ => 1
  | Cat r1 r2 => min_len r1 + min_len r2
  | Alt r1 r2 => min_len r1 `min` min_len r2
  | Star _ => 0
  | Grp _ r1 => min_len r1
  end.

Abbreviation groups := (gmap nat (list ascii)).

Section Matcher.
Context {R : Type}.

(** [rmatch r s caps k]: match [r] at the front of [s], then continue with
    [k] on the rest.  An iteration of [Star] that consumes nothing is
    refused, so [length s] bounds the number of iterations. *)
Fixpoint rmatch (r : regex) (s : bytes) (caps : groups)
    (k : bytes -> groups -> option R) {struct r} : option R :=
  match r with
  | Eps => k s caps
  | Chr c =>
      match s with
      | c' :: s' => if Ascii.eqb c c' then k s' caps else None
      | [] => None
      end
  | Cls p =>
      match s with
      | c' :: s' => if p c' then k s' caps else None
      | [] => None
      end
  | Cat r1 r2 => rmatch r1 s caps (fun s1 c1 => rmatch r2 s1 c1 k)
  | Alt r1 r2 =>
      match rmatch r1 s caps k with
      | Some x => Some x
      | None => rmatch r2 s caps k
      end
  | Star r1 =>
      (fix iter (n : nat) (s : bytes) (caps : groups) {struct n} : option R :=
         match n with
         | O => k s caps
         | S n' =>
             match rmatch r1 s caps
                     (fun s1 c1 => if (length s1 <? length s)%nat then iter n' s1 c1 else None) with
             | Some x => Some x
             | None => k s caps
             end
         end) (length s) s caps
  | Grp n r1 =>
      rmatch r1 s caps
        (fun s1 c1 => k s1 (<[n := take (length s - length s1) s]> c1))
  end.

End Matcher.

(** [pattern.match(s)]: anchored at the start of [s]; the groups of the
    first match, or [None]. *)
Definition re_match (r : regex) (s : bytes) : option groups :=
  rmatch r s ∅ (fun _ caps => Some caps).

(** *** Vocabulary of the matcher's properties *)

(** The loop of [Star r] followed by [k], by the number of iterations it is
    still allowed. *)
Definition star_iter {R : Type} (r : regex) (k : bytes -> groups -> option R)
    : nat -> bytes -> groups -> option R :=
  fix iter (n : nat) (s : bytes) (caps : groups) {struct n} : option R :=
    match n with
    | O => k s caps
    | S n' =>
        match rmatch r s caps
                (fun s1 c1 => if (length s1 <? length s)%nat then iter n' s1 c1 else None) with
        | Some x => Some x
        | None => k s caps
        end
    end.

(** Every match of [r] consumes the byte [c]. *)
Fixpoint requires_byte (c : ascii) (r : regex) : bool :=
  match r with
  | Eps | Cls _ | Star _ => false
  | Chr c' => Ascii.eqb c' c
  | Cat r1 r2 => requires_byte c r1 || requires_byte c r2
  | Alt r1 r2 => requires_byte c r1 && requires_byte c r2
  | Grp _ r1 => requires_byte c r1
  end.

Definition is_cr_or_lf (c : ascii) : bool := Ascii.eqb c "013" || Ascii.eqb c "010".
Definition not_crlf (c : ascii) : bool := negb (is_cr_or_lf c).                      (* [^\r\n] *)
Definition not_crlf_semi (c : ascii) : bool := negb (is_cr_or_lf c || Ascii.eqb c ";"). (* [^\r\n;] *)
Definition digit (c : ascii) : bool :=                                                (* \d *)
  let n := nat_of_ascii c in ((48 <=? n) && (n <=? 57))%nat.
Definition any (c : ascii) : bool := true.                                            (* . with re.DOTALL *)

(** Group numbers of [MESSAGE_PATTERN], counted by opening parenthesis. *)
Definition g_length : nat := 2.
Definition g_content_type : nat := 5.
Definition g_charset : nat := 8.
Definition g_body : nat := 9.

(** [JsonRPCProtocol.MESSAGE_PATTERN], compiled with [re.DOTALL], piece by
    piece as the source concatenates it.  First piece: any number of lines,
    each a run of [^\r\n] closed by CR LF. *)
Definition PAT_LEADING_LINES : regex :=
  Star (Cat (Star (Cls not_crlf)) (Lit CRLF)).

(** Second piece, group 1: "Content-Length:", an optional space, the digits
    (group [length]), CR LF. *)
Definition PAT_CONTENT_LENGTH : regex :=
  Grp 1 (Cat (Lit (b "Content-Length:")) (Cat (Opt (Chr " "))
        (Cat (Grp g_length (Plus (Cls digit))) (Lit CRLF)))).

(** Third piece, group 4: "Content-Type:", an optional space, the type
    (group [content_type], a run of [^\r\n;]), optionally ";", spaces and
    optionally "charset=" with its value (group [charset]), then CR LF. *)
Definition PAT_CONTENT_TYPE : regex :=
  Grp 4 (Cat (Lit (b "Content-Type:")) (Cat (Opt (Chr " "))
        (Cat (Grp g_content_type (Plus (Cls not_crlf_semi)))
        (Cat (Opt (Grp 6 (Cat (Chr ";") (Cat (Star (Chr " "))
                (Opt (Grp 7 (Cat (Lit (b "charset="))
                                 (Grp g_charset (Plus (Cls not_crlf))))))))))
             (Lit CRLF))))).

(** Third and fourth piece, group 3 repeated: a Content-Type line, or else
    any non-empty line. *)
Definition PAT_HEADER_LINES : regex :=
  Star (Grp 3 (Alt PAT_CONTENT_TYPE (Cat (Plus (Cls not_crlf)) (Lit CRLF)))).

(** Last piece: the blank line, then everything that follows (group [body]). *)
Definition PAT_BODY : regex :=
  Cat (Lit CRLF) (Grp g_body (Star (Cls any))).

Definition MESSAGE_PATTERN : regex :=
  Cat PAT_LEADING_LINES (Cat PAT_CONTENT_LENGTH (Cat PAT_HEADER_LINES PAT_BODY)).

(** *** Vocabulary: what may follow a header *)

(** The first CR or LF of [s]. *)
Fixpoint first_break (s : bytes) : option ascii :=
  match s with
  | [] => None
  | c :: s' => if is_cr_or_lf c then Some c else first_break s'
  end.

(** The bytes after a header do not read as one more header line: they
    hold no CR or LF at all, or their first line ends with a bare LF and
    they do not start with the C of Content-Length. *)
Definition clean_front (rest : bytes) : bool :=
  match first_break rest with
  | None => true
  | Some c =>
      Ascii.eqb c "010"
      && match rest with c0 :: _ => negb (Ascii.eqb c0 "C") | [] => true end
  end.

(** A body of several lines separated by bare LF that does not start with
    C, as a JSON object printed with an indent is. *)
Definition multiline_body (body : bytes) : bool :=
  match first_break body with Some c => Ascii.eqb c "010" | None => false end
  && match body with c0 :: _ => negb (Ascii.eqb c0 "C") | [] => false end.

(** [int(digits)] on the bytes [\d+] matched. *)
Definition int_of_digits (ds : bytes) : Z :=
  fold_left (fun acc c => 10 * acc + (Z.of_nat (nat_of_ascii c) - 48)) ds 0.

(** [str(n)] for a length, as ASCII bytes. *)
Fixpoint digits_of_pos (fuel : nat) (n : nat) (acc : bytes) : bytes :=
  match fuel with
  | O => acc
  | S fuel' =>
      let d := ascii_of_nat (48 + n mod 10) in
      if (n <? 10)%nat then d :: acc else digits_of_pos fuel' (n / 10) (d :: acc)
  end.
Definition str_of_nat (n : nat) : bytes := digits_of_pos (S n) n [].

(** ** protocol.py *)

Module JsonRPC.

(** [JsonRPCErrors] *)
Definition PARSE_ERROR : Z := -32700.
Definition INVALID_REQUEST : Z := -32600.
Definition METHOD_NOT_FOUND : Z := -32601.
Definition INVALID_PARAMS : Z := -32602.
Definition INTERNAL_ERROR : Z := -32603.
Definition SERVER_ERROR_START : Z := -32000.
Definition SERVER_ERROR_END : Z := -32099.

Definition PROTOCOL_VERSION : string := "2.0".

(** Python values that travel through the protocol: what [json.loads]
    builds, and instances of parameter classes with their [__dict__].
    A [PyDict] lists its items in insertion order. *)
Inductive Any :=
| PyNone
| PyBool (v : bool)
| PyInt (v : Z)
| PyFloat (repr : string)
| PyStr (v : string)
| PyList (items : list Any)
| PyDict (items : list (Any * Any))
| PyObject (cls : string) (attrs : list (string * Any)).

(** An exception: its class and [str(e)]. *)
Record exn := mkExn { exn_class : string; str : string }.

Definition JsonRPCException (msg : string) : exn := mkExn "JsonRPCException" msg.
Definition InvalidProtocolVersionException (msg : string) : exn :=
  mkExn "InvalidProtocolVersionException" msg.
Definition NotImplementedError : exn := mkExn "NotImplementedError" "".
Definition InvalidStateError (msg : string) : exn := mkExn "InvalidStateError" msg.
Definition ValueError (msg : string) : exn := mkExn "ValueError" msg.
Definition TypeError (msg : string) : exn := mkExn "TypeError" msg.
Definition AttributeError (msg : string) : exn := mkExn "AttributeError" msg.
Definition UnicodeDecodeError (msg : string) : exn := mkExn "UnicodeDecodeError" msg.

(** [id: Union[str, int, None]]: [None], or a string or an integer. *)
Abbreviation rpc_id := (string + Z)%type.

Record JsonRPCNotification := mkNotification { n_method : string; n_params : Any }.
Record JsonRPCRequest := mkRequest { r_id : option rpc_id; r_method : string; r_params : Any }.
Record JsonRPCResponse := mkResponse { p_id : option rpc_id; p_result : Any }.
Record JsonRPCErrorObject := mkErrorObject { code : Z; message : option string; data : Any }.
Record JsonRPCError := mkError { e_id : option rpc_id; error : JsonRPCErrorObject; e_result : Any }.

(** A decoded message, by its class. *)
Inductive JsonRPCMessage :=
| Request (m : JsonRPCRequest)
| Notification (m : JsonRPCNotification)
| Error (m : JsonRPCError)
| Response (m : JsonRPCResponse).

(** What the code calls in libraries outside the repository: codecs,
    [json], the [pydantic] constructors of the message classes, the
    serializer behind [message.json(...).encode(CHARSET)], and the builtins
    [list] and [dict] called on a value.  Of the UTF-8 codec two facts are
    used: bytes below 128 decode, and two byte strings that decode still
    decode when joined. *)
Class Library := {
  bytes_decode : string -> bytes -> result exn pystr;       (* body.decode(charset) *)
  json_loads : pystr -> result exn Any;
  new_JsonRPCRequest : list (Any * Any) -> result exn JsonRPCRequest;
  new_JsonRPCNotification : list (Any * Any) -> result exn JsonRPCNotification;
  new_JsonRPCResponse : list (Any * Any) -> result exn JsonRPCResponse;
  new_JsonRPCErrorObject : Any -> result exn JsonRPCErrorObject;
  new_JsonRPCError : JsonRPCErrorObject -> list (Any * Any) -> result exn JsonRPCError;
  message_json : JsonRPCMessage -> bytes;
  type_error : Any -> exn;                                  (* the interpreter's TypeError on a non-dict *)
  uuid4 : nat -> string;                                    (* str(uuid.uuid4()), call by call *)
  builtin_list : Any -> result exn Any;                     (* list(value) *)
  builtin_dict : Any -> result exn Any;                     (* dict(value) *)
  decode_utf8_ascii : forall s : bytes,
    is_ascii s = true -> exists text, bytes_decode "utf-8" s = Ok text;
  decode_utf8_app : forall (s1 s2 : bytes) (t1 t2 : pystr),
    bytes_decode "utf-8" s1 = Ok t1 -> bytes_decode "utf-8" s2 = Ok t2 ->
    exists text, bytes_decode "utf-8" (s1 ++ s2) = Ok text
}.

(** *** Dictionaries with string keys *)

Definition is_key (k : string) (x : Any) : bool :=
  match x with PyStr s => String.eqb s k | _ => false end.

Fixpoint dict_get (k : string) (items : list (Any * Any)) : option Any :=
  match items with
  | [] => None
  | (k', v) :: rest => if is_key k k' then Some v else dict_get k rest
  end.

Definition dict_contains (k : string) (items : list (Any * Any)) : bool :=
  match dict_get k items with Some _ => true | None => false end.

Definition dict_remove (k : string) (items : list (Any * Any)) : list (Any * Any) :=
  List.filter (fun kv => negb (is_key k (fst kv))) items.

Definition is_str (s : string) (x : Any) : bool := is_key s x.

Fixpoint contains_substring (fuel : nat) (needle hay : string) : bool :=
  match fuel with
  | O => false
  | S fuel' =>
      String.prefix needle hay
      || match hay with
         | EmptyString => false
         | String _ hay' => contains_substring fuel' needle hay'
         end
  end.

(** *** [_json_rpc_message_from_dict] *)

Section WithLibrary.
Context `{Library}.

Definition fmap_result {E A B} (f : A -> B) (r : result E A) : result E B :=
  match r with Ok a => Ok (f a) | Raise e => Raise e end.

(** [inner(d)].  On a [d] that is not a dict the test ["jsonrpc" in d] is a
    substring or membership test, or a TypeError. *)
Definition inner (d : Any) : result exn JsonRPCMessage :=
  let invalid := Raise (JsonRPCException "Invalid JSON-RPC2 Message") in
  match d with
  | PyDict items =>
      match dict_get "jsonrpc" items with
      | Some v =>
          if negb (is_str PROTOCOL_VERSION v) then
            Raise (InvalidProtocolVersionException "Invalid JSON-RPC2 protocol version.")
          else if dict_contains "id" items then
            if dict_contains "method" items then
              fmap_result Request (new_JsonRPCRequest items)
            else
              match dict_get "error" items with
              | Some error =>
                  let items := dict_remove "error" items in
                  match new_JsonRPCErrorObject error with
                  | Ok eo => fmap_result Error (new_JsonRPCError eo items)
                  | Raise e => Raise e
                  end
              | None => fmap_result Response (new_JsonRPCResponse items)
              end
          else fmap_result Notification (new_JsonRPCNotification items)
      | None => invalid
      end
  | PyStr s =>
      if contains_substring (S (String.length s)) "jsonrpc" s then Raise (type_error d)
      else invalid
  | PyList items =>
      if existsb (is_str "jsonrpc") items then Raise (type_error d) else invalid
  | _ => Raise (type_error d)
  end.

(** The generator: one [inner] per element, evaluated as the consumer
    asks for the next message. *)
Definition _json_rpc_message_from_dict (data : Any) : list (result exn JsonRPCMessage) :=
  match data with
  | PyList items => map inner items
  | _ => [inner data]
  end.

(** *** Registry *)

Inductive param_kind :=
| POSITIONAL_ONLY | POSITIONAL_OR_KEYWORD | VAR_POSITIONAL | KEYWORD_ONLY | VAR_KEYWORD.

Definition param_kind_eqb (a c : param_kind) : bool :=
  match a, c with
  | POSITIONAL_ONLY, POSITIONAL_ONLY | POSITIONAL_OR_KEYWORD, POSITIONAL_OR_KEYWORD
  | VAR_POSITIONAL, VAR_POSITIONAL | KEYWORD_ONLY, KEYWORD_ONLY
  | VAR_KEYWORD, VAR_KEYWORD => true
  | _, _ => false
  end.

(** [inspect.Parameter] *)
Record SigParameter := mkParameter { name : string; kind : param_kind }.

(** A handler: what [callable] and [inspect.signature] say of it, and the
    function object itself, by address.  What calling it does is [call]
    below. *)
Record Callable := mkCallable {
  is_callable : bool;
  signature : list SigParameter;
  func_id : nat
}.

(** A parameter class: [param_type( **params )]. *)
Record ParamType := mkParamType { construct : Any -> result exn Any }.

Record RpcMethodEntry := mkEntry {
  entry_name : string;
  method : Callable;
  param_type : option ParamType
}.

(** [RpcRegistry], once initialized: the parent and the own [__methods]. *)
Inductive RpcRegistry :=
| mkRegistry (parent : option RpcRegistry) (own : gmap string RpcMethodEntry).

Definition own_methods (r : RpcRegistry) : gmap string RpcMethodEntry :=
  match r with mkRegistry _ own => own end.

(** [RpcRegistry.methods]: the parent's entries overlaid by the own ones. *)
Fixpoint methods (r : RpcRegistry) : gmap string RpcMethodEntry :=
  match r with
  | mkRegistry (Some p) own => own ∪ methods p
  | mkRegistry None own => own
  end.

(** [RpcRegistry.get_entry] *)
Definition get_entry (r : RpcRegistry) (name : string) : option RpcMethodEntry :=
  own_methods r !! name.

(** [RpcRegistry.add_method] *)
Definition add_method (name : string) (func : Callable) (param_type : option ParamType)
    (r : RpcRegistry) : RpcRegistry :=
  match r with
  | mkRegistry parent own => mkRegistry parent (<[name := mkEntry name func param_type]> own)
  end.

(** [RpcRegistry.remove_method]: [self.__methods.pop(name, None)]. *)
Definition remove_method (name : string) (r : RpcRegistry)
    : option RpcMethodEntry * RpcRegistry :=
  match r with
  | mkRegistry parent own => (own !! name, mkRegistry parent (delete name own))
  end.

(** [RpcRegistry.get_method] *)
Definition get_method (r : RpcRegistry) (name : string) : option Callable :=
  match get_entry r name with
  | None => None
  | Some result => Some (method result)
  end.

(** [RpcRegistry.get_param_type]; the outer [None]: no entry. *)
Definition get_param_type (r : RpcRegistry) (name : string) : option ParamType :=
  match get_entry r name with
  | None => None
  | Some result => param_type result
  end.

(** *** [_try_convert_value] and [_convert_params] *)

(** A class object, as far as [_try_convert_value] looks at it. *)
Record PyClass := mkClass {
  isinstance_of : Any -> bool;          (* isinstance(value, cls) *)
  is_BaseModel : bool;                  (* issubclass(cls, BaseModel) *)
  parse_obj : Any -> result exn Any
}.

(** [value_type_or_converter]: [typing.Any], a class, a subscripted
    generic with its [get_origin] and [get_args], or a plain callable. *)
Inductive TypeOrConverter :=
| TAny
| TClass (c : PyClass)
| TList (args : list TypeOrConverter)                  (* origin list *)
| TDict (args : list TypeOrConverter)                  (* origin dict *)
| TGeneric (origin : Any -> result exn Any)            (* another origin *)
| TCallable (f : Any -> result exn Any)
| TOther.                                              (* not callable *)

(** [_try_convert_value].  The [None] converter is [None] here.  In the
    dict comprehension the converted keys are taken to stay distinct.  For
    [List[...]] and a value that is no list, and for [Dict[...]] and a
    value that is no dict, the code falls through to
    [get_origin(...)(value)], that is [list(value)] and [dict(value)]. *)
Fixpoint _try_convert_value (value : Any) (value_type_or_converter : option TypeOrConverter)
    {struct value} : result exn Any :=
  match value_type_or_converter with
  | None | Some TAny => Ok value
  | Some (TClass c) =>
      if isinstance_of c value then Ok value
      else if is_BaseModel c then parse_obj c value
      else Ok value
  | Some (TList p) =>
      match value with
      | PyList items =>
          match p with
          | p0 :: _ =>
              fmap_result PyList
                ((fix each (l : list Any) : result exn (list Any) :=
                    match l with
                    | [] => Ok []
                    | e :: rest =>
                        match _try_convert_value e (Some p0) with
                        | Raise ex => Raise ex
                        | Ok y => match each rest with Raise ex => Raise ex | Ok ys => Ok (y :: ys) end
                        end
                    end) items)
          | [] => Ok value
          end
      | _ => builtin_list value
      end
  | Some (TDict p) =>
      match value with
      | PyDict items =>
          match p with
          | p0 :: p1 :: _ =>
              fmap_result PyDict
                ((fix each (l : list (Any * Any)) : result exn (list (Any * Any)) :=
                    match l with
                    | [] => Ok []
                    | (k, v) :: rest =>
                        match _try_convert_value k (Some p0) with
                        | Raise ex => Raise ex
                        | Ok k' =>
                            match _try_convert_value v (Some p1) with
                            | Raise ex => Raise ex
                            | Ok v' =>
                                match each rest with
                                | Raise ex => Raise ex
                                | Ok r => Ok ((k', v') :: r)
                                end
                            end
                        end
                    end) items)
          | _ => Ok value
          end
      | _ => builtin_dict value
      end
  | Some (TGeneric origin) => origin value
  | Some (TCallable f) => f value
  | Some TOther => Ok value
  end.

(** [dict( **params )]: keyword names must be strings. *)
Fixpoint kwargs_of (items : list (Any * Any)) : result exn (gmap string Any) :=
  match items with
  | [] => Ok ∅
  | (PyStr k, v) :: rest =>
      match kwargs_of rest with
      | Ok m => Ok (<[k := v]> m)
      | Raise e => Raise e
      end
  | _ :: _ => Raise (TypeError "keywords must be strings")
  end.

(** [converted_params.__dict__] *)
Definition instance_dict (o : Any) : result exn (list (string * Any)) :=
  match o with
  | PyObject _ attrs => Ok attrs
  | _ => Raise (AttributeError "__dict__")
  end.

Fixpoint attr_get (k : string) (attrs : list (string * Any)) : option Any :=
  match attrs with
  | [] => None
  | (k', v) :: rest => if String.eqb k' k then Some v else attr_get k rest
  end.

(** [list.remove(x)]: drops the first occurrence, [ValueError] without one. *)
Fixpoint list_remove (x : string) (l : list string) : result exn (list string) :=
  match l with
  | [] => Raise (ValueError "list.remove(x): x not in list")
  | y :: rest =>
      if String.eqb y x then Ok rest
      else match list_remove x rest with Ok r => Ok (y :: r) | Raise e => Raise e end
  end.

(** The locals of [_convert_params] that its loops update. *)
Record convert_state := mkConvert {
  args : list Any;
  kw_args : gmap string Any;
  params_added : bool;
  rest : list string
}.

(** One turn of [for v in signature.parameters.values()]. *)
Definition convert_parameter (has_var_kw : bool) (converted_params : Any)
    (attrs : list (string * Any)) (v : SigParameter) (st : convert_state)
    : result exn convert_state :=
  match attr_get (name v) attrs with
  | Some field =>
      let st :=
        if param_kind_eqb (kind v) POSITIONAL_ONLY then
          mkConvert (args st ++ [field]) (kw_args st) (params_added st) (rest st)
        else if has_var_kw then
          mkConvert (args st) (<[name v := field]> (kw_args st)) (params_added st) (rest st)
        else st in
      match list_remove (name v) (rest st) with
      | Ok r => Ok (mkConvert (args st) (kw_args st) (params_added st) r)
      | Raise e => Raise e
      end
  | None =>
      if String.eqb (name v) "params" then
        if param_kind_eqb (kind v) POSITIONAL_ONLY then
          Ok (mkConvert (args st ++ [converted_params]) (kw_args st) true (rest st))
        else
          Ok (mkConvert (args st) (<["params" := converted_params]> (kw_args st)) true (rest st))
      else Ok st
  end.

Fixpoint convert_parameters (has_var_kw : bool) (converted_params : Any)
    (attrs : list (string * Any)) (sig : list SigParameter) (st : convert_state)
    : result exn convert_state :=
  match sig with
  | [] => Ok st
  | v :: sig' =>
      match convert_parameter has_var_kw converted_params attrs v st with
      | Ok st' => convert_parameters has_var_kw converted_params attrs sig' st'
      | Raise e => Raise e
      end
  end.

(** [for r in rest: kw_args[r] = getattr(converted_params, r)] *)
Fixpoint add_rest (attrs : list (string * Any)) (rest : list string)
    (kw_args : gmap string Any) : result exn (gmap string Any) :=
  match rest with
  | [] => Ok kw_args
  | r :: rest' =>
      match attr_get r attrs with
      | Some field => add_rest attrs rest' (<[r := field]> kw_args)
      | None => Raise (AttributeError r)
      end
  end.

(** [_convert_params].  [issubclass(type, BaseModel)] tests the builtin
    [type] and is false, so the parameter object is always built by
    [param_type( **params )]. *)
Definition _convert_params (callable : Callable) (param_type : option ParamType)
    (params : Any) : result exn (list Any * gmap string Any) :=
  match params with
  | PyNone => Ok ([], ∅)
  | _ =>
      match param_type with
      | None =>
          match params with
          | PyDict items => fmap_result (fun kw => ([], kw)) (kwargs_of items)
          | _ => Ok ([params], ∅)
          end
      | Some pt =>
          match construct pt params with
          | Raise e => Raise e
          | Ok converted_params =>
              match instance_dict converted_params with
              | Raise e => Raise e
              | Ok attrs =>
                  let has_var_kw :=
                    existsb (fun p => param_kind_eqb (kind p) VAR_KEYWORD) (signature callable) in
                  let st0 := mkConvert [] ∅ false (map fst attrs) in
                  match convert_parameters has_var_kw converted_params attrs
                          (signature callable) st0 with
                  | Raise e => Raise e
                  | Ok st =>
                      if has_var_kw then
                        match add_rest attrs (rest st) (kw_args st) with
                        | Raise e => Raise e
                        | Ok kw =>
                            let kw :=
                              if params_added st then kw
                              else <["params" := converted_params]> kw in
                            Ok (args st, kw)
                        end
                      else Ok (args st, kw_args st)
                  end
              end
          end
      end
  end.

(** *** [JsonRPCProtocol] *)

(** An [asyncio.Future]. *)
Inductive Future :=
| Pending
| Finished (r : result exn Any)
| Cancelled.

(** [_RequestFuturesEntry]: the future, by address, and the result type. *)
Record _RequestFuturesEntry := mkFuturesEntry {
  future : nat;
  result_type : option TypeOrConverter
}.

(** The state of a [JsonRPCProtocol]: [transport] holds what was written,
    in order, once a connection is made; [futures] is the store of the
    futures handed out by [send_request]; [scheduled] lists the
    [handle_message] tasks created by [asyncio.ensure_future], oldest
    first; [uuids] counts the calls of [uuid.uuid4]. *)
Record t := mk {
  transport : option (list bytes);
  _request_futures : gmap rpc_id _RequestFuturesEntry;
  _message_buf : bytes;
  registry : RpcRegistry;
  futures : gmap nat Future;
  scheduled : list JsonRPCMessage;
  uuids : nat
}.

(** [JsonRPCProtocol.__init__] for a class with the given registry. *)
Definition __init__ (registry : RpcRegistry) : t :=
  mk None ∅ [] registry ∅ [] 0.

Definition set_transport (x : option (list bytes)) (self : t) : t :=
  mk x (_request_futures self) (_message_buf self) (registry self) (futures self)
     (scheduled self) (uuids self).
Definition set_request_futures (x : gmap rpc_id _RequestFuturesEntry) (self : t) : t :=
  mk (transport self) x (_message_buf self) (registry self) (futures self)
     (scheduled self) (uuids self).
Definition set_message_buf (x : bytes) (self : t) : t :=
  mk (transport self) (_request_futures self) x (registry self) (futures self)
     (scheduled self) (uuids self).
Definition set_futures (x : gmap nat Future) (self : t) : t :=
  mk (transport self) (_request_futures self) (_message_buf self) (registry self) x
     (scheduled self) (uuids self).
Definition set_scheduled (x : list JsonRPCMessage) (self : t) : t :=
  mk (transport self) (_request_futures self) (_message_buf self) (registry self)
     (futures self) x (uuids self).

(** [connection_made] *)
Definition connection_made (self : t) : t := set_transport (Some []) self.

Definition CHARSET : string := "utf-8".
Definition CONTENT_TYPE : string := "application/vscode-jsonrpc".

(** The header [send_data] puts in front of a body. *)
Definition header_of (body : bytes) : bytes :=
  b "Content-Length: " ++ str_of_nat (length body) ++ CRLF
  ++ b "Content-Type: " ++ b CONTENT_TYPE ++ b "; charset=" ++ b CHARSET ++ CRLF ++ CRLF.

(** [send_data].  The message it hands to the message logger decodes the
    header, which is ASCII, and the body, which was encoded a line before:
    it does not raise. *)
Definition send_data (message : JsonRPCMessage) (self : t) : t :=
  let body := message_json message in
  let header := header_of body in
  match transport self with
  | Some written => set_transport (Some (written ++ [header ++ body])) self
  | None => self
  end.

(** [send_response] *)
Definition send_response (id : option rpc_id) (result : Any) (self : t) : t :=
  send_data (Response (mkResponse id result)) self.

(** [send_error]; an absent [data] is [PyNone]. *)
Definition send_error (code : Z) (message : string) (id : option rpc_id) (data : Any)
    (self : t) : t :=
  let error_obj := mkErrorObject code (Some message) PyNone in
  let error_obj :=
    match data with
    | PyNone => error_obj
    | _ => mkErrorObject code (Some message) data
    end in
  send_data (Error (mkError id error_obj PyNone)) self.

(** [_handle_messages_generator]: a task per message, until the generator
    raises. *)
Fixpoint _handle_messages_generator (generator : list (result exn JsonRPCMessage))
    (self : t) : result exn unit * t :=
  match generator with
  | [] => (Ok tt, self)
  | Ok m :: rest => _handle_messages_generator rest (set_scheduled (scheduled self ++ [m]) self)
  | Raise e :: _ => (Raise e, self)
  end.

(** [bytes.decode("ascii")] *)
Definition decode_ascii (s : bytes) : result exn string :=
  if forallb (fun c => (nat_of_ascii c <? 128)%nat) s then Ok (string_of_list_ascii s)
  else Raise (UnicodeDecodeError "'ascii' codec can't decode byte").

(** The body of the [try] in [data_received]. *)
Definition decode_and_schedule (charset : string) (body : bytes) (self : t)
    : result exn unit * t :=
  match bytes_decode charset body with
  | Raise e => (Raise e, self)
  | Ok text =>
      match json_loads text with
      | Raise e => (Raise e, self)
      | Ok data => _handle_messages_generator (_json_rpc_message_from_dict data) self
      end
  end.

(** The three values [data_received] reads off the match. *)
Definition found_body (found : option groups) : bytes :=
  match found with Some g => default [] (g !! g_body) | None => [] end.
Definition found_length (found : option groups) : Z :=
  match found with Some g => int_of_digits (default [] (g !! g_length)) | None => 1 end.
Definition found_charset (found : option groups) : result exn string :=
  match found with
  | Some g => match g !! g_charset with Some cs => decode_ascii cs | None => Ok CHARSET end
  | None => Ok CHARSET
  end.

(** The [while len(data)] loop of [data_received].  Every turn that goes on
    leaves less to read, so [n] turns are enough for [n] bytes.  Once a
    complete frame is at hand, the message handed to the message logger
    decodes the whole buffer with the charset of the frame, before the
    [try] and with the bytes still in the buffer; the logger
    ([LoggingDescriptor], outside the repository snapshot) is taken to
    evaluate the message it is handed, so an exception of that decoding
    leaves [data_received]. *)
Fixpoint data_received_loop (n : nat) (data : bytes) (self : t) : result exn unit * t :=
  match n with
  | O => (Ok tt, self)
  | S n' =>
      if (length data =? 0)%nat then (Ok tt, self)
      else
        let self := set_message_buf (_message_buf self ++ data) self in
        let found := re_match MESSAGE_PATTERN (_message_buf self) in
        let body := found_body found in
        let length_ := found_length found in
        match found_charset found with
        | Raise e => (Raise e, self)
        | Ok charset =>
            if Z.of_nat (length body) <? length_ then (Ok tt, self)
            else
              (* "received ->\n" + self._message_buf.decode(charset).replace(...) *)
              match bytes_decode charset (_message_buf self) with
              | Raise e => (Raise e, self)
              | Ok _ =>
                  let data := drop (Z.to_nat length_) body in
                  let body := take (Z.to_nat length_) body in
                  let self := set_message_buf [] self in
                  let self :=
                    match decode_and_schedule charset body self with
                    | (Ok _, self) => self
                    | (Raise e, self) => send_error PARSE_ERROR (str e) None PyNone self
                    end in
                  data_received_loop n' data self
              end
        end
  end.

(** [data_received] *)
Definition data_received (data : bytes) (self : t) : result exn unit * t :=
  data_received_loop (S (length (_message_buf self ++ data))) data self.

(** The transport calling [data_received] chunk after chunk; an exception
    that leaves [data_received] ends the feed. *)
Fixpoint feed (chunks : list bytes) (self : t) : result exn unit * t :=
  match chunks with
  | [] => (Ok tt, self)
  | c :: rest =>
      match data_received c self with
      | (Ok _, self) => feed rest self
      | (Raise e, self) => (Raise e, self)
      end
  end.

Definition set_uuids (x : nat) (self : t) : t :=
  mk (transport self) (_request_futures self) (_message_buf self) (registry self)
     (futures self) (scheduled self) x.

(** [send_request]: the new future's address and the new state. *)
Definition send_request (method : string) (params : Any)
    (return_type_or_converter : option TypeOrConverter) (self : t) : nat * t :=
  let result := fresh (dom (futures self)) in
  let self := set_futures (<[result := Pending]> (futures self)) self in
  let id : rpc_id := inl (uuid4 (uuids self)) in
  let self := set_uuids (S (uuids self)) self in
  let self :=
    set_request_futures
      (<[id := mkFuturesEntry result return_type_or_converter]> (_request_futures self)) self in
  (result, send_data (Request (mkRequest (Some id) method params)) self).

(** [send_notification] *)
Definition send_notification (method : string) (params : Any) (self : t) : t :=
  send_data (Notification (mkNotification method params)) self.

(** The protocol once [registry] has been replaced. *)
Definition set_registry (x : RpcRegistry) (self : t) : t :=
  mk (transport self) (_request_futures self) (_message_buf self) x (futures self)
     (scheduled self) (uuids self).

(** [Future.set_result] and [Future.set_exception]: only on a pending
    future. *)
Definition set_outcome (f : nat) (r : result exn Any) (self : t) : result exn t :=
  match futures self !! f with
  | Some Pending => Ok (set_futures (<[f := Finished r]> (futures self)) self)
  | _ => Raise (InvalidStateError "invalid state")
  end.

(** [str(id)] inside the f-string of [handle_response]. *)
Definition str_of_Z (z : Z) : string :=
  if z <? 0 then String "-" (string_of_list_ascii (str_of_nat (Z.to_nat (- z))))
  else string_of_list_ascii (str_of_nat (Z.to_nat z)).
Definition str_of_id (id : rpc_id) : string :=
  match id with inl s => s | inr z => str_of_Z z end.

(** [handle_response] *)
Definition handle_response (message : JsonRPCResponse) (self : t) : result exn unit * t :=
  match p_id message with
  | None =>
      let error := "Invalid response. Response id is null" in
      (Ok tt, send_error INTERNAL_ERROR error None PyNone self)
  | Some id =>
      (* entry = self._request_futures.pop(message.id, None) *)
      let entry := _request_futures self !! id in
      let self := set_request_futures (delete id (_request_futures self)) self in
      match entry with
      | None =>
          let error := "Invalid response. Could not find id '" +:+ str_of_id id
                       +:+ "' in our request list" in
          (Ok tt, send_error INTERNAL_ERROR error None PyNone self)
      | Some entry =>
          let attempt :=
            match _try_convert_value (p_result message) (result_type entry) with
            | Ok v => set_outcome (future entry) (Ok v) self
            | Raise e => Raise e
            end in
          match attempt with
          | Ok self => (Ok tt, self)
          | Raise e =>
              match set_outcome (future entry) (Raise e) self with
              | Ok self => (Ok tt, self)
              | Raise e' => (Raise e', self)
              end
          end
      end
  end.

(** [handle_error] *)
Definition handle_error (message : JsonRPCError) (self : t) : result exn unit * t :=
  (Raise NotImplementedError, self).

(** The registered handlers are bound methods of the parts of a protocol
    and no code of [protocol.py]: a call [e.method( *args, **kwargs )],
    awaited when it gives an awaitable, returns or raises and leaves the
    protocol as the handler pleases (it may write to the transport, send
    requests of its own, register methods). *)
Class Handlers := {
  call : Callable -> list Any -> gmap string Any -> t -> result exn Any * t
}.

Context {handlers : Handlers}.

(** The [try] block of [handle_request] and of [handle_notification] up to
    the result of the call: the outcome and the protocol as the handler
    left it. *)
Definition invoke (e : RpcMethodEntry) (params : Any) (self : t) : result exn Any * t :=
  match _convert_params (method e) (param_type e) params with
  | Raise ex => (Raise ex, self)
  | Ok params => call (method e) (fst params) (snd params) self
  end.

(** [handle_request] *)
Definition handle_request (message : JsonRPCRequest) (self : t) : result exn unit * t :=
  let unknown :=
    (Ok tt, send_error METHOD_NOT_FOUND ("Unknown method: " +:+ r_method message)
              (r_id message) PyNone self) in
  match get_entry (registry self) (r_method message) with
  | None => unknown
  | Some e =>
      if negb (is_callable (method e)) then unknown
      else
        match invoke e (r_params message) self with
        | (Ok result, self) => (Ok tt, send_response (r_id message) result self)
        | (Raise ex, self) =>
            (Ok tt, send_error INTERNAL_ERROR (str ex) (r_id message) PyNone self)
        end
  end.

(** [handle_notification]: what the call returns or raises is only logged. *)
Definition handle_notification (message : JsonRPCNotification) (self : t)
    : result exn unit * t :=
  match get_entry (registry self) (n_method message) with
  | None => (Ok tt, self)
  | Some e =>
      if negb (is_callable (method e)) then (Ok tt, self)
      else (Ok tt, snd (invoke e (n_params message) self))
  end.

(** [handle_message] *)
Definition handle_message (message : JsonRPCMessage) (self : t) : result exn unit * t :=
  match message with
  | Request m => handle_request m self
  | Notification m => handle_notification m self
  | Error m => handle_error m self
  | Response m => handle_response m self
  end.

(** The event loop running the scheduled [handle_message] tasks, oldest
    first.  An exception that leaves a task is logged by the [done]
    callback of [_handle_messages_generator] and goes no further. *)
Fixpoint run_tasks (tasks : list JsonRPCMessage) (self : t) : t :=
  match tasks with
  | [] => self
  | m :: rest => run_tasks rest (snd (handle_message m self))
  end.

Definition run_scheduled (self : t) : t :=
  run_tasks (scheduled self) (set_scheduled [] self).

(** *** Vocabulary of the properties below *)

(** What one turn of the loop of [data_received] does with a complete
    frame once its bytes are logged: the buffer is emptied, the body
    decoded, a failure reported. *)
Definition handle_frame (charset : string) (body : bytes) (self : t) : t :=
  match decode_and_schedule charset body (set_message_buf [] self) with
  | (Ok _, self) => self
  | (Raise e, self) => send_error PARSE_ERROR (str e) None PyNone self
  end.

(** A message as [send_data] writes it. *)
Definition written_message (m : JsonRPCMessage) : bytes :=
  header_of (message_json m) ++ message_json m.

(** One turn of the loop, with the recursive call left open. *)
Definition turn (rec : bytes -> t -> result exn unit * t) (data : bytes) (self : t)
    : result exn unit * t :=
  if (length data =? 0)%nat then (Ok tt, self)
  else
    let buf := _message_buf self ++ data in
    let found := re_match MESSAGE_PATTERN buf in
    match found_charset found with
    | Raise e => (Raise e, set_message_buf buf self)
    | Ok charset =>
        if Z.of_nat (length (found_body found)) <? found_length found
        then (Ok tt, set_message_buf buf self)
        else
          match bytes_decode charset buf with
          | Raise e => (Raise e, set_message_buf buf self)
          | Ok _ =>
              rec (drop (Z.to_nat (found_length found)) (found_body found))
                  (handle_frame charset
                     (take (Z.to_nat (found_length found)) (found_body found)) self)
          end
    end.

(** [s.decode(charset)] does not raise. *)
Definition decodes (charset : string) (s : bytes) : Prop :=
  exists text, bytes_decode charset s = Ok text.

(** The messages a generator yields before it raises. *)
Fixpoint yielded (generator : list (result exn JsonRPCMessage)) : list JsonRPCMessage :=
  match generator with
  | Ok m :: rest => m :: yielded rest
  | _ => []
  end.

(** The messages one decode pass over [body] schedules. *)
Definition decoded (charset : string) (body : bytes) : list JsonRPCMessage :=
  match bytes_decode charset body with
  | Ok text =>
      match json_loads text with
      | Ok data => yielded (_json_rpc_message_from_dict data)
      | Raise _ => []
      end
  | Raise _ => []
  end.

End WithLibrary.

End JsonRPC.

(** ** diagnostics.py *)

Module Diagnostics.

Abbreviation Document := (TextDocument.t JsonRPC.Any).

(** [lsp_types.Diagnostic], as far as the scheduler is concerned. *)
Record Diagnostic := mkDiagnostic { range : Range; message : string }.

(** [DiagnosticsResult] *)
Record DiagnosticsResult := mkResult {
  key : nat;
  diagnostics : option (list Diagnostic)
}.

(** [DiagnosticsData]; [entries] in insertion order, [task] by task id. *)
Record DiagnosticsData := mkData {
  id : string;
  entries : list (nat * option (list Diagnostic));
  version : option Z;
  task : option nat;
  force : bool
}.

(** Modelled from the spec: the two report classes, which
    [_text_document_diagnostic] imports from a part of [lsp_types] that is
    not in the repository snapshot: the full report carries the aggregated
    entries list and the run id, the unchanged report the run id alone. *)
Inductive DocumentDiagnosticReport :=
| RelatedFullDocumentDiagnosticReport (items : list Diagnostic) (result_id : string)
| RelatedUnchangedDocumentDiagnosticReport (result_id : string).

Inductive error :=
| JsonRPCErrorException (code : Z) (message : string).

(** An [asyncio.Task] of the diagnostics loop: the record its coroutine
    writes to, whether [task.done()], and whether a [task.cancel] was
    posted to its loop. *)
Record Task := mkTask {
  task_data : nat;
  done : bool;
  cancel_posted : bool
}.

(** The effects of the request handler on shared state, in program order. *)
Inductive event :=
| SetData (uri : string) (data : nat)          (* document.set_data(self, data) *)
| CallSoonThreadsafeCancel (task : nat)        (* task.get_loop().call_soon_threadsafe(task.cancel) *)
| CreateSubTask (task : nat) (data : nat).     (* create_sub_task(_get_diagnostics_for_document(document, data)) *)

(** The part, the documents of its parent and the objects they share:
    [heap] holds the [DiagnosticsData] objects by address, [tasks] the
    tasks by id. *)
Record t := mk {
  documents : gmap string Document;
  heap : gmap nat DiagnosticsData;
  tasks : gmap nat Task;
  uuids : nat;
  trace : list event
}.

Section WithEnvironment.
(** [str(uuid.uuid4())], call by call; [ErrorCodes.SERVER_CANCELLED]; the
    key under which the part stores its data in a document ([self]). *)
Context (uuid4 : nat -> string) (SERVER_CANCELLED : Z) (self_key : nat).

Definition set_documents (x : gmap string Document) (w : t) : t :=
  mk x (heap w) (tasks w) (uuids w) (trace w).
Definition set_heap (x : gmap nat DiagnosticsData) (w : t) : t :=
  mk (documents w) x (tasks w) (uuids w) (trace w).
Definition set_tasks (x : gmap nat Task) (w : t) : t :=
  mk (documents w) (heap w) x (uuids w) (trace w).
Definition emit (e : event) (w : t) : t :=
  mk (documents w) (heap w) (tasks w) (uuids w) (trace w ++ [e]).

(** [str(uuid.uuid4())] *)
Definition new_uuid (w : t) : string * t :=
  (uuid4 (uuids w), mk (documents w) (heap w) (tasks w) (S (uuids w)) (trace w)).

(** A new [DiagnosticsData] object with the given id: its address. *)
Definition new_data (id : string) (w : t) : nat * t :=
  let a := fresh (dom (heap w)) in
  (a, set_heap (<[a := mkData id [] None None false]> (heap w)) w).

(** [document.set_data(self, data)] for the document stored under [uri]. *)
Definition document_set_data (uri : string) (data : nat) (w : t) : t :=
  let w :=
    match documents w !! uri with
    | Some doc => set_documents (<[uri := TextDocument.set_data self_key data doc]> (documents w)) w
    | None => w
    end in
  emit (SetData uri data) w.

(** [get_diagnostics_data] *)
Definition get_diagnostics_data (uri : string) (document : Document) (w : t) : nat * t :=
  match TextDocument.get_data self_key document with
  | Some data => (data, w)
  | None =>
      let '(id, w) := new_uuid w in
      let '(data, w) := new_data id w in
      (data, document_set_data uri data w)
  end.

(** Writes to the fields of a [DiagnosticsData] object. *)
Definition update_data (a : nat) (f : DiagnosticsData -> DiagnosticsData) (w : t) : t :=
  match heap w !! a with
  | Some d => set_heap (<[a := f d]> (heap w)) w
  | None => w
  end.

Definition with_version (v : option Z) (d : DiagnosticsData) : DiagnosticsData :=
  mkData (id d) (entries d) v (task d) (force d).
Definition with_task (x : option nat) (d : DiagnosticsData) : DiagnosticsData :=
  mkData (id d) (entries d) (version d) x (force d).
Definition with_id (x : string) (d : DiagnosticsData) : DiagnosticsData :=
  mkData x (entries d) (version d) (task d) (force d).
Definition with_entries (x : list (nat * option (list Diagnostic))) (d : DiagnosticsData)
    : DiagnosticsData :=
  mkData (id d) x (version d) (task d) (force d).
Definition with_force (x : bool) (d : DiagnosticsData) : DiagnosticsData :=
  mkData (id d) (entries d) (version d) (task d) x.

(** [task.done()] *)
Definition task_done (task : nat) (w : t) : bool :=
  match tasks w !! task with Some x => done x | None => true end.

(** [task.get_loop().call_soon_threadsafe(task.cancel)] *)
Definition call_soon_threadsafe_cancel (task : nat) (w : t) : t :=
  let w :=
    match tasks w !! task with
    | Some x => set_tasks (<[task := mkTask (task_data x) (done x) true]> (tasks w)) w
    | None => w
    end in
  emit (CallSoonThreadsafeCancel task) w.

(** [create_sub_task(self._get_diagnostics_for_document(document, data), ...)] *)
Definition create_sub_task (data : nat) (w : t) : nat * t :=
  let task := fresh (dom (tasks w)) in
  (task, emit (CreateSubTask task data) (set_tasks (<[task := mkTask data false false]> (tasks w)) w)).

(** [list(itertools.chain( *(e for e in data.entries.values() if e is not None)))] *)
Definition chain_entries (entries : list (nat * option (list Diagnostic))) : list Diagnostic :=
  concat (omap snd entries).

Definition id_matches (id : string) (previous_result_id : option string) : bool :=
  match previous_result_id with
  | Some p => String.eqb id p
  | None => false
  end.

(** [document.version != data.version] *)
Definition version_differs (a c : option Z) : bool :=
  match a, c with
  | Some x, Some y => negb (x =? y)
  | None, None => false
  | _, _ => true
  end.

(** The test [data.force or document.version != data.version or data.task is None]. *)
Definition rerun_required (document : Document) (d : DiagnosticsData) : bool :=
  force d || version_differs (TextDocument.version document) (version d)
  || match task d with None => true | Some _ => false end.

(** The body of that [if], from [task = data.task] to the creation of the
    new task: the address of the new record and the new state. *)
Definition start_run (uri : string) (document : Document) (task : option nat) (w : t)
    : nat * t :=
  let '(id, w) := new_uuid w in
  let '(data, w) := new_data id w in
  let w := document_set_data uri data w in
  let w :=
    match task with
    | Some task =>
        if negb (task_done task w) then call_soon_threadsafe_cancel task w else w
    | None => w
    end in
  let w := update_data data (with_version (TextDocument.version document)) w in
  let '(task, w) := create_sub_task data w in
  let w := update_data data (with_task (Some task)) w in
  (data, w).

(** The record at an address. *)
Definition deref (data : nat) (w : t) : DiagnosticsData :=
  default (mkData "" [] None None false) (heap w !! data).

(** [_text_document_diagnostic] *)
Definition _text_document_diagnostic (uri : string) (previous_result_id : option string)
    (w : t) : result error DocumentDiagnosticReport * t :=
  match documents w !! uri with
  | None => (Raise (JsonRPCErrorException SERVER_CANCELLED "Document not found."), w)
  | Some document =>
      let '(data, w) := get_diagnostics_data uri document w in
      let '(data, w) :=
        if rerun_required document (deref data w)
        then start_run uri document (task (deref data w)) w
        else (data, w) in
      if id_matches (id (deref data w)) previous_result_id then
        (Ok (RelatedUnchangedDocumentDiagnosticReport (id (deref data w))), w)
      else
        (Ok (RelatedFullDocumentDiagnosticReport
               (chain_entries (entries (deref data w))) (id (deref data w))), w)
  end.

(** [data.entries[key] = value] *)
Fixpoint entries_set (key : nat) (value : option (list Diagnostic))
    (entries : list (nat * option (list Diagnostic))) : list (nat * option (list Diagnostic)) :=
  match entries with
  | [] => [(key, value)]
  | (k, v) :: rest =>
      if (k =? key)%nat then (k, value) :: rest else (k, v) :: entries_set key value rest
  end.

(** One turn of the [async for] of [_get_diagnostics_for_document] for a
    result that is not an exception: the run writes to its own record.
    The refresh request it then sends for a document open in the editor is
    not part of this state. *)
Definition collect_result (data : nat) (r : DiagnosticsResult) (w : t) : t :=
  let '(id, w) := new_uuid w in
  let w := update_data data (with_id id) w in
  update_data data (fun d => with_entries (entries_set (key r) (diagnostics r) (entries d)) d) w.

(** The [finally] of [_get_diagnostics_for_document]. *)
Definition prune (data : nat) (collected_keys : list nat) (w : t) : t :=
  update_data data
    (fun d => with_entries
                (List.filter (fun kv => existsb (Nat.eqb (fst kv)) collected_keys) (entries d)) d) w.

(** [_get_diagnostics_for_document] for the task [task], after its delay:
    [results] are the collector results that arrive, exceptions included,
    before the run ends (normally or by a cancellation inside the loop). *)
Definition _get_diagnostics_for_document (task : nat)
    (results : list (result JsonRPC.exn DiagnosticsResult)) (w : t) : t :=
  match tasks w !! task with
  | None => w
  | Some x =>
      let data := task_data x in
      let w :=
        fold_left (fun w r => match r with Ok r => collect_result data r w | Raise _ => w end)
                  results w in
      let collected_keys :=
        omap (fun r => match r with
                       | Ok r => match diagnostics r with Some _ => Some (key r) | None => None end
                       | Raise _ => None
                       end) results in
      let w := prune data collected_keys w in
      set_tasks (<[task := mkTask data true (cancel_posted x)]> (tasks w)) w
  end.

(** The diagnostics data a document currently refers to. *)
Definition current_data (uri : string) (w : t) : option DiagnosticsData :=
  match documents w !! uri with
  | Some doc =>
      match TextDocument.get_data self_key doc with
      | Some a => heap w !! a
      | None => None
      end
  | None => None
  end.

(** *** Vocabulary of the properties below *)

(** The tasks once the cancellation of an active [task] is posted. *)
Definition tasks_after_cancel (task : option nat) (w : t) : gmap nat Task :=
  match task with
  | Some t =>
      match tasks w !! t with
      | Some x => if done x then tasks w else <[t := mkTask (task_data x) (done x) true]> (tasks w)
      | None => tasks w
      end
  | None => tasks w
  end.

(** The events of posting it. *)
Definition cancel_events (task : option nat) (w : t) : list event :=
  match task with
  | Some t => if task_done t w then [] else [CallSoonThreadsafeCancel t]
  | None => []
  end.

(** The spec's words for the entries list of a full report, the
    aggregated entries: what the collectors have delivered for the run,
    collector after collector, a collector that delivered no list
    contributing nothing. *)
Fixpoint aggregated (entries : list (nat * option (list Diagnostic))) : list Diagnostic :=
  match entries with
  | [] => []
  | (_, Some delivered) :: rest => delivered ++ aggregated rest
  | (_, None) :: rest => aggregated rest
  end.

(** The reply for the record [d], given the id the caller has seen. *)
Definition report_for (d : DiagnosticsData) (previous_result_id : option string)
    : DocumentDiagnosticReport :=
  if id_matches (id d) previous_result_id
  then RelatedUnchangedDocumentDiagnosticReport (id d)
  else RelatedFullDocumentDiagnosticReport (chain_entries (entries d)) (id d).

(** [e1] is in the trace before [e2]. *)
Definition happens_before (e1 e2 : event) (tr : list event) : Prop :=
  exists i j : nat, tr !! i = Some e1 /\ tr !! j = Some e2 /\ (i < j)%nat.

(** *** Forced refresh *)

(** [force_refresh_document], up to the refresh request it sends to the
    client for a document that is open in the editor, which is no part of
    this state. *)
Definition force_refresh_document (uri : string) (document : Document) (w : t) : t :=
  let '(data, w) := get_diagnostics_data uri document w in
  update_data data (with_force true) w.

(** [force_refresh_all] over the documents of the parent, named by the
    keys [uris] under which they are stored, in the order of
    [documents.documents]; again up to the refresh request. *)
Fixpoint force_refresh_all (uris : list string) (w : t) : t :=
  match uris with
  | [] => w
  | uri :: uris' =>
      match documents w !! uri with
      | Some doc => force_refresh_all uris' (force_refresh_document uri doc w)
      | None => force_refresh_all uris' w
      end
  end.

(** *** Vocabulary of the further properties *)

(** The collector results of a run that are not exceptions. *)
Definition delivered (results : list (result JsonRPC.exn DiagnosticsResult))
    : list DiagnosticsResult :=
  omap (fun r => match r with Ok r => Some r | Raise _ => None end) results.

(** A task that is running and has not been told to stop. *)
Definition live (x : Task) : bool := negb (done x) && negb (cancel_posted x).

(** Every live task is the task of the record that some document
    currently refers to. *)
Definition supervised (w : t) : Prop :=
  forall (t : nat) (x : Task),
    tasks w !! t = Some x -> live x = true ->
    exists (uri : string) (d : DiagnosticsData),
      current_data uri w = Some d /\ task d = Some t.

End WithEnvironment.

End Diagnostics.

(** ** Sample input *)

Module Sample.
Import JsonRPC.

(** A JSON string literal. *)
Definition quoted (s : string) : bytes := "034"%char :: b s ++ ["034"%char].

(** The body of an [exit] notification, closed by CR LF, and its frame. *)
Definition exit_body : bytes :=
  b "{" ++ quoted "jsonrpc" ++ b ":" ++ quoted "2.0" ++ b ","
  ++ quoted "method" ++ b ":" ++ quoted "exit" ++ b "}" ++ CRLF.

Definition exit_frame : bytes := b "Content-Length: 35" ++ CRLF ++ CRLF ++ exit_body.

Definition exit_dict : Any :=
  PyDict [(PyStr "jsonrpc", PyStr "2.0"); (PyStr "method", PyStr "exit")].




Definition as_text (s : bytes) : pystr := map (fun c : ascii => N_of_ascii c) s.

Definition ValidationError (msg : string) : exn := mkExn "ValidationError" msg.

Definition id_of (v : option Any) : result exn (option rpc_id) :=
  match v with
  | Some (PyStr s) => Ok (Some (inl s))
  | Some (PyInt z) => Ok (Some (inr z))
  | Some PyNone => Ok None
  | _ => Raise (ValidationError "id")
  end.

(** [list(value)] and [dict(value)] on the values of the sample. *)
Definition list_of (value : Any) : result exn Any :=
  match value with
  | PyList items => Ok (PyList items)
  | PyStr s => Ok (PyList (map (fun c => PyStr (String c EmptyString)) (list_ascii_of_string s)))
  | PyDict items => Ok (PyList (map fst items))
  | _ => Raise (TypeError "object is not iterable")
  end.
Definition dict_of (value : Any) : result exn Any :=
  match value with
  | PyDict items => Ok (PyDict items)
  | PyList [] | PyStr EmptyString => Ok (PyDict [])
  | _ => Raise (TypeError "cannot convert dictionary update sequence element")
  end.

(** Stand-ins for the libraries, enough to run the code on the sample
    input: an ASCII codec, a [json.loads] that knows the [exit] document,
    constructors that read the fields of their class, and a serializer
    that writes the kind of message and the error code. *)
Definition library : Library := {|
  bytes_decode charset body :=
    if String.eqb charset "utf-8" || String.eqb charset "ascii" then
      if forallb (fun c => (nat_of_ascii c <? 128)%nat) body then Ok (as_text body)
      else Raise (UnicodeDecodeError "invalid start byte")
    else Raise (mkExn "LookupError" ("unknown encoding: " +:+ charset));
  json_loads text :=
    if decide (text = as_text exit_body) then Ok exit_dict
    else Raise (mkExn "JSONDecodeError" "Expecting value");
  new_JsonRPCRequest items :=
    match id_of (dict_get "id" items), dict_get "method" items with
    | Ok i, Some (PyStr m) => Ok (mkRequest i m (default PyNone (dict_get "params" items)))
    | _, _ => Raise (ValidationError "JsonRPCRequest")
    end;
  new_JsonRPCNotification items :=
    match dict_get "method" items with
    | Some (PyStr m) => Ok (mkNotification m (default PyNone (dict_get "params" items)))
    | _ => Raise (ValidationError "JsonRPCNotification")
    end;
  new_JsonRPCResponse items :=
    match id_of (dict_get "id" items), dict_get "result" items with
    | Ok i, Some r => Ok (mkResponse i r)
    | _, _ => Raise (ValidationError "JsonRPCResponse")
    end;
  new_JsonRPCErrorObject error :=
    match error with
    | PyDict items =>
        match dict_get "code" items with
        | Some (PyInt c) =>
            Ok (mkErrorObject c
                  (match dict_get "message" items with Some (PyStr m) => Some m | _ => None end)
                  (default PyNone (dict_get "data" items)))
        | _ => Raise (ValidationError "JsonRPCErrorObject")
        end
    | _ => Raise (TypeError "argument after ** must be a mapping")
    end;
  new_JsonRPCError eo items :=
    match id_of (dict_get "id" items) with
    | Ok i => Ok (mkError i eo (default PyNone (dict_get "result" items)))
    | Raise e => Raise e
    end;
  message_json m :=
    match m with
    | Request r => b "request " ++ b (r_method r)
    | Notification n => b "notification " ++ b (n_method n)
    | Response _ => b "response"
    | Error e => b "error " ++ b (str_of_Z (code (error e)))
    end;
  type_error _ := TypeError "argument is not iterable";
  uuid4 n := "uuid-" +:+ string_of_list_ascii (str_of_nat n);
  builtin_list := list_of;
  builtin_dict := dict_of;
  decode_utf8_ascii s Hs :=
    ltac:(exists (as_text s); unfold is_ascii in Hs; cbv beta; rewrite Hs; reflexivity);
  decode_utf8_app s1 s2 t1 t2 H1 H2 :=
    ltac:(exists (as_text (s1 ++ s2)); cbv beta in *; rewrite forallb_app;
          change (String.eqb "utf-8" "utf-8" || String.eqb "utf-8" "ascii") with true in *;
          cbv iota in *;
          destruct (forallb _ s1); [|discriminate H1];
          destruct (forallb _ s2); [|discriminate H2]; reflexivity)
|}.

(** A freshly connected protocol without registered methods. *)
Definition connected : JsonRPC.t := connection_made (JsonRPC.__init__ (mkRegistry None ∅)).

(** A parameter class with the fields [text_document] and [position]. *)
Definition params_class : ParamType :=
  mkParamType (fun params =>
    match params with
    | PyDict items =>
        match dict_get "text_document" items, dict_get "position" items with
        | Some d, Some p => Ok (PyObject "Params" [("text_document", d); ("position", p)])
        | _, _ => Raise (TypeError "missing required argument")
        end
    | _ => Raise (TypeError "argument after ** must be a mapping")
    end).

(** A handler [def hover(text_document, position)], or with [var_kw]
    [def hover(text_document, position, **kwargs)]. *)
Definition hover (var_kw : bool) : Callable :=
  mkCallable true
    ([mkParameter "text_document" POSITIONAL_OR_KEYWORD;
      mkParameter "position" POSITIONAL_OR_KEYWORD]
     ++ if var_kw then [mkParameter "kwargs" VAR_KEYWORD] else [])
    0%nat.

(** A handler [log_message] with the one parameter [**kwargs] that sends a notification of its
    own to the client before it returns. *)
Definition log_message : Callable := mkCallable true [mkParameter "kwargs" VAR_KEYWORD] 1%nat.

(** What the handlers of the sample do when called: [hover] binds its two
    arguments and returns [None], [log_message] notifies the client and
    returns [None], any other raises. *)
Definition handlers : Handlers := {|
  call c args kw self :=
    match func_id c with
    | 0%nat =>
        (match args, kw !! "text_document", kw !! "position" with
         | [], Some _, Some _ => Ok PyNone
         | _, _, _ => Raise (TypeError "missing required positional arguments")
         end, self)
    | 1%nat => (Ok PyNone, send_notification (H:=library) "window/logMessage" PyNone self)
    | _ => (Raise (mkExn "RuntimeError" "handler failed"), self)
    end
|}.

(** A connected protocol on which [log_message] is registered under the
    name [log]. *)
Definition serving : JsonRPC.t :=
  connection_made
    (JsonRPC.__init__ (add_method "log" log_message None (mkRegistry None ∅))).

Definition raw_params : Any :=
  PyDict [(PyStr "text_document", PyStr "file:///a.robot"); (PyStr "position", PyInt 3)].

(** A batch: an [exit] notification, a message of protocol version 1.0 and
    an [exit] notification again. *)
Definition old_version_dict : Any := PyDict [(PyStr "jsonrpc", PyStr "1.0")].
Definition batch : list Any := [exit_dict; old_version_dict; exit_dict].

(** The same stand-ins with a [json.loads] that reads every body as that
    batch. *)
Definition batch_library : Library := {|
  bytes_decode := @bytes_decode library;
  json_loads := fun _ => Ok (PyList batch);
  new_JsonRPCRequest := @new_JsonRPCRequest library;
  new_JsonRPCNotification := @new_JsonRPCNotification library;
  new_JsonRPCResponse := @new_JsonRPCResponse library;
  new_JsonRPCErrorObject := @new_JsonRPCErrorObject library;
  new_JsonRPCError := @new_JsonRPCError library;
  message_json := @message_json library;
  type_error := @type_error library;
  uuid4 := @uuid4 library;
  builtin_list := @builtin_list library;
  builtin_dict := @builtin_dict library;
  decode_utf8_ascii := @decode_utf8_ascii library;
  decode_utf8_app := @decode_utf8_app library
|}.

(** A protocol with one request pending whose future was cancelled. *)
Definition cancelled_request : JsonRPC.t :=
  JsonRPC.mk (Some []) {[ inl "a" := mkFuturesEntry 0 None ]} [] (mkRegistry None ∅)
    {[ 0%nat := Cancelled ]} [] 0.

(** A body of two lines, as an indented JSON object is. *)
Definition two_line_body : bytes := b "{" ++ ["010"%char] ++ b "}".

End Sample.

Module SampleRun.
Import Diagnostics.

Definition uuid4 (n : nat) : string := "run-" +:+ string_of_list_ascii (str_of_nat n).
Definition uri : string := "file:///a.robot".
Definition SERVER_CANCELLED : Z := -32802.

Definition handler := _text_document_diagnostic uuid4 SERVER_CANCELLED 0.

(** A part with one document at version 1 and nothing else. *)
Definition opened : Diagnostics.t :=
  Diagnostics.mk {[ uri := TextDocument.__init__ (u "abc") (Some 1) ]} ∅ ∅ 0 [].

(** After the first request, the document is edited to version 2 while the
    run of the first request is still active. *)
Definition edited : Diagnostics.t :=
  let w := snd (handler uri None opened) in
  set_documents (TextDocument.set_version (Some 2) <$> documents w) w.

(** The document in that state: version 2, its data the record at
    address 1. *)
Definition edited_document : Document :=
  TextDocument.set_data 0 1
    (TextDocument.set_version (Some 2) (TextDocument.__init__ (u "abc") (Some 1))).

(** After the first request, nothing else having happened: the run of the
    record at address 1 is active, as the task 0. *)
Definition started : Diagnostics.t := snd (handler uri None opened).

(** The document in that state. *)
Definition started_document : Document :=
  TextDocument.set_data 0 1 (TextDocument.__init__ (u "abc") (Some 1)).

(** Three results of that run: a list of one diagnostic under the key 1,
    an exception, and no list under the key 2. *)
Definition unused_variable : Diagnostic :=
  mkDiagnostic (mkRange (mkPosition 0 0) (mkPosition 0 3)) "unused".
Definition results : list (result JsonRPC.exn DiagnosticsResult) :=
  [Ok (mkResult 1 (Some [unused_variable]));
   Raise (JsonRPC.mkExn "RuntimeError" "collector failed");
   Ok (mkResult 2 None)].

(** The state once that run has ended. *)
Definition collected : Diagnostics.t :=
  _get_diagnostics_for_document uuid4 0 results started.

End SampleRun.

(** * Part II: properties *)

(** ** Positions and lines *)

Lemma Position_le_not_gt (p q : Position) : Position_le p q = negb (Position_gt p q).
Proof.
  unfold Position_le, Position_gt.
  destruct (Z.ltb_spec (line p) (line q)), (Z.gtb_spec (line p) (line q)),
    (Z.eqb_spec (line p) (line q)), (Z.leb_spec (character p) (character q)),
    (Z.gtb_spec (character p) (character q)); simpl; try reflexivity; lia.
Qed.

Lemma splitlines_from_cons (cur : pystr) (c : N) (s : pystr) :
  splitlines_from cur (c :: s) =
    if is_linebreak c then
      if (c =? CR)%N then
        match s with
        | c' :: s'' =>
            if (c' =? LF)%N then (cur ++ [c; c']) :: splitlines_from [] s''
            else (cur ++ [c]) :: splitlines_from [] s
        | [] => (cur ++ [c]) :: splitlines_from [] s
        end
      else (cur ++ [c]) :: splitlines_from [] s
    else splitlines_from (cur ++ [c]) s.
Proof. destruct s; reflexivity. Qed.

Lemma concat_splitlines_from (n : nat) : forall (s cur : pystr),
  (length s <= n)%nat -> concat (splitlines_from cur s) = cur ++ s.
Proof.
  induction n as [|n IH]; intros s cur Hn.
  - destruct s; [|simpl in Hn; lia]. simpl. destruct cur; simpl; [reflexivity|].
    now rewrite !app_nil_r.
  - destruct s as [|c s].
    + simpl. destruct cur; simpl; [reflexivity|]. now rewrite !app_nil_r.
    + rewrite splitlines_from_cons. simpl in Hn.
      destruct (is_linebreak c).
      * destruct (c =? CR)%N.
        -- destruct s as [|c' s].
           ++ simpl. now rewrite app_nil_r.
           ++ simpl in Hn. destruct (c' =? LF)%N; rewrite concat_cons.
              ** rewrite (IH s []) by lia. simpl. now rewrite <- app_assoc.
              ** rewrite (IH (c' :: s) []) by (simpl; lia). simpl. now rewrite <- app_assoc.
        -- rewrite concat_cons, (IH s []) by lia. simpl. now rewrite <- app_assoc.
      * rewrite (IH s (cur ++ [c])) by lia. now rewrite <- app_assoc.
Qed.

(** The physical lines, terminators kept, make up the text. *)
Lemma concat_splitlines_keepends (s : pystr) : concat (splitlines_keepends s) = s.
Proof. unfold splitlines_keepends. now rewrite (concat_splitlines_from (length s)). Qed.

(** ** The loop of [apply_incremental_change] *)



Section Splice.
Import TextDocument.
Context (r : Range) (text : pystr).

Lemma write_lines_written (lines : list pystr) : forall (i : nat) (acc : pystr),
  write_lines (line (start r)) (character (start r)) (line (end_ r)) (character (end_ r))
    text (Z.of_nat i) lines acc
  = acc ++ concat (imap (fun j l => written_for r text (Z.of_nat (i + j)) l) lines).
Proof.
  induction lines as [|l lines IH]; intros i acc; simpl.
  - now rewrite app_nil_r.
  - replace (Z.of_nat i + 1) with (Z.of_nat (S i)) by lia.
    rewrite Nat.add_0_r. unfold written_for at 1.
    assert (E : imap ((fun j l0 => written_for r text (Z.of_nat (i + j)) l0) ∘ S) lines
                = imap (fun j l0 => written_for r text (Z.of_nat (S i + j)) l0) lines).
    { apply imap_ext. intros j x _. simpl. do 2 f_equal. lia. }
    rewrite E.
    destruct ((Z.of_nat i <? line (start r)) || (Z.of_nat i >? line (end_ r))).
    + now rewrite IH, <- app_assoc.
    + rewrite IH.
      destruct (Z.of_nat i =? line (start r)), (Z.of_nat i =? line (end_ r));
        simpl; rewrite ?app_nil_r, <- ?app_assoc; reflexivity.
Qed.



Context (a e : nat).
Hypothesis Ha : line (start r) = Z.of_nat a.
Hypothesis He : line (end_ r) = Z.of_nat e.
Hypothesis Hae : (a <= e)%nat.

(** Lines before the start line are written as they are. *)
Lemma written_before (lines : list pystr) (i : nat) :
  (i + length lines <= a)%nat ->
  concat (imap (fun j l => written_for r text (Z.of_nat (i + j)) l) lines) = concat lines.
Proof.
  revert i. induction lines as [|l lines IH]; intros i Hi; [reflexivity|].
  simpl in *. rewrite Nat.add_0_r. f_equal.
  - unfold written_for. rewrite Ha.
    destruct (Z.ltb_spec (Z.of_nat i) (Z.of_nat a)); [reflexivity|lia].
  - rewrite <- (IH (S i)) by lia. f_equal. apply imap_ext. intros j x _. simpl.
    do 2 f_equal. lia.
Qed.

(** Past the start line: nothing up to the end line, its suffix, then the
    lines as they are. *)
Lemma written_after (lines : list pystr) : forall i : nat,
  (a < i)%nat ->
  concat (imap (fun j l => written_for r text (Z.of_nat (i + j)) l) lines)
  = if (i <=? e)%nat
    then slice_from (default [] (lines !! (e - i)%nat)) (character (end_ r))
         ++ concat (drop (S (e - i)) lines)
    else concat lines.
Proof.
  induction lines as [|l lines IH]; intros i Hi.
  - simpl. destruct (i <=? e)%nat; [|reflexivity].
    unfold slice_from. now rewrite drop_nil.
  - rewrite imap_cons, concat_cons, Nat.add_0_r.
    assert (E : imap ((fun j l0 => written_for r text (Z.of_nat (i + j)) l0) ∘ S) lines
                = imap (fun j l0 => written_for r text (Z.of_nat (S i + j)) l0) lines).
    { apply imap_ext. intros j x _. simpl. do 2 f_equal. lia. }
    rewrite E. rewrite (IH (S i)); [|lia]. clear E IH.
    unfold written_for. rewrite Ha, He.
    destruct (Z.ltb_spec (Z.of_nat i) (Z.of_nat a)); [lia|].
    destruct (Z.eqb_spec (Z.of_nat i) (Z.of_nat a)); [lia|].
    destruct (Nat.leb_spec i e).
    + destruct (Z.gtb_spec (Z.of_nat i) (Z.of_nat e)); [lia|].
      destruct (Z.eqb_spec (Z.of_nat i) (Z.of_nat e)).
      * assert (i = e) by lia. subst i.
        destruct (Nat.leb_spec (S e) e); [lia|].
        rewrite Nat.sub_diag. reflexivity.
      * destruct (Nat.leb_spec (S i) e); [|lia].
        replace (e - i)%nat with (S (e - S i)) by lia. reflexivity.
    + destruct (Z.gtb_spec (Z.of_nat i) (Z.of_nat e)); [|lia].
      destruct (Nat.leb_spec (S i) e); [lia|]. reflexivity.
Qed.

(** When the start line exists, what the loop writes is the splice. *)
Lemma written_spliced (lines : list pystr) :
  (a < length lines)%nat ->
  concat (imap (fun j l => written_for r text (Z.of_nat j) l) lines) = spliced lines r text.
Proof.
  intros Hlen. unfold spliced. rewrite Ha, He, !Nat2Z.id.
  destruct (lookup_lt_is_Some_2 lines a Hlen) as [la Hla].
  rewrite <- (take_drop_middle lines a la Hla) at 1.
  rewrite imap_app, concat_app.
  assert (Htake : length (take a lines) = a) by (rewrite length_take; lia).
  pose proof (written_before (take a lines) 0) as Hb. simpl in Hb.
  rewrite Hb by lia. clear Hb.
  f_equal. rewrite imap_cons, concat_cons.
  assert (E : imap ((fun n l0 => written_for r text (Z.of_nat (length (take a lines) + n)) l0)
                       ∘ S) (drop (S a) lines)
              = imap (fun j l0 => written_for r text (Z.of_nat (S a + j)) l0) (drop (S a) lines)).
  { apply imap_ext. intros j x _. simpl. rewrite Htake. do 2 f_equal. lia. }
  rewrite E. rewrite (written_after (drop (S a) lines) (S a)); [|lia]. clear E.
  rewrite Htake, Nat.add_0_r, Hla. cbn [default].
  unfold written_for. rewrite Ha, He.
  destruct (Z.ltb_spec (Z.of_nat a) (Z.of_nat a)); [lia|].
  destruct (Z.gtb_spec (Z.of_nat a) (Z.of_nat e)); [lia|]. cbn [orb].
  rewrite Z.eqb_refl, <- !app_assoc. do 2 f_equal.
  destruct (Z.eqb_spec (Z.of_nat a) (Z.of_nat e)).
  - assert (a = e) by lia. subst e.
    destruct (Nat.leb_spec (S a) a); [lia|]. now rewrite Hla.
  - destruct (Nat.leb_spec (S a) e); [|lia]. cbn [app].
    rewrite lookup_drop, drop_drop.
    replace (S a + (e - S a))%nat with e by lia.
    replace (S a + S (e - S a))%nat with (S e) by lia. reflexivity.
Qed.

End Splice.

(** ** Text documents *)

Section TextDocumentProperties.
Import TextDocument.
Context {Any : Type}.
Implicit Types (doc : TextDocument.t Any).



Lemma apply_incremental_change_consistent version r text doc doc' o :
  apply_incremental_change version r text doc = Some (o, doc') -> lines_consistent doc'.
Proof.
  unfold apply_incremental_change, with_lock. destruct (_lock doc); [discriminate|].
  destruct (apply_incremental_change_try _ _ _ _) as [x d]. intros [= _ <-]. now left.
Qed.

Lemma apply_full_change_consistent version text save doc doc' :
  lines_consistent doc ->
  apply_full_change version text save doc = Some (tt, doc') -> lines_consistent doc'.
Proof.
  unfold apply_full_change, with_lock. intros Hc. destruct (_lock doc); [discriminate|].
  intros [= <-]. destruct text as [s|]; [left|]; destruct version, save; simpl; auto.
Qed.


(** C6 (as amended): for every range with start > end,
    [apply_incremental_change] raises [InvalidRangeError], leaves the text
    buffer as it was and releases the lock; the original text and version,
    the consumer data and the editor flag are kept; the document's version
    is already set to the one supplied (it is kept when none is supplied),
    and the line index and the cache are reset. *)
Theorem apply_incremental_change_invalid_range doc (version : option Z) (r : Range)
    (text : pystr) :
  _lock doc = false ->
  Position_gt (start r) (end_ r) = true ->
  apply_incremental_change version r text doc =
    Some (Raise (InvalidRangeError r),
          TextDocument.mk false
            (match version with Some v => Some v | None => _version doc end)
            (_text doc) (_orig_text doc) (_orig_version doc) None ∅ (_data doc)
            (opened_in_editor doc)).
Proof.
  intros Hlock Hgt.
  unfold apply_incremental_change, with_lock, apply_incremental_change_try.
  rewrite Hlock.
  destruct version; simpl; rewrite Hgt; reflexivity.
Qed.

Lemma get_cache_miss {W} (reference : nat) (entry : TextDocument.t Any -> W -> option Any * W)
    doc (w : W) :
  slot_empty reference doc ->
  get_cache reference entry doc w =
    Some (fst (entry (computing reference doc) w),
          computed reference (fst (entry (computing reference doc) w)) doc,
          snd (entry (computing reference doc) w)).
Proof.
  unfold get_cache, computing, computed.
  intros [[Hnone Hlock]|Hsome].
  - destruct doc as [lk ve tx ot ov ls ca da oe]; simpl in *. subst lk.
    rewrite Hnone. unfold with_lock. simpl. rewrite Hnone. simpl.
    unfold set_cache; simpl. rewrite insert_insert_eq.
    destruct (entry _ w) as [v w']. simpl. now rewrite insert_insert_eq.
  - rewrite Hsome. simpl. destruct (entry _ w) as [v w']. reflexivity.
Qed.

Lemma get_cache_hit {W} (reference : nat) (entry : TextDocument.t Any -> W -> option Any * W)
    doc (w : W) (v : Any) (held : bool) :
  _cache doc !! reference = Some (mkCacheEntry (Some v) held) ->
  get_cache reference entry doc w = Some (Some v, doc, w).
Proof. unfold get_cache. intros ->. reflexivity. Qed.

(** C10: [get_cache] stores what the computation returns, so a [None]
    result leaves the slot without data and the next call for the same key
    runs the computation again; only once a value that is not [None] is in
    the slot does a call return it without running the computation. *)
Theorem get_cache_none_not_memoized {W} (reference : nat)
    (entry : TextDocument.t Any -> W -> option Any * W) doc (w : W) :
  slot_empty reference doc ->
  let result := fst (entry (computing reference doc) w) in
  let doc' := computed reference result doc in
  get_cache reference entry doc w = Some (result, doc', snd (entry (computing reference doc) w))
  /\ (result = None ->
      _cache doc' !! reference = Some (mkCacheEntry None false)
      /\ forall w1 : W,
           get_cache reference entry doc' w1 =
             Some (fst (entry (computing reference doc') w1),
                   computed reference (fst (entry (computing reference doc') w1)) doc',
                   snd (entry (computing reference doc') w1)))
  /\ (forall v : Any, result = Some v ->
      forall w1 : W, get_cache reference entry doc' w1 = Some (Some v, doc', w1)).
Proof.
  intros Hempty result doc'. split; [now apply get_cache_miss|]. split.
  - intros Hres.
    assert (Hslot : _cache doc' !! reference = Some (mkCacheEntry None false)).
    { unfold doc', computed. simpl. rewrite Hres. apply lookup_insert_eq. }
    split; [exact Hslot|]. intros w1. apply get_cache_miss. now right.
  - intros v Hres w1. apply (get_cache_hit _ _ _ _ v false).
    unfold doc', computed. simpl. rewrite Hres. apply lookup_insert_eq.
Qed.

End TextDocumentProperties.



(** A document at version 1 and an edit for version 2 whose range ends
    before it starts: the call fails, the text is as before, and the
    version is 2 afterwards. *)
Example invalid_range_changes_version :
  let doc : TextDocument.t unit := TextDocument.__init__ (u "abc") (Some 1) in
  let r := mkRange (mkPosition 0 2) (mkPosition 0 1) in
  exists doc',
    TextDocument.apply_incremental_change (Some 2) r (u "X") doc
    = Some (Raise (TextDocument.InvalidRangeError r), doc')
    /\ TextDocument._text doc' = TextDocument._text doc
    /\ TextDocument._version doc = Some 1
    /\ TextDocument._version doc' = Some 2
    /\ doc' <> doc.
Proof.
  eexists. split; [reflexivity|]. repeat split. discriminate.
Qed.

Example apply_incremental_change_invalid_range_example :
  let doc : TextDocument.t unit := TextDocument.__init__ (u "abc") (Some 1) in
  let r := mkRange (mkPosition 0 2) (mkPosition 0 1) in
  TextDocument.apply_incremental_change (Some 2) r (u "X") doc =
    Some (Raise (TextDocument.InvalidRangeError r),
          TextDocument.mk false (Some 2) (u "abc") (u "abc") (Some 1) None ∅ ∅ false).
Proof.
  exact (apply_incremental_change_invalid_range
           (TextDocument.__init__ (Any:=unit) (u "abc") (Some 1)) (Some 2)
           (mkRange (mkPosition 0 2) (mkPosition 0 1)) (u "X") eq_refl eq_refl).
Defined.

(** A computation that counts its runs and returns [None]: two calls of
    [get_cache] run it twice. *)
Example get_cache_none_example :
  let doc : TextDocument.t unit := TextDocument.__init__ (u "abc") (Some 1) in
  let entry := fun (_ : TextDocument.t unit) (runs : nat) => (@None unit, S runs) in
  exists doc1 doc2,
    TextDocument.get_cache 7 entry doc 0%nat = Some (None, doc1, 1%nat)
    /\ TextDocument.get_cache 7 entry doc1 1%nat = Some (None, doc2, 2%nat).
Proof.
  intros doc entry.
  destruct (get_cache_none_not_memoized 7 entry doc 0%nat (or_introl (conj eq_refl eq_refl)))
    as (Hfirst & Hnone & _).
  destruct (Hnone eq_refl) as [_ Hagain].
  eexists. eexists. split; [exact Hfirst|]. exact (Hagain 1%nat).
Defined.

(** ** The matcher *)

(** A successful match hands its continuation a suffix of the input that
    is shorter by at least [min_len r]. *)
Lemma rmatch_inv {R} (r : regex) : forall (s : bytes) (caps : groups)
    (k : bytes -> groups -> option R) (x : R),
  rmatch r s caps k = Some x ->
  exists s1 c1, k s1 c1 = Some x /\ (length s1 + min_len r <= length s)%nat.
Proof.
  induction r as [| c | p | r1 IH1 r2 IH2 | r1 IH1 r2 IH2 | r1 IH1 | n r1 IH1];
    intros s caps k x Hm; simpl in Hm.
  - exists s, caps. simpl. split; [exact Hm|lia].
  - destruct s as [|c' s']; [discriminate|]. destruct (Ascii.eqb c c'); [|discriminate].
    exists s', caps. simpl. split; [exact Hm|lia].
  - destruct s as [|c' s']; [discriminate|]. destruct (p c'); [|discriminate].
    exists s', caps. simpl. split; [exact Hm|lia].
  - apply IH1 in Hm as (s1 & c1 & Hm & Hl1).
    apply IH2 in Hm as (s2 & c2 & Hm & Hl2).
    exists s2, c2. simpl. split; [exact Hm|lia].
  - destruct (rmatch r1 s caps k) eqn:E1.
    + injection Hm as ->. apply IH1 in E1 as (s1 & c1 & Hk & Hl).
      exists s1, c1. simpl. split; [exact Hk|lia].
    + apply IH2 in Hm as (s1 & c1 & Hk & Hl).
      exists s1, c1. simpl. split; [exact Hk|lia].
  - revert Hm. generalize (length s) at 1. intros n. revert s caps.
    induction n as [|n IHn]; intros s caps Hm.
    + exists s, caps. simpl. split; [exact Hm|lia].
    + match type of Hm with
      | match ?m with _ => _ end = _ => destruct m eqn:E1
      end.
      * injection Hm as ->. apply IH1 in E1 as (s1 & c1 & Hk & Hl).
        destruct (Nat.ltb_spec (length s1) (length s)); [|discriminate].
        apply IHn in Hk as (s2 & c2 & Hk & Hl2).
        exists s2, c2. simpl in *. split; [exact Hk|lia].
      * exists s, caps. simpl. split; [exact Hm|lia].
  - apply IH1 in Hm as (s1 & c1 & Hm & Hl).
    eexists _, _. split; [exact Hm|]. simpl. lia.
Qed.

Lemma rmatch_Cat {R} (r1 r2 : regex) (s : bytes) (caps : groups)
    (k : bytes -> groups -> option R) :
  rmatch (Cat r1 r2) s caps k = rmatch r1 s caps (fun s1 c1 => rmatch r2 s1 c1 k).
Proof. reflexivity. Qed.

Lemma rmatch_Grp {R} (n : nat) (r : regex) (s : bytes) (caps : groups)
    (k : bytes -> groups -> option R) :
  rmatch (Grp n r) s caps k =
    rmatch r s caps (fun s1 c1 => k s1 (<[n := take (length s - length s1) s]> c1)).
Proof. reflexivity. Qed.

(** The [body] group of a match is shorter than the text matched. *)
Lemma re_match_body_shorter (s : bytes) (g : groups) :
  re_match MESSAGE_PATTERN s = Some g ->
  exists body, g !! g_body = Some body /\ (length body < length s)%nat.
Proof.
  unfold re_match, MESSAGE_PATTERN. intros Hm.
  rewrite rmatch_Cat in Hm. apply rmatch_inv in Hm as (s1 & c1 & Hm & Hl1).
  rewrite rmatch_Cat in Hm. apply rmatch_inv in Hm as (s2 & c2 & Hm & Hl2).
  rewrite rmatch_Cat in Hm. apply rmatch_inv in Hm as (s3 & c3 & Hm & Hl3).
  unfold PAT_BODY in Hm.
  rewrite rmatch_Cat in Hm. apply rmatch_inv in Hm as (s4 & c4 & Hm & Hl4).
  rewrite rmatch_Grp in Hm. apply rmatch_inv in Hm as (s5 & c5 & Hm & Hl5).
  injection Hm as <-.
  eexists. split; [apply lookup_insert_eq|].
  rewrite length_take. simpl in *. lia.
Qed.

(** ** Framing *)

Section Framing.
Import JsonRPC.
Context `{Library}.
Implicit Types (self : JsonRPC.t).

Lemma message_buf_send_data m self : _message_buf (send_data m self) = _message_buf self.
Proof. unfold send_data. now destruct (transport self). Qed.

Lemma message_buf_send_error c msg i d self :
  _message_buf (send_error c msg i d self) = _message_buf self.
Proof. unfold send_error. apply message_buf_send_data. Qed.

Lemma message_buf_generator gen : forall self,
  _message_buf (snd (_handle_messages_generator gen self)) = _message_buf self.
Proof.
  induction gen as [|[m|e] gen IH]; intros self; simpl; [reflexivity| |reflexivity].
  now rewrite IH.
Qed.

Lemma message_buf_decode charset body self :
  _message_buf (snd (decode_and_schedule charset body self)) = _message_buf self.
Proof.
  unfold decode_and_schedule.
  destruct (bytes_decode charset body) as [text|]; [|reflexivity].
  destruct (json_loads text); [|reflexivity]. apply message_buf_generator.
Qed.

Lemma message_buf_handle_frame charset body self :
  _message_buf (handle_frame charset body self) = [].
Proof.
  unfold handle_frame.
  pose proof (message_buf_decode charset body (set_message_buf [] self)) as Hb.
  destruct (decode_and_schedule _ _ _) as [[[]|e] p]; simpl in Hb.
  - exact Hb.
  - now rewrite message_buf_send_error.
Qed.




Lemma scheduled_send_error c msg i d self :
  scheduled (send_error c msg i d self) = scheduled self.
Proof. unfold send_error, send_data. now destruct (transport self). Qed.

Lemma scheduled_generator gen : forall self,
  scheduled (snd (_handle_messages_generator gen self)) = scheduled self ++ yielded gen.
Proof.
  induction gen as [|[m|e] gen IH]; intros self; simpl.
  - now rewrite app_nil_r.
  - rewrite IH. simpl. now rewrite <- app_assoc.
  - now rewrite app_nil_r.
Qed.

(** A complete frame adds the messages decoded from its body to the
    scheduled ones. *)
Lemma scheduled_handle_frame charset body self :
  scheduled (handle_frame charset body self) = scheduled self ++ decoded charset body.
Proof.
  unfold handle_frame, decoded, decode_and_schedule.
  destruct (bytes_decode charset body) as [text|e]; simpl.
  2:{ now rewrite scheduled_send_error, app_nil_r. }
  destruct (json_loads text) as [d|e]; simpl.
  2:{ now rewrite scheduled_send_error, app_nil_r. }
  pose proof (scheduled_generator (_json_rpc_message_from_dict d) (set_message_buf [] self))
    as Hs.
  destruct (_handle_messages_generator _ (set_message_buf [] self)) as [[[]|e] p];
    simpl in *; [exact Hs|].
  now rewrite scheduled_send_error.
Qed.

Lemma data_received_loop_S (n : nat) (data : bytes) self :
  data_received_loop (S n) data self = turn (data_received_loop n) data self.
Proof. reflexivity. Qed.

Lemma found_body_shorter (s : bytes) :
  s <> [] -> (length (found_body (re_match MESSAGE_PATTERN s)) < length s)%nat.
Proof.
  intros Hs. destruct (re_match MESSAGE_PATTERN s) as [g|] eqn:E; simpl.
  - apply re_match_body_shorter in E as (body & -> & Hlt). exact Hlt.
  - destruct s; [congruence|simpl; lia].
Qed.

(** The loop does not depend on how many turns it is allowed beyond the
    number of bytes at hand. *)
Lemma data_received_loop_enough (n : nat) : forall (m : nat) (data : bytes) self,
  (length (_message_buf self ++ data) < n)%nat ->
  (length (_message_buf self ++ data) < m)%nat ->
  data_received_loop n data self = data_received_loop m data self.
Proof.
  induction n as [|n IH]; intros m data self Hn Hm; [lia|].
  destruct m as [|m]; [lia|].
  rewrite !data_received_loop_S. unfold turn.
  destruct (length data =? 0)%nat eqn:E0; [reflexivity|].
  apply Nat.eqb_neq in E0.
  destruct (found_charset _); [|reflexivity].
  destruct (_ <? _); [reflexivity|].
  destruct (bytes_decode _ _); [|reflexivity].
  assert (Hne : _message_buf self ++ data <> []).
  { destruct data; [simpl in E0; lia|]. now destruct (_message_buf self). }
  pose proof (found_body_shorter _ Hne) as Hlt.
  apply IH; rewrite message_buf_handle_frame; simpl; rewrite length_drop; lia.
Qed.

(** The equation of [data_received]: it is total, and each call is one
    turn followed by [data_received] on what is left. *)
Lemma data_received_turn (data : bytes) self :
  data_received data self = turn data_received data self.
Proof.
  unfold data_received at 1. rewrite data_received_loop_S. unfold turn.
  destruct (length data =? 0)%nat eqn:E0; [reflexivity|].
  apply Nat.eqb_neq in E0.
  destruct (found_charset _); [|reflexivity].
  destruct (_ <? _); [reflexivity|].
  destruct (bytes_decode _ _); [|reflexivity].
  assert (Hne : _message_buf self ++ data <> []).
  { destruct data; [simpl in E0; lia|]. now destruct (_message_buf self). }
  pose proof (found_body_shorter _ Hne) as Hlt.
  unfold data_received.
  apply data_received_loop_enough; rewrite message_buf_handle_frame; simpl;
    rewrite length_drop; lia.
Qed.

Lemma data_received_nil self : data_received [] self = (Ok tt, self).
Proof. reflexivity. Qed.

(** A complete frame is at hand and the buffer decodes: the frame is
    handled and the loop goes on with the bytes after its body. *)
Lemma data_received_frame (data : bytes) self (charset : string) (text : pystr) :
  data <> [] ->
  let found := re_match MESSAGE_PATTERN (_message_buf self ++ data) in
  found_charset found = Ok charset ->
  found_length found <= Z.of_nat (length (found_body found)) ->
  bytes_decode charset (_message_buf self ++ data) = Ok text ->
  data_received data self =
    data_received (drop (Z.to_nat (found_length found)) (found_body found))
      (handle_frame charset (take (Z.to_nat (found_length found)) (found_body found)) self).
Proof.
  intros Hd found Hcs Hlen Hlog. rewrite data_received_turn at 1. unfold turn.
  destruct data; [congruence|]. simpl length. cbn [Nat.eqb].
  fold found. rewrite Hcs.
  destruct (Z.ltb_spec (Z.of_nat (length (found_body found))) (found_length found)); [lia|].
  now rewrite Hlog.
Qed.

(** A complete frame is at hand and the buffer does not decode: the
    exception leaves [data_received], the bytes stay in the buffer and the
    frame is not handled. *)
Lemma data_received_undecodable (data : bytes) self (charset : string) (e : exn) :
  data <> [] ->
  let found := re_match MESSAGE_PATTERN (_message_buf self ++ data) in
  found_charset found = Ok charset ->
  found_length found <= Z.of_nat (length (found_body found)) ->
  bytes_decode charset (_message_buf self ++ data) = Raise e ->
  data_received data self = (Raise e, set_message_buf (_message_buf self ++ data) self).
Proof.
  intros Hd found Hcs Hlen Hlog. rewrite data_received_turn. unfold turn.
  destruct data; [congruence|]. simpl length. cbn [Nat.eqb].
  fold found. rewrite Hcs.
  destruct (Z.ltb_spec (Z.of_nat (length (found_body found))) (found_length found)); [lia|].
  now rewrite Hlog.
Qed.


(** No complete frame is at hand: nothing is decoded and the bytes are
    kept in the buffer. *)
Lemma data_received_wait (data : bytes) self (charset : string) :
  data <> [] ->
  let found := re_match MESSAGE_PATTERN (_message_buf self ++ data) in
  found_charset found = Ok charset ->
  Z.of_nat (length (found_body found)) < found_length found ->
  data_received data self = (Ok tt, set_message_buf (_message_buf self ++ data) self).
Proof.
  intros Hd found Hcs Hlen. rewrite data_received_turn. unfold turn.
  destruct data; [congruence|]. simpl length. cbn [Nat.eqb].
  fold found. rewrite Hcs.
  destruct (Z.ltb_spec (Z.of_nat (length (found_body found))) (found_length found)); [|lia].
  reflexivity.
Qed.

Lemma exit_frames_match :
  let found := re_match MESSAGE_PATTERN (Sample.exit_frame ++ Sample.exit_frame) in
  found_charset found = Ok CHARSET /\ found_length found = 35
  /\ found_body found = Sample.exit_body.
Proof. vm_compute. repeat split. Qed.

Lemma exit_frame_match :
  let found := re_match MESSAGE_PATTERN Sample.exit_frame in
  found_charset found = Ok CHARSET /\ found_length found = 35
  /\ found_body found = Sample.exit_body.
Proof. vm_compute. repeat split. Qed.

Lemma data_received_exit_frame self :
  _message_buf self = [] ->
  data_received Sample.exit_frame self = (Ok tt, handle_frame CHARSET Sample.exit_body self).
Proof.
  intros Hbuf. destruct exit_frame_match as (Hc & Hl & Hb).
  destruct (decode_utf8_ascii Sample.exit_frame eq_refl) as [text Hlog].
  rewrite (data_received_frame Sample.exit_frame self CHARSET text);
    rewrite ?Hbuf, ?app_nil_l.
  - rewrite Hl, Hb. reflexivity.
  - discriminate.
  - exact Hc.
  - rewrite Hl, Hb. vm_compute. discriminate.
  - exact Hlog.
Qed.

Lemma data_received_exit_frames self :
  _message_buf self = [] ->
  data_received (Sample.exit_frame ++ Sample.exit_frame) self
  = (Ok tt, handle_frame CHARSET Sample.exit_body self).
Proof.
  intros Hbuf. destruct exit_frames_match as (Hc & Hl & Hb).
  destruct (decode_utf8_ascii (Sample.exit_frame ++ Sample.exit_frame) eq_refl)
    as [text Hlog].
  rewrite (data_received_frame (Sample.exit_frame ++ Sample.exit_frame) self CHARSET text);
    rewrite ?Hbuf, ?app_nil_l.
  - rewrite Hl, Hb. reflexivity.
  - discriminate.
  - exact Hc.
  - rewrite Hl, Hb. vm_compute. discriminate.
  - exact Hlog.
Qed.

(** C2 (failing input): two frames of an [exit] notification whose body
    ends in CR LF, on a freshly connected protocol.  Received as one chunk,
    the first frame is skipped as leading lines of the second and one body
    is decoded; received frame by frame, two are.  The messages scheduled
    are those of one decode pass in the first case and of two in the second. *)
Theorem framing_depends_on_chunks (registry : RpcRegistry) :
  let p0 := connection_made (JsonRPC.__init__ registry) in
  let frame := Sample.exit_frame in
  let body := Sample.exit_body in
  data_received (frame ++ frame) p0 = (Ok tt, handle_frame CHARSET body p0)
  /\ feed [frame; frame] p0
     = (Ok tt, handle_frame CHARSET body (handle_frame CHARSET body p0))
  /\ scheduled (snd (data_received (frame ++ frame) p0)) = decoded CHARSET body
  /\ scheduled (snd (feed [frame; frame] p0)) = decoded CHARSET body ++ decoded CHARSET body.
Proof.
  intros p0 frame body.
  assert (H1 : data_received (frame ++ frame) p0 = (Ok tt, handle_frame CHARSET body p0))
    by (now apply data_received_exit_frames).
  assert (H2 : feed [frame; frame] p0
               = (Ok tt, handle_frame CHARSET body (handle_frame CHARSET body p0))).
  { cbn [feed]. unfold frame. rewrite data_received_exit_frame by reflexivity.
    rewrite data_received_exit_frame by apply message_buf_handle_frame. reflexivity. }
  rewrite H1, H2. cbn [snd]. rewrite !scheduled_handle_frame. auto.
Qed.


End Framing.

(** With the sample library the two decodings are one [exit] notification
    and two. *)
Example framing_depends_on_chunks_sample :
  let exit := JsonRPC.Notification (JsonRPC.mkNotification "exit" JsonRPC.PyNone) in
  JsonRPC.scheduled (snd (JsonRPC.data_received (H:=Sample.library)
                            (Sample.exit_frame ++ Sample.exit_frame) Sample.connected))
  = [exit]
  /\ JsonRPC.scheduled (snd (JsonRPC.feed (H:=Sample.library)
                               [Sample.exit_frame; Sample.exit_frame] Sample.connected))
     = [exit; exit].
Proof. vm_compute. split; reflexivity. Qed.



(** ** Dispatch *)

Section Dispatch.
Import JsonRPC.
Context `{Library} {handlers : Handlers}.
Implicit Types (self : JsonRPC.t).

(** A method that the merged view [methods] does not have is not among the
    registry's own entries either. *)
Lemma get_entry_not_registered (r : RpcRegistry) (name : string) :
  methods r !! name = None -> get_entry r name = None.
Proof.
  unfold get_entry. destruct r as [[p|] own]; simpl; [|auto].
  intros Hn. now apply lookup_union_None in Hn as [Hn _].
Qed.

(** C5: a request for a method that is not in the registry is answered by
    an error response with code METHOD_NOT_FOUND and the id of the request,
    written to the transport; the same method sent as a notification is
    answered by nothing: the state, and with it the transport, is as
    before. *)
Theorem unknown_method self (method : string) (id : option rpc_id) (params : Any) :
  methods (registry self) !! method = None ->
  let response :=
    Error (mkError id
             (mkErrorObject METHOD_NOT_FOUND (Some ("Unknown method: " +:+ method)) PyNone)
             PyNone) in
  handle_message (Request (mkRequest id method params)) self = (Ok tt, send_data response self)
  /\ (forall written, transport self = Some written ->
        send_data response self
        = set_transport (Some (written ++ [written_message response])) self)
  /\ handle_message (Notification (mkNotification method params)) self = (Ok tt, self).
Proof.
  intros Hm response. split; [|split].
  - simpl. unfold handle_request. simpl. now rewrite (get_entry_not_registered _ _ Hm).
  - intros written Hw. unfold send_data, written_message. now rewrite Hw.
  - simpl. unfold handle_notification. simpl. now rewrite (get_entry_not_registered _ _ Hm).
Qed.

(** A response whose id is not in the pending table: INTERNAL_ERROR is
    sent back. *)
Lemma handle_response_unknown_id self (message : JsonRPCResponse) (id : rpc_id) :
  p_id message = Some id ->
  _request_futures self !! id = None ->
  handle_response message self
  = (Ok tt, send_error INTERNAL_ERROR
              ("Invalid response. Could not find id '" +:+ str_of_id id
               +:+ "' in our request list") None PyNone
              (set_request_futures (delete id (_request_futures self)) self)).
Proof. unfold handle_response. intros -> ->. reflexivity. Qed.

(** A response whose id is in the pending table: the entry is removed and
    its future finished with the converted result, or with the exception
    of the conversion. *)
Lemma handle_response_fulfilled self (message : JsonRPCResponse) (id : rpc_id)
    (entry : _RequestFuturesEntry) (outcome : result exn Any) :
  p_id message = Some id ->
  _request_futures self !! id = Some entry ->
  futures self !! future entry = Some Pending ->
  _try_convert_value (p_result message) (result_type entry) = outcome ->
  handle_response message self
  = (Ok tt, set_futures (<[future entry := Finished outcome]> (futures self))
              (set_request_futures (delete id (_request_futures self)) self)).
Proof.
  unfold handle_response. intros -> -> Hf <-.
  destruct (_try_convert_value _ _) as [v|e]; unfold set_outcome; simpl; rewrite Hf;
    reflexivity.
Qed.

Lemma request_futures_send_data m self :
  _request_futures (send_data m self) = _request_futures self.
Proof. unfold send_data. now destruct (transport self). Qed.

Lemma futures_send_data m self : futures (send_data m self) = futures self.
Proof. unfold send_data. now destruct (transport self). Qed.

(** C4 (failing input): an error reply is handed to [handle_error], which
    raises [NotImplementedError] whatever the reply and the state.  After a
    [send_request], whatever error reply comes in (the one carrying the id
    of that request included), the entry of the request is still in the
    pending table and its future is still pending; and in any state, so
    also for an id that is not pending, nothing is written back.  The
    exception ends the task of the message and nothing else. *)
Theorem handle_error_not_implemented self (method : string) (params : Any)
    (return_type : option TypeOrConverter) (message : JsonRPCError) :
  let sent := send_request method params return_type self in
  let id : rpc_id := inl (uuid4 (uuids self)) in
  let after := run_tasks [Error message] (snd sent) in
  handle_message (Error message) self = (Raise NotImplementedError, self)
  /\ run_tasks [Error message] self = self
  /\ after = snd sent
  /\ _request_futures after !! id = Some (mkFuturesEntry (fst sent) return_type)
  /\ futures after !! fst sent = Some Pending.
Proof.
  intros sent id after.
  split; [reflexivity|]. split; [reflexivity|]. split; [reflexivity|].
  unfold after, sent, send_request. cbn [run_tasks handle_message handle_error snd fst].
  rewrite request_futures_send_data, futures_send_data. simpl.
  split; apply lookup_insert_eq.
Qed.

End Dispatch.

(** A request and a notification for the method "foo" on a connected
    protocol without registered methods. *)
Example unknown_method_sample :
  let response :=
    JsonRPC.Error
      (JsonRPC.mkError (Some (inr 7))
         (JsonRPC.mkErrorObject JsonRPC.METHOD_NOT_FOUND (Some "Unknown method: foo")
            JsonRPC.PyNone) JsonRPC.PyNone) in
  JsonRPC.handle_message (H:=Sample.library) (handlers:=Sample.handlers)
    (JsonRPC.Request (JsonRPC.mkRequest (Some (inr 7)) "foo" JsonRPC.PyNone)) Sample.connected
  = (Ok tt, JsonRPC.set_transport
              (Some [JsonRPC.written_message (H:=Sample.library) response]) Sample.connected)
  /\ JsonRPC.handle_message (H:=Sample.library) (handlers:=Sample.handlers)
       (JsonRPC.Notification (JsonRPC.mkNotification "foo" JsonRPC.PyNone)) Sample.connected
     = (Ok tt, Sample.connected).
Proof.
  destruct (unknown_method (H:=Sample.library) (handlers:=Sample.handlers) Sample.connected
              "foo" (Some (inr 7)) JsonRPC.PyNone eq_refl) as (Hreq & Hsent & Hntf).
  split; [|exact Hntf].
  rewrite Hreq. now rewrite (Hsent [] eq_refl).
Defined.

(** An error reply to a request that was just sent: the request stays in
    the table and its future stays pending. *)
Example error_reply_leaves_request_pending :
  let '(fut, p1) :=
    JsonRPC.send_request (H:=Sample.library) "workspace/diagnostic/refresh" JsonRPC.PyNone None
      Sample.connected in
  let reply :=
    JsonRPC.Error
      (JsonRPC.mkError (Some (inl "uuid-0"))
         (JsonRPC.mkErrorObject JsonRPC.INTERNAL_ERROR (Some "failed") JsonRPC.PyNone)
         JsonRPC.PyNone) in
  let p2 := JsonRPC.run_tasks (H:=Sample.library) (handlers:=Sample.handlers) [reply] p1 in
  JsonRPC._request_futures p1 !! (inl "uuid-0" : string + Z)
  = Some (JsonRPC.mkFuturesEntry fut None)
  /\ p2 = p1
  /\ JsonRPC.futures p2 !! fut = Some JsonRPC.Pending.
Proof. vm_compute. repeat split. Qed.

(** ** Parameter binding *)

Section ConvertParams.
Import JsonRPC.

Lemma convert_parameter_keywords (converted_params : Any) (attrs : list (string * Any))
    (v : SigParameter) (st st' : convert_state) :
  (forall k, is_Some (kw_args st !! k) -> k = "params") ->
  convert_parameter false converted_params attrs v st = Ok st' ->
  forall k, is_Some (kw_args st' !! k) -> k = "params".
Proof.
  intros Hst. unfold convert_parameter.
  destruct (attr_get (name v) attrs) as [field|].
  - destruct (param_kind_eqb (kind v) POSITIONAL_ONLY); simpl;
      destruct (list_remove (name v) (rest st)); intros [= <-]; exact Hst.
  - destruct (String.eqb (name v) "params"); [|intros [= <-]; exact Hst].
    destruct (param_kind_eqb (kind v) POSITIONAL_ONLY); intros [= <-]; simpl; [exact Hst|].
    intros k. rewrite lookup_insert. destruct (decide ("params" = k)); [auto|apply Hst].
Qed.

Lemma convert_parameters_keywords (converted_params : Any) (attrs : list (string * Any))
    (sig : list SigParameter) : forall st st' : convert_state,
  (forall k, is_Some (kw_args st !! k) -> k = "params") ->
  convert_parameters false converted_params attrs sig st = Ok st' ->
  forall k, is_Some (kw_args st' !! k) -> k = "params".
Proof.
  induction sig as [|v sig IH]; intros st st' Hst; simpl.
  - intros [= <-]. exact Hst.
  - destruct (convert_parameter false converted_params attrs v st) as [st1|] eqn:E;
      [|discriminate].
    apply IH. exact (convert_parameter_keywords _ _ _ _ _ Hst E).
Qed.

(** Whatever the parameter class and the raw params: for a handler without
    a catch-all keyword parameter, no field is passed by keyword; the only
    keyword argument there can be is [params]. *)
Lemma convert_params_without_var_keyword (callable : Callable) (pt : ParamType)
    (params : Any) (args : list Any) (kw : gmap string Any) :
  existsb (fun p => param_kind_eqb (kind p) VAR_KEYWORD) (signature callable) = false ->
  _convert_params callable (Some pt) params = Ok (args, kw) ->
  forall k, is_Some (kw !! k) -> k = "params".
Proof.
  intros Hkw. unfold _convert_params. rewrite Hkw.
  assert (Hempty : forall k : string, is_Some ((∅ : gmap string Any) !! k) -> k = "params").
  { intros k. rewrite lookup_empty. now intros [? ?]. }
  assert (Hrest :
    match construct pt params with
    | Raise e => Raise e
    | Ok converted_params =>
        match instance_dict converted_params with
        | Raise e => Raise e
        | Ok attrs =>
            match convert_parameters false converted_params attrs (signature callable)
                    (mkConvert [] ∅ false (map fst attrs)) with
            | Raise e => Raise e
            | Ok st => Ok (JsonRPC.args st, kw_args st)
            end
        end
    end = Ok (args, kw) -> forall k, is_Some (kw !! k) -> k = "params").
  { destruct (construct pt params) as [cp|]; [|discriminate].
    destruct (instance_dict cp) as [attrs|]; [|discriminate].
    destruct (convert_parameters _ _ _ _ _) as [st|] eqn:E; [|discriminate].
    intros [= _ <-].
    exact (convert_parameters_keywords _ _ _ (mkConvert [] ∅ false (map fst attrs)) _ Hempty E). }
  destruct params; try exact Hrest.
  intros [= _ <-]. exact Hempty.
Qed.

(** C9 (failing input): a handler that declares the two fields of its
    parameter class as ordinary parameters and has no catch-all keyword
    parameter is bound to no argument at all: neither field reaches the
    parameter of its name.  And so for every handler without a catch-all
    keyword parameter: whatever [_convert_params] returns, no field is in
    its keyword arguments. *)
Theorem convert_params_drops_named_fields :
  _convert_params (Sample.hover false) (Some Sample.params_class) Sample.raw_params
  = Ok ([], ∅)
  /\ forall (callable : Callable) (pt : ParamType) (params : Any) (args : list Any)
       (kw : gmap string Any),
       existsb (fun p => param_kind_eqb (kind p) VAR_KEYWORD) (signature callable) = false ->
       _convert_params callable (Some pt) params = Ok (args, kw) ->
       forall k, k <> "params" -> kw !! k = None.
Proof.
  split; [reflexivity|].
  intros callable pt params args kw Hkw Hconv k Hk.
  destruct (kw !! k) as [v|] eqn:E; [|reflexivity].
  exfalso. apply Hk.
  apply (convert_params_without_var_keyword callable pt params args kw Hkw Hconv).
  rewrite E. eauto.
Qed.

(** The same handler with a catch-all keyword parameter gets both fields
    and the whole object. *)
Example convert_params_with_var_keyword :
  _convert_params (Sample.hover true) (Some Sample.params_class) Sample.raw_params
  = Ok ([], <["params" := PyObject "Params" [("text_document", PyStr "file:///a.robot");
                                             ("position", PyInt 3)]]>
            (<["position" := PyInt 3]> (<["text_document" := PyStr "file:///a.robot"]> ∅))).
Proof. reflexivity. Qed.

End ConvertParams.

(** ** Pull diagnostics *)

Section DiagnosticsProperties.
Import Diagnostics.
Context (uuid4 : nat -> string) (SERVER_CANCELLED : Z) (self_key : nat).
Implicit Types (w : Diagnostics.t) (doc : Document).

Local Abbreviation handler := (_text_document_diagnostic uuid4 SERVER_CANCELLED self_key).

(** The block that starts a run, as one state change. *)
Lemma start_run_eq (uri : string) doc doc1 (task : option nat) w :
  documents w !! uri = Some doc1 ->
  let a := fresh (dom (heap w)) in
  let t' := fresh (dom (tasks_after_cancel task w)) in
  start_run uuid4 self_key uri doc task w =
    (a, Diagnostics.mk
          (<[uri := TextDocument.set_data self_key a doc1]> (documents w))
          (<[a := mkData (uuid4 (uuids w)) [] (TextDocument.version doc) (Some t') false]> (heap w))
          (<[t' := mkTask a false false]> (tasks_after_cancel task w))
          (S (uuids w))
          (trace w ++ [SetData uri a] ++ cancel_events task w ++ [CreateSubTask t' a])).
Proof.
  intros Hdoc a t'. unfold start_run, new_uuid, new_data, document_set_data. simpl.
  rewrite Hdoc. fold a. unfold t', tasks_after_cancel, cancel_events.
  assert (Hfin : forall (tk : gmap nat Task) (tr : list event),
    (let w3 := Diagnostics.mk (<[uri := TextDocument.set_data self_key a doc1]> (documents w))
                 (<[a := mkData (uuid4 (uuids w)) [] None None false]> (heap w)) tk
                 (S (uuids w)) tr in
     let w4 := update_data a (with_version (TextDocument.version doc)) w3 in
     let '(task0, w5) := create_sub_task a w4 in
     (a, update_data a (with_task (Some task0)) w5))
    = (a, Diagnostics.mk (<[uri := TextDocument.set_data self_key a doc1]> (documents w))
            (<[a := mkData (uuid4 (uuids w)) [] (TextDocument.version doc)
                      (Some (fresh (dom tk))) false]> (heap w))
            (<[fresh (dom tk) := mkTask a false false]> tk) (S (uuids w))
            (tr ++ [CreateSubTask (fresh (dom tk)) a]))).
  { intros tk tr. unfold update_data, create_sub_task; simpl. rewrite lookup_insert_eq. simpl.
    rewrite lookup_insert_eq. simpl. now rewrite !insert_insert_eq. }
  destruct task as [t|]; simpl.
  - unfold task_done, call_soon_threadsafe_cancel; simpl.
    destruct (tasks w !! t) as [x|] eqn:Ht; simpl.
    + destruct (done x) eqn:Hx; simpl.
      * etransitivity; [exact (Hfin (tasks w) _)|]. simpl. now rewrite <- ?app_assoc.
      * rewrite ?Ht. unfold emit, set_tasks; simpl. rewrite ?Ht, ?Hx. simpl.
        etransitivity; [exact (Hfin _ _)|]. simpl. now rewrite <- ?app_assoc.
    + etransitivity; [exact (Hfin (tasks w) _)|]. simpl. now rewrite <- ?app_assoc.
  - etransitivity; [exact (Hfin (tasks w) _)|]. simpl. now rewrite <- ?app_assoc.
Qed.

Lemma version_differs_refl (v : option Z) : version_differs v v = false.
Proof. destruct v; simpl; [|reflexivity]. now rewrite Z.eqb_refl. Qed.

Lemma id_matches_iff (i : string) (p : option string) : id_matches i p = true <-> p = Some i.
Proof.
  destruct p as [s|]; simpl; [|split; discriminate].
  rewrite String.eqb_eq. split; [now intros ->|now intros [= ->]].
Qed.

(** No rerun is required: the reply is read off the current record and the
    state is left alone. *)
Lemma handler_settled w (uri : string) doc (a : nat) (d : DiagnosticsData)
    (previous_result_id : option string) :
  documents w !! uri = Some doc ->
  TextDocument.get_data self_key doc = Some a ->
  heap w !! a = Some d ->
  rerun_required doc d = false ->
  handler uri previous_result_id w = (Ok (report_for d previous_result_id), w).
Proof.
  intros Hdoc Ha Hd Hr. unfold _text_document_diagnostic, get_diagnostics_data, report_for.
  rewrite Hdoc, Ha. unfold deref. rewrite Hd. simpl. rewrite Hr. rewrite Hd. simpl.
  destruct (id_matches _ _); reflexivity.
Qed.

(** A rerun is required: the reply is read off the record of the new run. *)
Lemma handler_rerun w (uri : string) doc (a : nat) (d : DiagnosticsData)
    (previous_result_id : option string) :
  documents w !! uri = Some doc ->
  TextDocument.get_data self_key doc = Some a ->
  heap w !! a = Some d ->
  rerun_required doc d = true ->
  let a' := fresh (dom (heap w)) in
  let t' := fresh (dom (tasks_after_cancel (task d) w)) in
  let d' := mkData (uuid4 (uuids w)) [] (TextDocument.version doc) (Some t') false in
  handler uri previous_result_id w =
    (Ok (report_for d' previous_result_id),
     Diagnostics.mk
       (<[uri := TextDocument.set_data self_key a' doc]> (documents w))
       (<[a' := d']> (heap w))
       (<[t' := mkTask a' false false]> (tasks_after_cancel (task d) w))
       (S (uuids w))
       (trace w ++ [SetData uri a'] ++ cancel_events (task d) w ++ [CreateSubTask t' a'])).
Proof.
  intros Hdoc Ha Hd Hr a' t' d'.
  unfold _text_document_diagnostic, get_diagnostics_data, report_for.
  rewrite Hdoc, Ha. unfold deref at 1 2. rewrite Hd. simpl. rewrite Hr.
  rewrite (start_run_eq uri doc doc (task d) w Hdoc). fold a' t' d'.
  unfold deref. simpl. rewrite lookup_insert_eq. simpl.
  destruct (id_matches _ _); reflexivity.
Qed.

Lemma rerun_required_no_task doc (i : string) e (v : option Z) (f : bool) :
  rerun_required doc (mkData i e v None f) = true.
Proof. unfold rerun_required. simpl. apply orb_true_r. Qed.

(** The first request for a document that has no record yet. *)
Lemma handler_first w (uri : string) doc (previous_result_id : option string) :
  documents w !! uri = Some doc ->
  TextDocument.get_data self_key doc = None ->
  let a0 := fresh (dom (heap w)) in
  let heap1 := <[a0 := mkData (uuid4 (uuids w)) [] None None false]> (heap w) in
  let a1 := fresh (dom heap1) in
  let t' := fresh (dom (tasks w)) in
  let d' := mkData (uuid4 (S (uuids w))) [] (TextDocument.version doc) (Some t') false in
  handler uri previous_result_id w =
    (Ok (report_for d' previous_result_id),
     Diagnostics.mk
       (<[uri := TextDocument.set_data self_key a1 (TextDocument.set_data self_key a0 doc)]>
          (documents w))
       (<[a1 := d']> heap1)
       (<[t' := mkTask a1 false false]> (tasks w))
       (S (S (uuids w)))
       (trace w ++ [SetData uri a0; SetData uri a1; CreateSubTask t' a1])).
Proof.
  intros Hdoc Ha a0 heap1 a1 t' d'.
  unfold _text_document_diagnostic, get_diagnostics_data, report_for.
  rewrite Hdoc, Ha. unfold new_uuid, new_data, document_set_data. simpl.
  rewrite Hdoc. fold a0. unfold deref at 1 2. simpl. rewrite lookup_insert_eq. simpl.
  match goal with
  | |- context [start_run _ _ _ _ _ ?w1] =>
      rewrite (start_run_eq uri doc (TextDocument.set_data self_key a0 doc) None w1)
        by apply lookup_insert_eq
  end.
  simpl. rewrite rerun_required_no_task. unfold deref. simpl. rewrite lookup_insert_eq. simpl.
  rewrite insert_insert_eq, <- app_assoc. simpl.
  destruct (id_matches _ _); reflexivity.
Qed.

Lemma rerun_not_required_after doc (a : nat) (i : string) (t : nat) :
  rerun_required (TextDocument.set_data self_key a doc)
    (mkData i [] (TextDocument.version doc) (Some t) false) = false.
Proof. unfold rerun_required. simpl. now rewrite version_differs_refl. Qed.

(** What the code chains is the aggregated entries list. *)
Lemma chain_entries_aggregated (e : list (nat * option (list Diagnostic))) :
  chain_entries e = aggregated e.
Proof.
  unfold chain_entries. induction e as [|[k [l|]] e IH]; [reflexivity| |exact IH].
  cbn [omap list_omap option_bind mbind snd aggregated]. rewrite <- IH. reflexivity.
Qed.

(** A diagnostic is in the aggregated entries exactly when it is in the
    list some collector delivered. *)
Lemma elem_of_aggregated (x : Diagnostic) (e : list (nat * option (list Diagnostic))) :
  x ∈ aggregated e <-> exists k l, (k, Some l) ∈ e /\ x ∈ l.
Proof.
  induction e as [|[k [l|]] e IH]; simpl.
  - split; [intros Hx; now apply elem_of_nil in Hx|intros (k & l & Hk & _)].
    now apply elem_of_nil in Hk.
  - rewrite elem_of_app, IH. split.
    + intros [Hx|(k' & l' & Hk & Hx)].
      * exists k, l. split; [apply elem_of_cons; now left|exact Hx].
      * exists k', l'. split; [apply elem_of_cons; now right|exact Hx].
    + intros (k' & l' & Hk & Hx). apply elem_of_cons in Hk as [[= -> ->]|Hk]; [now left|].
      right. eauto.
  - rewrite IH. split.
    + intros (k' & l' & Hk & Hx). exists k', l'. split; [apply elem_of_cons; now right|exact Hx].
    + intros (k' & l' & Hk & Hx). apply elem_of_cons in Hk as [[=]|Hk]. eauto.
Qed.

(** C3: a request is answered from the record [d] of the document's
    current run, a new run being started first when one is required.  A
    request that carries the id of that run gets the unchanged report with
    that id and no entries; any other request gets the full report with the
    aggregated entries of the run and its id; the same request repeated with
    the id returned gets the unchanged report and leaves the state alone.
    When no rerun is required the record is the one the document has and
    the state is left alone; for a freshly opened document (no record yet)
    the id is the one generated for the new run and there are no entries
    yet. *)
Theorem pull_diagnostics_contract w (uri : string) doc (previous_result_id : option string) :
  documents w !! uri = Some doc ->
  (forall a, TextDocument.get_data self_key doc = Some a -> is_Some (heap w !! a)) ->
  exists (d : DiagnosticsData) w',
    current_data self_key uri w' = Some d
    /\ (previous_result_id = Some (id d) ->
        handler uri previous_result_id w
        = (Ok (RelatedUnchangedDocumentDiagnosticReport (id d)), w'))
    /\ (previous_result_id <> Some (id d) ->
        handler uri previous_result_id w
        = (Ok (RelatedFullDocumentDiagnosticReport (aggregated (entries d)) (id d)), w'))
    /\ handler uri (Some (id d)) w'
       = (Ok (RelatedUnchangedDocumentDiagnosticReport (id d)), w')
    /\ (forall a d0, TextDocument.get_data self_key doc = Some a -> heap w !! a = Some d0 ->
        rerun_required doc d0 = false -> d = d0 /\ w' = w)
    /\ (TextDocument.get_data self_key doc = None ->
        id d = uuid4 (S (uuids w)) /\ entries d = []).
Proof.
  intros Hdoc Halloc.
  assert (Hfull : forall d : DiagnosticsData, previous_result_id <> Some (id d) ->
            report_for d previous_result_id
            = RelatedFullDocumentDiagnosticReport (aggregated (entries d)) (id d)).
  { intros d Hne. unfold report_for. rewrite chain_entries_aggregated.
    destruct (id_matches (id d) previous_result_id) eqn:E; [|reflexivity].
    now apply id_matches_iff in E. }
  assert (Hsame : forall d : DiagnosticsData,
            report_for d (Some (id d)) = RelatedUnchangedDocumentDiagnosticReport (id d)).
  { intros d. unfold report_for.
    destruct (id_matches (id d) (Some (id d))) eqn:E; [reflexivity|].
    simpl in E. now rewrite String.eqb_refl in E. }
  assert (Hreply : forall (d : DiagnosticsData) w',
            handler uri previous_result_id w = (Ok (report_for d previous_result_id), w') ->
            (previous_result_id = Some (id d) ->
             handler uri previous_result_id w
             = (Ok (RelatedUnchangedDocumentDiagnosticReport (id d)), w'))
            /\ (previous_result_id <> Some (id d) ->
                handler uri previous_result_id w
                = (Ok (RelatedFullDocumentDiagnosticReport (aggregated (entries d)) (id d)),
                   w'))).
  { intros d w' Hh. split.
    - intros E. rewrite Hh. rewrite E at 1. now rewrite Hsame.
    - intros E. rewrite Hh. now rewrite (Hfull d E). }
  destruct (TextDocument.get_data self_key doc) as [a|] eqn:Ha.
  - destruct (Halloc a eq_refl) as [d Hd].
    destruct (rerun_required doc d) eqn:Hr.
    + eexists _, _.
      destruct (Hreply _ _ (handler_rerun w uri doc a d _ Hdoc Ha Hd Hr)) as [Hu Hf].
      split; [|split; [exact Hu|split; [exact Hf|split; [|split; [|discriminate]]]]].
      * unfold current_data. simpl. rewrite lookup_insert_eq.
        unfold TextDocument.get_data, TextDocument.set_data. simpl.
        rewrite lookup_insert_eq. now rewrite lookup_insert_eq.
      * erewrite handler_settled; [now rewrite Hsame| | | |].
        -- simpl. apply lookup_insert_eq.
        -- unfold TextDocument.get_data, TextDocument.set_data. simpl. apply lookup_insert_eq.
        -- simpl. apply lookup_insert_eq.
        -- apply rerun_not_required_after.
      * intros a0 d0 [= <-] Hd0 Hr0. congruence.
    + exists d, w.
      destruct (Hreply _ _ (handler_settled w uri doc a d _ Hdoc Ha Hd Hr)) as [Hu Hf].
      split; [|split; [exact Hu|split; [exact Hf|split; [|split; [|discriminate]]]]].
      * unfold current_data. now rewrite Hdoc, Ha.
      * rewrite (handler_settled w uri doc a d _ Hdoc Ha Hd Hr). now rewrite Hsame.
      * intros a0 d0 [= <-] Hd0 _. split; congruence.
  - eexists _, _.
    destruct (Hreply _ _ (handler_first w uri doc _ Hdoc Ha)) as [Hu Hf].
    split; [|split; [exact Hu|split; [exact Hf|split; [|split; [discriminate|]]]]].
    + unfold current_data. simpl. rewrite lookup_insert_eq.
      unfold TextDocument.get_data, TextDocument.set_data. simpl.
      rewrite lookup_insert_eq. now rewrite lookup_insert_eq.
    + erewrite handler_settled; [now rewrite Hsame| | | |].
      * simpl. apply lookup_insert_eq.
      * unfold TextDocument.get_data, TextDocument.set_data. simpl. apply lookup_insert_eq.
      * simpl. apply lookup_insert_eq.
      * apply (rerun_not_required_after (TextDocument.set_data self_key _ doc)).
    + intros _. split; reflexivity.
Qed.

Lemma heap_update_data_other (a a' : nat) f w :
  a <> a' -> heap (update_data a f w) !! a' = heap w !! a'.
Proof.
  intros Hne. unfold update_data. destruct (heap w !! a); [|reflexivity].
  simpl. now rewrite lookup_insert_ne.
Qed.

Lemma heap_collect_result_other (a a' : nat) (r : DiagnosticsResult) w :
  a <> a' -> heap (collect_result uuid4 a r w) !! a' = heap w !! a'.
Proof.
  intros Hne. unfold collect_result, new_uuid. simpl.
  now rewrite !heap_update_data_other.
Qed.

(** A run writes to no record but its own. *)
Lemma heap_run_other (t a' : nat) (x : Task)
    (results : list (result JsonRPC.exn DiagnosticsResult)) w :
  tasks w !! t = Some x ->
  task_data x <> a' ->
  heap (_get_diagnostics_for_document uuid4 t results w) !! a' = heap w !! a'.
Proof.
  intros Ht Hne. unfold _get_diagnostics_for_document. rewrite Ht. simpl.
  unfold prune. rewrite heap_update_data_other by exact Hne.
  clear Ht. revert w. induction results as [|[r|e] results IH]; intros w; simpl.
  - reflexivity.
  - rewrite IH. now apply heap_collect_result_other.
  - apply IH.
Qed.

(** C7 (as amended): when a request requires a rerun while the task of the
    prior run is not done, the new record is created and installed as the
    document's current diagnostics data first, then the cancellation of
    the prior task is posted to its loop, then the task of the new run is
    created; the prior run writes to its own record only, so whatever it
    still collects leaves the new record as it is. *)
Theorem rerun_supersedes_active_run w (uri : string) doc (a : nat) (d : DiagnosticsData)
    (t : nat) (x : Task) (previous_result_id : option string) :
  documents w !! uri = Some doc ->
  TextDocument.get_data self_key doc = Some a ->
  heap w !! a = Some d ->
  rerun_required doc d = true ->
  task d = Some t ->
  tasks w !! t = Some x ->
  done x = false ->
  task_data x = a ->
  let a' := fresh (dom (heap w)) in
  let w' := snd (handler uri previous_result_id w) in
  exists t' : nat,
    trace w' = trace w ++ [SetData uri a'; CallSoonThreadsafeCancel t; CreateSubTask t' a']
    /\ a' <> a
    /\ current_data self_key uri w' = heap w' !! a'
    /\ is_Some (heap w' !! a')
    /\ forall results : list (result JsonRPC.exn DiagnosticsResult),
         heap (_get_diagnostics_for_document uuid4 t results w') !! a' = heap w' !! a'.
Proof.
  intros Hdoc Ha Hd Hr Ht Hx Hdone Hdata a' w'.
  assert (Hne : a' <> a).
  { intros E. apply (is_fresh (dom (heap w))). fold a'. rewrite E.
    apply elem_of_dom. eauto. }
  assert (Hcancel : tasks_after_cancel (Some t) w = <[t := mkTask a false true]> (tasks w)).
  { unfold tasks_after_cancel. now rewrite Hx, Hdone, Hdata. }
  assert (Hev : cancel_events (Some t) w = [CallSoonThreadsafeCancel t]).
  { unfold cancel_events, task_done. now rewrite Hx, Hdone. }
  unfold w'. rewrite (handler_rerun w uri doc a d _ Hdoc Ha Hd Hr). fold a'.
  rewrite Ht, Hcancel, Hev. simpl.
  eexists. split; [reflexivity|]. split; [exact Hne|]. split; [|split].
  - unfold current_data. simpl. rewrite lookup_insert_eq.
    unfold TextDocument.get_data, TextDocument.set_data. simpl.
    now rewrite lookup_insert_eq.
  - rewrite lookup_insert_eq. eauto.
  - intros results. apply (heap_run_other t a' (mkTask a false true)); [|simpl; congruence].
    simpl. rewrite lookup_insert_ne.
    + apply lookup_insert_eq.
    + intros E. apply (is_fresh (dom (<[t := mkTask a false true]> (tasks w)))).
      rewrite E. apply elem_of_dom. rewrite lookup_insert_eq. eauto.
Qed.

End DiagnosticsProperties.

(** The first request for the sample document and its repetition; and,
    once the run of that request has collected one diagnostic, the request
    that still carries the id of the first reply, and its repetition with
    the id of the second. *)
Example pull_diagnostics_contract_sample :
  (exists w',
     SampleRun.handler SampleRun.uri None SampleRun.opened
     = (Ok (Diagnostics.RelatedFullDocumentDiagnosticReport [] "run-1"), w')
     /\ SampleRun.handler SampleRun.uri (Some "run-1") w'
        = (Ok (Diagnostics.RelatedUnchangedDocumentDiagnosticReport "run-1"), w'))
  /\ SampleRun.handler SampleRun.uri (Some "run-1") SampleRun.collected
     = (Ok (Diagnostics.RelatedFullDocumentDiagnosticReport [SampleRun.unused_variable] "run-3"),
        SampleRun.collected)
  /\ SampleRun.handler SampleRun.uri (Some "run-3") SampleRun.collected
     = (Ok (Diagnostics.RelatedUnchangedDocumentDiagnosticReport "run-3"), SampleRun.collected).
Proof.
  split.
  - destruct (pull_diagnostics_contract SampleRun.uuid4 SampleRun.SERVER_CANCELLED 0
                SampleRun.opened SampleRun.uri (TextDocument.__init__ (u "abc") (Some 1)) None
                ltac:(vm_compute; reflexivity) ltac:(discriminate))
      as (d & w' & _ & _ & Hfull & Hagain & _ & Hfresh).
    destruct (Hfresh eq_refl) as [Hid Hentries].
    exists w'. unfold SampleRun.handler. rewrite Hfull by discriminate.
    rewrite Hid, Hentries in *. split; [reflexivity|exact Hagain].
  - destruct (pull_diagnostics_contract SampleRun.uuid4 SampleRun.SERVER_CANCELLED 0
                SampleRun.collected SampleRun.uri SampleRun.started_document (Some "run-1")
                ltac:(vm_compute; reflexivity)
                ltac:(intros a [= <-]; vm_compute; eauto))
      as (d & w' & _ & _ & Hfull & Hagain & Hsettled & _).
    destruct (Hsettled 1%nat
                (Diagnostics.mkData "run-3" [(1%nat, Some [SampleRun.unused_variable])]
                   (Some 1) (Some 0%nat) false)
                ltac:(vm_compute; reflexivity) ltac:(vm_compute; reflexivity)
                ltac:(vm_compute; reflexivity)) as [-> ->].
    unfold SampleRun.handler. split; [|exact Hagain].
    now rewrite Hfull by discriminate.
Defined.

(** The request after the edit: the record of the new run (address 2) is
    installed before the cancellation of the prior task (task 0) is posted. *)
Example cancel_posted_after_install :
  let w' := snd (SampleRun.handler SampleRun.uri (Some "run-1") SampleRun.edited) in
  Diagnostics.trace w'
  = Diagnostics.trace SampleRun.edited
    ++ [Diagnostics.SetData SampleRun.uri 2; Diagnostics.CallSoonThreadsafeCancel 0;
        Diagnostics.CreateSubTask 1 2]
  /\ ~ Diagnostics.happens_before (Diagnostics.CallSoonThreadsafeCancel 0)
         (Diagnostics.SetData SampleRun.uri 2) (Diagnostics.trace w').
Proof.
  split; [vm_compute; reflexivity|].
  intros (i & j & Hi & Hj & Hlt).
  change (Diagnostics.trace
            (SampleRun.handler SampleRun.uri (Some "run-1") SampleRun.edited).2)
    with [Diagnostics.SetData SampleRun.uri 0; Diagnostics.SetData SampleRun.uri 1;
          Diagnostics.CreateSubTask 0 1; Diagnostics.SetData SampleRun.uri 2;
          Diagnostics.CallSoonThreadsafeCancel 0; Diagnostics.CreateSubTask 1 2] in Hi, Hj.
  repeat first [discriminate Hi | destruct i as [|i]; simpl in Hi].
  repeat first [discriminate Hj | lia | destruct j as [|j]; simpl in Hj].
Qed.

Example rerun_supersedes_active_run_sample :
  let w' := snd (SampleRun.handler SampleRun.uri (Some "run-1") SampleRun.edited) in
  Diagnostics.trace w'
  = Diagnostics.trace SampleRun.edited
    ++ [Diagnostics.SetData SampleRun.uri 2; Diagnostics.CallSoonThreadsafeCancel 0;
        Diagnostics.CreateSubTask 1 2]
  /\ forall results,
       Diagnostics.heap
         (Diagnostics._get_diagnostics_for_document SampleRun.uuid4 0 results w') !! 2%nat
       = Diagnostics.heap w' !! 2%nat.
Proof.
  destruct (rerun_supersedes_active_run SampleRun.uuid4 SampleRun.SERVER_CANCELLED 0
              SampleRun.edited SampleRun.uri SampleRun.edited_document
              1 (Diagnostics.mkData "run-1" [] (Some 1) (Some 0%nat) false) 0
              (Diagnostics.mkTask 1 false false)
              (Some "run-1") ltac:(vm_compute; reflexivity) ltac:(vm_compute; reflexivity)
              ltac:(vm_compute; reflexivity) ltac:(vm_compute; reflexivity) eq_refl
              ltac:(vm_compute; reflexivity) eq_refl eq_refl)
    as (t' & Htrace & _ & _ & _ & Hrun).
  split; [|exact Hrun].
  vm_compute. reflexivity.
Defined.

(** * Part III: further properties *)

(** ** The order on positions *)

Lemma Position_le_spec (p q : Position) :
  Position_le p q = true <->
  line p < line q \/ (line p = line q /\ character p <= character q).
Proof.
  unfold Position_le.
  destruct (Z.ltb_spec (line p) (line q)), (Z.eqb_spec (line p) (line q)),
    (Z.leb_spec (character p) (character q)); simpl; split; intros; try lia; try discriminate.
Qed.

Lemma Position_lt_spec (p q : Position) :
  Position_lt p q = true <->
  line p < line q \/ (line p = line q /\ character p < character q).
Proof.
  unfold Position_lt.
  destruct (Z.ltb_spec (line p) (line q)), (Z.eqb_spec (line p) (line q)),
    (Z.ltb_spec (character p) (character q)); simpl; split; intros; try lia; try discriminate.
Qed.

Lemma Position_eq_spec (p q : Position) : Position_eq p q = true <-> p = q.
Proof.
  unfold Position_eq. destruct p as [l c], q as [l' c']; simpl.
  rewrite andb_true_iff, !Z.eqb_eq. split; [intros [-> ->]; reflexivity|intros [= -> ->]; auto].
Qed.

(** X1: the four comparison methods of [Position] describe one order, the
    lexicographic one on (line, character), and any two positions are
    comparable. *)
Theorem Position_comparisons_agree (p q : Position) :
  Position_gt p q = Position_lt q p
  /\ Position_ge p q = Position_le q p
  /\ Position_lt p q = negb (Position_ge p q)
  /\ Position_ge p q = Position_gt p q || Position_eq p q
  /\ Position_le p q || Position_le q p = true.
Proof.
  unfold Position_gt, Position_lt, Position_ge, Position_le, Position_eq.
  repeat split.
  all: destruct (Z.ltb_spec (line p) (line q)), (Z.gtb_spec (line p) (line q)),
    (Z.eqb_spec (line p) (line q)); try lia.
  all: destruct (Z.ltb_spec (line q) (line p)), (Z.gtb_spec (line q) (line p)),
    (Z.eqb_spec (line q) (line p)); try lia.
  all: destruct (Z.leb_spec (character p) (character q)),
    (Z.geb_spec (character p) (character q)),
    (Z.ltb_spec (character p) (character q)),
    (Z.gtb_spec (character p) (character q)),
    (Z.eqb_spec (character p) (character q)); try lia.
  all: destruct (Z.leb_spec (character q) (character p)),
    (Z.geb_spec (character q) (character p)),
    (Z.ltb_spec (character q) (character p)),
    (Z.gtb_spec (character q) (character p)); try lia; reflexivity.
Qed.

(** X2: [Position.__le__] is transitive and antisymmetric: from p <= q and
    q <= r follows p <= r, and if moreover p == r the three positions are
    the same. *)
Theorem Position_le_order (p q r : Position) :
  Position_le p q = true -> Position_le q r = true ->
  Position_le p r = true /\ (Position_eq p r = true -> p = q /\ q = r).
Proof.
  rewrite !Position_le_spec, Position_eq_spec. intros Hpq Hqr. split; [lia|].
  intros ->. destruct q as [l c], r as [l' c']; simpl in *.
  assert (l = l' /\ c = c') as [-> ->] by lia. auto.
Qed.

Lemma Position_le_order_example :
  Position_le (mkPosition 1 7) (mkPosition 2 0) = true
  /\ Position_le (mkPosition 2 0) (mkPosition 2 3) = true
  /\ Position_le (mkPosition 1 7) (mkPosition 2 3) = true.
Proof.
  split; [reflexivity|]. split; [reflexivity|].
  exact (proj1 (Position_le_order (mkPosition 1 7) (mkPosition 2 0) (mkPosition 2 3)
                  eq_refl eq_refl)).
Defined.

(** X3: [is_in_range] is the half-open interval: a range that contains any
    position is not empty, contains its start and does not contain its
    end. *)
Theorem Position_is_in_range_half_open (p : Position) (r : Range) :
  Position_is_in_range p r = true ->
  Position_lt (start r) (end_ r) = true
  /\ Position_ne p (end_ r) = true
  /\ Position_is_in_range (start r) r = true
  /\ Position_is_in_range (end_ r) r = false.
Proof.
  unfold Position_is_in_range, Position_ne. rewrite andb_true_iff.
  rewrite Position_le_spec, Position_lt_spec. intros [H1 H2].
  assert (Hlt : Position_lt (start r) (end_ r) = true) by (apply Position_lt_spec; lia).
  repeat split.
  - exact Hlt.
  - apply negb_true_iff. apply not_true_is_false. rewrite Position_eq_spec. intros ->. lia.
  - rewrite Hlt, andb_true_r. apply Position_le_spec. lia.
  - apply andb_false_iff. right. apply not_true_is_false. rewrite Position_lt_spec. lia.
Qed.

Lemma Position_is_in_range_example :
  Position_is_in_range (mkPosition 1 2) (mkRange (mkPosition 1 0) (mkPosition 1 5)) = true
  /\ Position_is_in_range (mkPosition 1 5) (mkRange (mkPosition 1 0) (mkPosition 1 5)) = false.
Proof.
  split; [reflexivity|].
  exact (proj2 (proj2 (proj2 (Position_is_in_range_half_open (mkPosition 1 2)
            (mkRange (mkPosition 1 0) (mkPosition 1 5)) eq_refl)))).
Defined.

Section TextDocumentOperations.
Import TextDocument.
Context {Any : Type}.
Implicit Types (doc : TextDocument.t Any).

Lemma set_lock_idle doc : _lock doc = false -> set_lock false (set_lock true doc) = doc.
Proof. destruct doc; simpl; intros ->; reflexivity. Qed.

Lemma with_lock_free {R} doc (body : TextDocument.t Any -> R * TextDocument.t Any) :
  _lock doc = false ->
  with_lock doc body
  = Some (fst (body (set_lock true doc)), set_lock false (snd (body (set_lock true doc)))).
Proof. unfold with_lock. intros ->. now destruct (body _). Qed.

Lemma quiescent_init (text : pystr) (version : option Z) :
  quiescent (TextDocument.__init__ (Any:=Any) text version).
Proof.
  split; [reflexivity|]. split; [|now left].
  intros reference e. simpl. now rewrite lookup_empty.
Qed.

Lemma quiescent_no_cache doc' :
  _lock doc' = false -> _cache doc' = ∅ -> lines_consistent doc' -> quiescent doc'.
Proof.
  intros Hl Hc Hn. split; [exact Hl|]. split; [|exact Hn].
  intros reference e. now rewrite Hc, lookup_empty.
Qed.

Lemma after_quiescent (op : operation Any) doc :
  quiescent doc -> exists doc', after op doc = Some doc' /\ quiescent doc'.
Proof.
  intros (Hl & Hs & Hc).
  destruct op as [|version text|version range text|version text|version| | | | | |reference
                 |reference entry|key data]; cbn [after].
  - unfold apply_none_change. rewrite (with_lock_free doc _ Hl). eexists. split; [reflexivity|].
    apply quiescent_no_cache; [reflexivity|reflexivity|now left].
  - unfold apply_full_change. rewrite (with_lock_free doc _ Hl). eexists. split; [reflexivity|].
    apply quiescent_no_cache; [reflexivity|reflexivity|].
    destruct text, version; simpl; try (now left); exact Hc.
  - unfold apply_incremental_change. rewrite (with_lock_free doc _ Hl).
    eexists. split; [reflexivity|].
    destruct (apply_incremental_change_try _ _ _ _) as [o d]. simpl.
    apply quiescent_no_cache; [reflexivity|reflexivity|now left].
  - unfold save, apply_full_change. rewrite (with_lock_free doc _ Hl).
    eexists. split; [reflexivity|].
    apply quiescent_no_cache; [reflexivity|reflexivity|].
    destruct text, version; simpl; try (now left); exact Hc.
  - unfold revert.
    destruct (negb (bool_decide (_orig_text doc = _text doc))
              || negb (bool_decide (_orig_version doc = _version doc))).
    + unfold apply_full_change. rewrite (with_lock_free doc _ Hl).
      eexists. split; [reflexivity|].
      apply quiescent_no_cache; [reflexivity|reflexivity|]. simpl.
      destruct (version_or _ _); now left.
    + eexists. split; [reflexivity|]. now split.
  - unfold text. rewrite (with_lock_free doc _ Hl). simpl.
    eexists. split; [reflexivity|].
    rewrite set_lock_idle; [now split|exact Hl].
  - unfold get_lines. rewrite (with_lock_free doc _ Hl).
    eexists. split; [reflexivity|]. unfold __get_lines. simpl.
    destruct (_lines doc) eqn:E; simpl.
    + split; [reflexivity|]. split; [exact Hs|]. destruct Hc as [Hc|Hc]; [congruence|].
      right. simpl. now rewrite E in *.
    + split; [reflexivity|]. split; [exact Hs|]. now right.
  - unfold invalidate_cache. rewrite (with_lock_free doc _ Hl).
    eexists. split; [reflexivity|].
    apply quiescent_no_cache; [reflexivity|reflexivity|exact Hc].
  - unfold invalidate_data. rewrite (with_lock_free doc _ Hl).
    eexists. split; [reflexivity|]. split; [reflexivity|]. split; [exact Hs|exact Hc].
  - unfold clear. rewrite (with_lock_free doc _ Hl).
    eexists. split; [reflexivity|].
    apply quiescent_no_cache; [reflexivity|reflexivity|now left].
  - unfold remove_cache_entry, __remove_cache_entry_safe.
    destruct (bool_decide (is_Some (_cache doc !! reference))).
    + rewrite (with_lock_free doc _ Hl). simpl.
      destruct (bool_decide (is_Some (_cache doc !! reference))); simpl.
      * eexists. split; [reflexivity|]. split; [reflexivity|]. split; [|exact Hc].
        simpl. intros r e He. apply lookup_delete_Some in He as [_ He]. eauto.
      * eexists. split; [reflexivity|].
        rewrite set_lock_idle; [now split|exact Hl].
    + eexists. split; [reflexivity|]. now split.
  - destruct (_cache doc !! reference) as [[[v|] held]|] eqn:E.
    + rewrite (get_cache_hit _ _ _ _ v held E). eexists. split; [reflexivity|]. now split.
    + assert (held = false) as -> by exact (Hs _ _ E).
      rewrite get_cache_miss by (now right). eexists. split; [reflexivity|].
      split; [exact Hl|]. split; [|exact Hc]. simpl. intros r e He.
      apply lookup_insert_Some in He as [[_ <-]|[_ He]]; [reflexivity|eauto].
    + rewrite get_cache_miss by (now left). eexists. split; [reflexivity|].
      split; [exact Hl|]. split; [|exact Hc]. simpl. intros r e He.
      apply lookup_insert_Some in He as [[_ <-]|[_ He]]; [reflexivity|eauto].
  - eexists. split; [reflexivity|]. split; [exact Hl|]. split; [exact Hs|exact Hc].
Qed.

(** X4: whatever calls are made on a document in which no call is in
    progress, in any order, every one of them completes, and afterwards
    [get_lines] returns the split of the current text: the line index is
    never stale and no lock is left held. *)
Theorem lines_never_stale (ops : list (operation Any)) doc :
  quiescent doc ->
  exists doc',
    after_all ops doc = Some doc' /\ quiescent doc'
    /\ exists doc'', get_lines doc' = Some (splitlines_keepends (_text doc'), doc'')
                     /\ _text doc'' = _text doc'.
Proof.
  revert doc. induction ops as [|op ops IH]; intros doc Hq.
  - exists doc. split; [reflexivity|]. split; [exact Hq|].
    destruct Hq as (Hl & _ & Hc). unfold get_lines. rewrite (with_lock_free doc _ Hl).
    unfold __get_lines. simpl. destruct Hc as [E|E]; rewrite E; eexists; split; reflexivity.
  - destruct (after_quiescent op doc Hq) as (d & Hd & Hqd).
    destruct (IH d Hqd) as (doc' & H1 & H2). exists doc'. simpl. rewrite Hd. auto.
Qed.

End TextDocumentOperations.

Lemma lines_never_stale_example :
  exists doc',
    TextDocument.after_all
      [TextDocument.GetLines;
       TextDocument.ApplyIncrementalChange (Some 2)
         (mkRange (mkPosition 1 0) (mkPosition 1 0)) (u "X");
       TextDocument.GetCache 7 (fun _ => Some tt);
       TextDocument.Revert None]
      (TextDocument.__init__ (Any:=unit) [97; 10; 98]%N (Some 1)) = Some doc'
    /\ TextDocument.quiescent doc'.
Proof.
  destruct (lines_never_stale (Any:=unit)
    [TextDocument.GetLines;
       TextDocument.ApplyIncrementalChange (Some 2)
         (mkRange (mkPosition 1 0) (mkPosition 1 0)) (u "X");
       TextDocument.GetCache 7 (fun _ => Some tt);
       TextDocument.Revert None]
    (TextDocument.__init__ [97; 10; 98]%N (Some 1)) (quiescent_init _ _))
    as (doc' & H1 & H2 & _).
  exists doc'. split; assumption.
Defined.

Section TextDocumentEdits.
Import TextDocument.
Context {Any : Type}.
Implicit Types (doc : TextDocument.t Any).

(** A valid incremental change is a full change to the text its loop
    wrote. *)
Lemma apply_incremental_change_as_full doc version (r : Range) (text : pystr) :
  _lock doc = false -> lines_consistent doc ->
  Position_le (start r) (end_ r) = true ->
  apply_incremental_change version r text doc
  = (fun x => (Ok tt, snd x)) <$>
    apply_full_change version
      (Some (if line (start r) =? Z.of_nat (length (splitlines_keepends (_text doc)))
             then _text doc ++ text
             else concat (imap (fun j l => written_for r text (Z.of_nat j) l)
                            (splitlines_keepends (_text doc)))))
      false doc.
Proof.
  intros Hl Hc Hle. rewrite Position_le_not_gt in Hle. apply negb_true_iff in Hle.
  unfold apply_incremental_change, apply_full_change, with_lock,
    apply_incremental_change_try. rewrite Hl.
  destruct doc as [lk v t ot ov ls c dt oe]. unfold lines_consistent in Hc.
  simpl in *. subst lk.
  destruct version as [v'|]; simpl; rewrite Hle; unfold __get_lines; simpl.
  all: destruct Hc as [->| ->]; simpl.
  all: destruct (line (start r) =? _); simpl; try reflexivity.
  all: pose proof (write_lines_written r text (splitlines_keepends t) 0 []) as E;
    change (Z.of_nat 0) with 0 in E; simpl in E; rewrite E; reflexivity.
Qed.

(** X5: an edit that replaces nothing by nothing, at any position, leaves
    the text as it is. *)
Theorem empty_edit_keeps_text doc version (p : Position) :
  _lock doc = false -> lines_consistent doc ->
  exists doc',
    apply_incremental_change version (mkRange p p) [] doc = Some (Ok tt, doc')
    /\ _text doc' = _text doc.
Proof.
  intros Hl Hc.
  assert (Hle : Position_le (start (mkRange p p)) (end_ (mkRange p p)) = true).
  { simpl. unfold Position_le. rewrite Z.ltb_irrefl, Z.eqb_refl. apply Z.leb_refl. }
  rewrite (apply_incremental_change_as_full _ _ _ _ Hl Hc Hle).
  unfold apply_full_change, with_lock. rewrite Hl. simpl.
  eexists. split; [reflexivity|].
  assert (E : concat (imap (fun j l => written_for (mkRange p p) [] (Z.of_nat j) l)
                        (splitlines_keepends (_text doc)))
              = concat (splitlines_keepends (_text doc))).
  { f_equal. transitivity (imap (const (@id pystr)) (splitlines_keepends (_text doc)));
      [|rewrite imap_const; apply list_fmap_id].
    apply imap_ext. intros j l _. unfold const, id.
    unfold written_for. simpl.
    destruct ((Z.of_nat j <? line p) || (Z.of_nat j >? line p)) eqn:E; [reflexivity|].
    apply orb_false_iff in E as [E1 E2].
    assert (Z.of_nat j = line p) as -> by lia. rewrite Z.eqb_refl.
    rewrite app_nil_r. unfold slice_to, slice_from. apply take_drop. }
  destruct version; simpl; destruct (line p =? _); simpl;
    rewrite ?app_nil_r, ?E, ?concat_splitlines_keepends; reflexivity.
Qed.

(** X6: an edit from position (0, 0) to a line at or past the end of the
    buffer is a full change: the document it leaves is the one
    [apply_full_change] leaves for the same version and text. *)
Theorem whole_buffer_edit_is_full_change doc version (r : Range) (text : pystr) :
  _lock doc = false -> lines_consistent doc ->
  start r = mkPosition 0 0 ->
  Z.of_nat (length (splitlines_keepends (_text doc))) <= line (end_ r) ->
  Position_le (start r) (end_ r) = true ->
  apply_incremental_change version r text doc
  = (fun x => (Ok tt, snd x)) <$> apply_full_change version (Some text) false doc.
Proof.
  intros Hl Hc Hs He Hle.
  rewrite (apply_incremental_change_as_full _ _ _ _ Hl Hc Hle).
  do 3 f_equal. rewrite Hs. cbn [line].
  destruct (splitlines_keepends (_text doc)) as [|l0 lines] eqn:E.
  - simpl. rewrite <- (concat_splitlines_keepends (_text doc)), E. reflexivity.
  - cbn [length] in *.
    destruct (Z.eqb_spec 0 (Z.of_nat (S (length lines)))) as [H0|_]; [lia|].
    rewrite (written_spliced r text 0 (Z.to_nat (line (end_ r))));
      [|now rewrite Hs|lia|lia|simpl; lia].
    unfold spliced. rewrite Hs. cbn [line character]. change (Z.to_nat 0) with 0%nat.
    rewrite (lookup_ge_None_2 (l0 :: lines) (Z.to_nat (line (end_ r)))) by (cbn [length]; lia).
    rewrite (drop_ge (l0 :: lines) (S (Z.to_nat (line (end_ r))))) by (cbn [length]; lia).
    cbn. unfold slice_from. rewrite drop_nil. now rewrite !app_nil_r.
Qed.

(** X7: an edit that starts on a line past the end of the buffer (beyond the
    line that appends) changes nothing: the new text is dropped. *)
Theorem edit_past_the_end_is_dropped doc version (r : Range) (text : pystr) :
  _lock doc = false -> lines_consistent doc ->
  Position_le (start r) (end_ r) = true ->
  Z.of_nat (length (splitlines_keepends (_text doc))) < line (start r) ->
  exists doc',
    apply_incremental_change version r text doc = Some (Ok tt, doc')
    /\ _text doc' = _text doc.
Proof.
  intros Hl Hc Hle Hlen.
  rewrite (apply_incremental_change_as_full _ _ _ _ Hl Hc Hle).
  unfold apply_full_change, with_lock. rewrite Hl. simpl.
  eexists. split; [reflexivity|].
  destruct (Z.eqb_spec (line (start r)) (Z.of_nat (length (splitlines_keepends (_text doc)))));
    [lia|].
  assert (Hend : line (start r) <= line (end_ r)).
  { apply Position_le_spec in Hle. lia. }
  pose proof (written_before r text (Z.to_nat (line (start r))) (Z.to_nat (line (end_ r)))
                ltac:(lia) ltac:(lia) (splitlines_keepends (_text doc)) 0 ltac:(lia)) as E.
  simpl in E.
  destruct version; simpl; rewrite E, concat_splitlines_keepends; reflexivity.
Qed.

End TextDocumentEdits.

Lemma empty_edit_keeps_text_example :
  exists doc',
    TextDocument.apply_incremental_change (Any:=unit) (Some 2)
      (mkRange (mkPosition 0 1) (mkPosition 0 1)) []
      (TextDocument.__init__ [97; 10; 98]%N (Some 1)) = Some (Ok tt, doc')
    /\ TextDocument._text doc' = [97; 10; 98]%N.
Proof.
  exact (empty_edit_keeps_text (Any:=unit) (TextDocument.__init__ [97; 10; 98]%N (Some 1))
           (Some 2) (mkPosition 0 1) eq_refl (or_introl eq_refl)).
Defined.

Lemma whole_buffer_edit_example :
  exists doc',
    TextDocument.apply_incremental_change (Any:=unit) (Some 2)
      (mkRange (mkPosition 0 0) (mkPosition 2 0)) (u "xyz")
      (TextDocument.__init__ [97; 10; 98]%N (Some 1)) = Some (Ok tt, doc')
    /\ TextDocument._text doc' = u "xyz".
Proof.
  rewrite (whole_buffer_edit_is_full_change (Any:=unit)
             (TextDocument.__init__ [97; 10; 98]%N (Some 1)) (Some 2)
             (mkRange (mkPosition 0 0) (mkPosition 2 0)) (u "xyz")
             eq_refl (or_introl eq_refl) eq_refl ltac:(vm_compute; discriminate) eq_refl).
  eexists. split; reflexivity.
Defined.

Lemma edit_past_the_end_example :
  exists doc',
    TextDocument.apply_incremental_change (Any:=unit) (Some 2)
      (mkRange (mkPosition 5 0) (mkPosition 5 0)) (u "xyz")
      (TextDocument.__init__ [97; 10; 98]%N (Some 1)) = Some (Ok tt, doc')
    /\ TextDocument._text doc' = [97; 10; 98]%N.
Proof.
  exact (edit_past_the_end_is_dropped (Any:=unit)
           (TextDocument.__init__ [97; 10; 98]%N (Some 1)) (Some 2)
           (mkRange (mkPosition 5 0) (mkPosition 5 0)) (u "xyz")
           eq_refl (or_introl eq_refl) eq_refl ltac:(vm_compute; reflexivity)).
Defined.

Section TextDocumentCache.
Import TextDocument.
Context {Any : Type}.
Implicit Types (doc : TextDocument.t Any).

(** X8: every call that reports a change of the text (none, full,
    incremental, valid or not, and save) empties the memoization cache and
    leaves the data that consumers attached in place: the next [get_cache]
    runs its computation again, whatever was memoized before. *)
Theorem synchronizing_call_drops_memoized (op : operation Any) doc :
  _lock doc = false -> synchronizes op = true ->
  exists doc',
    after op doc = Some doc'
    /\ _lock doc' = false /\ _cache doc' = ∅ /\ _data doc' = _data doc
    /\ forall W reference (entry : TextDocument.t Any -> W -> option Any * W) w,
         get_cache reference entry doc' w
         = Some (fst (entry (computing reference doc') w),
                 computed reference (fst (entry (computing reference doc') w)) doc',
                 snd (entry (computing reference doc') w)).
Proof.
  intros Hl Hop.
  assert (Hget : forall doc', _lock doc' = false -> _cache doc' = ∅ ->
            forall W reference (entry : TextDocument.t Any -> W -> option Any * W) w,
              get_cache reference entry doc' w
              = Some (fst (entry (computing reference doc') w),
                      computed reference (fst (entry (computing reference doc') w)) doc',
                      snd (entry (computing reference doc') w))).
  { intros doc' Hl' Hc' W reference entry w. apply get_cache_miss. left.
    now rewrite Hc', lookup_empty. }
  destruct op as [|version text|version range text|version text|version| | | | | |reference
                 |reference entry|key data]; try discriminate Hop; cbn [after].
  - unfold apply_none_change. rewrite (with_lock_free doc _ Hl).
    eexists. split; [reflexivity|]. repeat split. now apply Hget.
  - unfold apply_full_change. rewrite (with_lock_free doc _ Hl).
    eexists. split; [reflexivity|].
    assert (Hd : forall d : TextDocument.t Any,
              _data (match text with Some s => set_lines None (set_text s d) | None => d end)
              = _data d) by (now destruct text).
    repeat split; [|now apply Hget]. simpl. rewrite Hd. now destruct version.
  - unfold apply_incremental_change. rewrite (with_lock_free doc _ Hl).
    eexists. split; [reflexivity|].
    assert (Hd : _data (snd (apply_incremental_change_try version range text
                               (set_lock true doc))) = _data doc).
    { unfold apply_incremental_change_try.
      assert (Hv : _data (match version with
                          | Some v => set_version (Some v) (set_lock true doc)
                          | None => set_lock true doc end) = _data doc)
        by (now destruct version).
      destruct (Position_gt _ _); [exact Hv|].
      unfold __get_lines.
      destruct (_lines _); simpl; destruct (_ =? _); simpl; exact Hv. }
    destruct (apply_incremental_change_try _ _ _ _) as [o d]. simpl in *.
    repeat split; [exact Hd|now apply Hget].
  - unfold save, apply_full_change. rewrite (with_lock_free doc _ Hl).
    eexists. split; [reflexivity|].
    assert (Hd : forall d : TextDocument.t Any,
              _data (match text with Some s => set_lines None (set_text s d) | None => d end)
              = _data d) by (now destruct text).
    repeat split; [|now apply Hget]. simpl. rewrite Hd. now destruct version.
Qed.

(** X9: [remove_cache_entry] takes away the slot of its consumer and no
    other: afterwards [get_cache] runs that consumer's computation again,
    while a value memoized for another consumer is still returned without
    running anything.  For a consumer without a slot it returns at once, even
    while the document lock is held. *)
Theorem remove_cache_entry_only_its_slot doc (reference other : nat) (v : Any) (held : bool) :
  _lock doc = false -> other <> reference ->
  _cache doc !! other = Some (mkCacheEntry (Some v) held) ->
  exists doc',
    remove_cache_entry reference doc = Some (tt, doc')
    /\ _cache doc' = delete reference (_cache doc)
    /\ (forall W (entry : TextDocument.t Any -> W -> option Any * W) w,
          get_cache other entry doc' w = Some (Some v, doc', w)
          /\ get_cache reference entry doc' w
             = Some (fst (entry (computing reference doc') w),
                     computed reference (fst (entry (computing reference doc') w)) doc',
                     snd (entry (computing reference doc') w)))
    /\ forall busy : TextDocument.t Any, _lock busy = true -> _cache busy !! reference = None ->
         remove_cache_entry reference busy = Some (tt, busy).
Proof.
  intros Hl Hne Ho.
  assert (Hbusy : forall busy : TextDocument.t Any,
            _lock busy = true -> _cache busy !! reference = None ->
            remove_cache_entry reference busy = Some (tt, busy)).
  { intros busy _ Hb. unfold remove_cache_entry, __remove_cache_entry_safe.
    rewrite Hb. now rewrite bool_decide_eq_false_2 by (intros [x Hx]; discriminate). }
  unfold remove_cache_entry, __remove_cache_entry_safe.
  destruct (_cache doc !! reference) as [e|] eqn:E.
  - rewrite bool_decide_eq_true_2 by eauto.
    rewrite (with_lock_free doc _ Hl). simpl. rewrite E.
    rewrite bool_decide_eq_true_2 by eauto. simpl.
    eexists. split; [reflexivity|]. split; [reflexivity|]. split; [|exact Hbusy].
    intros W entry w. split.
    + apply (get_cache_hit _ _ _ _ v held). simpl. now rewrite lookup_delete_ne.
    + apply get_cache_miss. left. simpl. now rewrite lookup_delete_eq.
  - rewrite bool_decide_eq_false_2 by (intros [x Hx]; discriminate).
    exists doc. split; [reflexivity|]. split; [now rewrite delete_id|].
    split; [|exact Hbusy]. intros W entry w. split.
    + now apply (get_cache_hit _ _ _ _ v held).
    + apply get_cache_miss. left. auto.
Qed.

(** X10: on a changed document that was opened with a version, [revert(None)]
    puts back the opening text and version and empties the cache, and a
    second [revert] then finds nothing to do. *)
Theorem revert_restores_opening_state doc (ov : Z) :
  _lock doc = false -> _orig_version doc = Some ov ->
  _text doc <> _orig_text doc \/ _version doc <> Some ov ->
  exists doc',
    revert None doc = Some (true, doc')
    /\ _text doc' = _orig_text doc /\ _version doc' = Some ov
    /\ _lines doc' = None /\ _cache doc' = ∅ /\ _data doc' = _data doc
    /\ forall version, revert version doc' = Some (false, doc').
Proof.
  intros Hl Hov Hch. unfold revert at 1.
  assert (Hc : negb (bool_decide (_orig_text doc = _text doc))
               || negb (bool_decide (_orig_version doc = _version doc)) = true).
  { apply orb_true_iff. rewrite !negb_true_iff, !bool_decide_eq_false, Hov.
    destruct Hch; [left|right]; congruence. }
  rewrite Hc. unfold apply_full_change. rewrite (with_lock_free doc _ Hl).
  simpl. rewrite Hov. simpl.
  eexists. split; [reflexivity|]. repeat split.
  intros version. unfold revert. simpl. rewrite Hov.
  now rewrite !bool_decide_eq_true_2 by reflexivity.
Qed.

(** X11: a document opened without a version that has since been given one
    cannot be reverted for good: [revert(None)] restores the text but has no
    version to put back, so every later [revert] reports a change again. *)
Theorem revert_without_opening_version doc (v : Z) :
  _lock doc = false -> _orig_version doc = None -> _version doc = Some v ->
  exists doc',
    revert None doc = Some (true, doc')
    /\ _text doc' = _orig_text doc /\ _version doc' = Some v
    /\ revert None doc' = Some (true, doc').
Proof.
  intros Hl Hov Hv.
  assert (Hrev : forall d : TextDocument.t Any,
            _lock d = false -> _orig_version d = None -> _version d = Some v ->
            revert None d
            = Some (true, set_lock false (_invalidate_cache (set_lines None
                            (set_text (_orig_text d) (set_lock true d)))))).
  { intros d Hld Hod Hvd. unfold revert. rewrite Hod, Hvd.
    rewrite (bool_decide_eq_false_2 (None = Some v)) by discriminate.
    rewrite orb_true_r. unfold apply_full_change. rewrite (with_lock_free d _ Hld).
    reflexivity. }
  rewrite (Hrev doc Hl Hov Hv). eexists. split; [reflexivity|].
  split; [reflexivity|]. split; [exact Hv|].
  rewrite Hrev by first [reflexivity|simpl; assumption]. reflexivity.
Qed.

(** X12: [save] makes the current text the one [revert] goes back to but
    leaves the opening version alone: after a save, [revert] keeps the saved
    text, and reports a change exactly when the version of the document is
    not the opening version. *)
Theorem save_then_revert doc version (s : pystr) :
  _lock doc = false ->
  exists saved,
    save version (Some s) doc = Some (tt, saved)
    /\ _text saved = s /\ _orig_text saved = s
    /\ _orig_version saved = _orig_version doc
    /\ exists reverted,
         revert None saved
         = Some (negb (bool_decide (_orig_version doc = _version saved)), reverted)
         /\ _text reverted = s.
Proof.
  intros Hl. unfold save, apply_full_change. rewrite (with_lock_free doc _ Hl).
  eexists. split; [reflexivity|].
  assert (Hv : forall d : TextDocument.t Any,
            _orig_version (match version with Some v => set_version (Some v) d | None => d end)
            = _orig_version d) by (now destruct version).
  repeat split.
  - simpl. now rewrite Hv.
  - unfold revert. simpl. rewrite Hv. simpl.
    rewrite (bool_decide_eq_true_2 (s = s)) by reflexivity. simpl.
    destruct (bool_decide _); simpl; eexists; split; reflexivity.
Qed.

End TextDocumentCache.

Lemma synchronizing_call_example :
  exists doc',
    TextDocument.after (Any:=unit) (TextDocument.Save (Some 2) (Some (u "xyz")))
      (TextDocument.set_cache {[ 7%nat := TextDocument.mkCacheEntry (Some tt) false ]}
         (TextDocument.__init__ (u "abc") (Some 1))) = Some doc'
    /\ TextDocument._cache doc' = ∅.
Proof.
  destruct (synchronizing_call_drops_memoized (Any:=unit)
              (TextDocument.Save (Some 2) (Some (u "xyz")))
              (TextDocument.set_cache {[ 7%nat := TextDocument.mkCacheEntry (Some tt) false ]}
                 (TextDocument.__init__ (u "abc") (Some 1)))
              eq_refl eq_refl) as (doc' & H1 & _ & H2 & _).
  exists doc'. split; assumption.
Defined.

Lemma remove_cache_entry_example :
  exists doc',
    TextDocument.remove_cache_entry (Any:=unit) 1
      (TextDocument.set_cache
         {[ 1%nat := TextDocument.mkCacheEntry (Some tt) false;
            2%nat := TextDocument.mkCacheEntry (Some tt) false ]}
         (TextDocument.__init__ (u "abc") (Some 1))) = Some (tt, doc')
    /\ TextDocument._cache doc' !! 1%nat = None
    /\ TextDocument._cache doc' !! 2%nat = Some (TextDocument.mkCacheEntry (Some tt) false).
Proof.
  destruct (remove_cache_entry_only_its_slot (Any:=unit)
              (TextDocument.set_cache
                 {[ 1%nat := TextDocument.mkCacheEntry (Some tt) false;
                    2%nat := TextDocument.mkCacheEntry (Some tt) false ]}
                 (TextDocument.__init__ (u "abc") (Some 1)))
              1 2 tt false eq_refl ltac:(discriminate) ltac:(vm_compute; reflexivity))
    as (doc' & H1 & H2 & _).
  exists doc'. split; [exact H1|]. rewrite H2. split; vm_compute; reflexivity.
Defined.

Lemma revert_restores_example :
  exists doc',
    TextDocument.revert (Any:=unit) None
      (TextDocument.set_text (u "xyz")
         (TextDocument.set_version (Some 2) (TextDocument.__init__ (u "abc") (Some 1))))
    = Some (true, doc')
    /\ TextDocument._text doc' = u "abc" /\ TextDocument._version doc' = Some 1.
Proof.
  destruct (revert_restores_opening_state (Any:=unit)
              (TextDocument.set_text (u "xyz")
                 (TextDocument.set_version (Some 2) (TextDocument.__init__ (u "abc") (Some 1))))
              1 eq_refl eq_refl ltac:(left; discriminate))
    as (doc' & H1 & H2 & H3 & _).
  exists doc'. split; [exact H1|]. split; assumption.
Defined.

Lemma revert_without_opening_version_example :
  exists doc',
    TextDocument.revert (Any:=unit) None
      (TextDocument.set_version (Some 3) (TextDocument.__init__ (u "abc") None))
    = Some (true, doc')
    /\ TextDocument.revert None doc' = Some (true, doc').
Proof.
  destruct (revert_without_opening_version (Any:=unit)
              (TextDocument.set_version (Some 3) (TextDocument.__init__ (u "abc") None))
              3 eq_refl eq_refl eq_refl) as (doc' & H1 & _ & _ & H2).
  exists doc'. split; assumption.
Defined.

Lemma save_then_revert_example :
  exists saved reverted,
    TextDocument.save (Any:=unit) (Some 2) (Some (u "xyz"))
      (TextDocument.__init__ (u "abc") (Some 1)) = Some (tt, saved)
    /\ TextDocument.revert None saved = Some (true, reverted)
    /\ TextDocument._text reverted = u "xyz".
Proof.
  destruct (save_then_revert (Any:=unit) (TextDocument.__init__ (u "abc") (Some 1))
              (Some 2) (u "xyz") eq_refl)
    as (saved & H1 & H2 & _ & _ & reverted & H3 & H4).
  exists saved, reverted. split; [exact H1|]. split; [|exact H4].
  rewrite H3. do 2 f_equal.
  injection H1 as <-. reflexivity.
Defined.

(** ** The shape of the lines of a text *)

Lemma splitlines_from_line (l : pystr) : forall (cur rest : pystr) (final : bool),
  physical_line final l = true ->
  (final = true -> rest = []) ->
  (ends_with_cr l = true -> head rest <> Some LF) ->
  splitlines_from cur (l ++ rest) = (cur ++ l) :: splitlines_from [] rest.
Proof.
  induction l as [|c l IH]; intros cur rest final Hp Hf Hcr; [discriminate|].
  rewrite <- app_comm_cons, splitlines_from_cons. cbn [physical_line] in Hp.
  destruct (is_linebreak c) eqn:Hc.
  - destruct l as [|c' [|c'' l]]; cbn [is_terminator] in Hp; [| |discriminate].
    + rewrite app_nil_l. destruct (N.eqb_spec c CR) as [->|_]; [|reflexivity].
      destruct rest as [|c' rest]; [reflexivity|].
      destruct (N.eqb_spec c' LF) as [->|_]; [|reflexivity].
      exfalso. now apply Hcr.
    + apply andb_true_iff in Hp as [H1 H2]. rewrite H1. cbn [app]. now rewrite H2.
  - destruct l as [|c' l].
    + rewrite (Hf Hp). simpl. now destruct cur.
    + rewrite (IH (cur ++ [c]) rest final Hp Hf Hcr). now rewrite <- app_assoc.
Qed.

Lemma physical_line_nonempty (final : bool) (l : pystr) :
  physical_line final l = true -> exists c l', l = c :: l'.
Proof. destruct l as [|c l']; [discriminate|eauto]. Qed.

(** Joining well-formed lines and splitting again gives the lines back. *)
Lemma splitlines_concat (ls : list pystr) :
  well_split ls = true -> splitlines_keepends (concat ls) = ls.
Proof.
  unfold splitlines_keepends.
  induction ls as [|l ls IH]; intros Hw; [reflexivity|].
  cbn [well_split] in Hw. apply andb_true_iff in Hw as [Hw Hrest].
  apply andb_true_iff in Hw as [Hp Hcr]. apply negb_true_iff in Hcr.
  rewrite concat_cons.
  rewrite (splitlines_from_line l [] (concat ls) _ Hp).
  - rewrite app_nil_l. now rewrite IH.
  - destruct ls; [reflexivity|discriminate].
  - intros He. rewrite He in Hcr. cbn [andb] in Hcr.
    destruct ls as [|l1 ls]; [discriminate|].
    cbn [well_split] in Hrest. apply andb_true_iff in Hrest as [Hrest _].
    apply andb_true_iff in Hrest as [Hp1 _].
    destruct (physical_line_nonempty _ _ Hp1) as (c1 & l1' & ->).
    simpl in *. intros [= ->]. discriminate.
Qed.

Lemma physical_line_run (cur : pystr) :
  Forall (fun c => is_linebreak c = false) cur -> cur <> [] -> physical_line true cur = true.
Proof.
  induction 1 as [|c cur Hc Hcur IH]; intros Hne; [congruence|].
  cbn [physical_line]. rewrite Hc. destruct cur; [reflexivity|]. now apply IH.
Qed.

Lemma physical_line_closed (final : bool) (cur t : pystr) :
  Forall (fun c => is_linebreak c = false) cur -> is_terminator t = true ->
  physical_line final (cur ++ t) = true.
Proof.
  intros Hcur Ht. induction Hcur as [|c cur Hc Hcur IH].
  - destruct t as [|c [|c' [|c'' t]]]; try discriminate; simpl in *.
    + now rewrite Ht.
    + apply andb_true_iff in Ht as [H1 H2]. apply N.eqb_eq in H1 as ->.
      simpl. now rewrite H2.
  - rewrite <- app_comm_cons. cbn [physical_line]. rewrite Hc.
    destruct (cur ++ t) eqn:E; [|exact IH].
    apply app_eq_nil in E as [_ ->]. discriminate.
Qed.

Lemma starts_with_lf_splitlines_from (s : pystr) : forall cur : pystr,
  starts_with_lf (splitlines_from cur s)
  = match head (cur ++ s) with Some c => (c =? LF)%N | None => false end.
Proof.
  induction s as [|c s IH]; intros cur.
  - rewrite app_nil_r. now destruct cur.
  - rewrite splitlines_from_cons.
    assert (E : forall t rest, starts_with_lf ((cur ++ c :: t) :: rest)
                = match head (cur ++ c :: s) with Some c => (c =? LF)%N | None => false end)
      by (intros; now destruct cur).
    destruct (is_linebreak c).
    + destruct (c =? CR)%N; [|apply (E [])].
      destruct s as [|c' s]; [apply (E [])|].
      destruct (c' =? LF)%N; [apply (E [c'])|apply (E [])].
    + rewrite IH, <- app_assoc. reflexivity.
Qed.

Lemma ends_with_cr_snoc (cur : pystr) (c : N) : ends_with_cr (cur ++ [c]) = (c =? CR)%N.
Proof. unfold ends_with_cr. now rewrite last_snoc. Qed.

Lemma well_split_splitlines_from (n : nat) : forall (s cur : pystr),
  (length s <= n)%nat -> Forall (fun c => is_linebreak c = false) cur ->
  well_split (splitlines_from cur s) = true.
Proof.
  induction n as [|n IH]; intros s cur Hn Hcur.
  - destruct s; [|simpl in Hn; lia]. simpl. destruct cur as [|c cur]; [reflexivity|].
    cbn [well_split]. rewrite physical_line_run by (auto; discriminate).
    now rewrite andb_false_r.
  - destruct s as [|c s].
    + simpl. destruct cur as [|c cur]; [reflexivity|].
      cbn [well_split]. rewrite physical_line_run by (auto; discriminate).
      now rewrite andb_false_r.
    + rewrite splitlines_from_cons. simpl in Hn.
      destruct (is_linebreak c) eqn:Hc.
      * destruct (N.eqb_spec c CR) as [->|Hne].
        -- destruct s as [|c' s].
           ++ cbn [well_split splitlines_from].
              rewrite physical_line_closed by (auto; reflexivity).
              now rewrite andb_false_r.
           ++ simpl in Hn. destruct (N.eqb_spec c' LF) as [->|Hne'].
              ** cbn [well_split]. rewrite physical_line_closed by (auto; reflexivity).
                 replace (cur ++ [CR; LF]) with ((cur ++ [CR]) ++ [LF])
                   by (now rewrite <- app_assoc).
                 rewrite ends_with_cr_snoc.
                 rewrite (IH s []) by (auto; lia). reflexivity.
              ** cbn [well_split]. rewrite physical_line_closed by (auto; reflexivity).
                 rewrite starts_with_lf_splitlines_from, app_nil_l. cbn [head].
                 apply N.eqb_neq in Hne'. rewrite Hne', andb_false_r.
                 rewrite (IH (c' :: s) []) by (auto; simpl; lia). reflexivity.
        -- cbn [well_split].
           rewrite physical_line_closed by (auto; simpl; exact Hc).
           rewrite ends_with_cr_snoc. apply N.eqb_neq in Hne. rewrite Hne.
           rewrite (IH s []) by (auto; lia). reflexivity.
      * apply IH; [lia|]. apply Forall_app. split; [exact Hcur|]. now constructor.
Qed.

(** X13 (vocabulary [well_split]): the lines that [get_lines] returns are the
    one and only way to cut the text into physical lines: joined they are
    the text, every line is a run without line boundaries closed by one
    terminator (the last line may lack it), CR LF is never cut in two, and
    any list of lines with these properties is the list returned. *)
Theorem get_lines_well_split {Any : Type} (doc : TextDocument.t Any) :
  TextDocument._lock doc = false -> TextDocument.lines_consistent doc ->
  exists lines doc',
    TextDocument.get_lines doc = Some (lines, doc')
    /\ concat lines = TextDocument._text doc
    /\ well_split lines = true
    /\ forall lines', concat lines' = TextDocument._text doc -> well_split lines' = true ->
         lines' = lines.
Proof.
  intros Hl Hc. exists (splitlines_keepends (TextDocument._text doc)).
  unfold TextDocument.get_lines. rewrite (with_lock_free doc _ Hl).
  eexists. split.
  - f_equal. f_equal. unfold TextDocument.__get_lines. simpl.
    destruct Hc as [E|E]; rewrite E; reflexivity.
  - split; [apply concat_splitlines_keepends|]. split.
    + apply (well_split_splitlines_from (length (TextDocument._text doc))); [lia|constructor].
    + intros lines' <- Hw. symmetry. now apply splitlines_concat.
Qed.

Lemma get_lines_well_split_example :
  exists doc',
    TextDocument.get_lines (TextDocument.__init__ (Any:=unit) [97; 13; 10; 98; 13; 99]%N None)
    = Some ([[97; 13; 10]; [98; 13]; [99]]%N, doc').
Proof.
  destruct (get_lines_well_split (Any:=unit)
              (TextDocument.__init__ [97; 13; 10; 98; 13; 99]%N None) eq_refl
              (or_introl eq_refl)) as (lines & doc' & Hget & Hcat & Hw & Huniq).
  exists doc'. rewrite Hget. do 2 f_equal.
  symmetry. apply Huniq; reflexivity.
Defined.

(** ** Inserting and deleting within a line *)

Lemma physical_line_app (final : bool) (pre x : pystr) :
  Forall (fun c => is_linebreak c = false) pre -> x <> [] ->
  physical_line final (pre ++ x) = physical_line final x.
Proof.
  intros Hpre Hx. induction Hpre as [|c pre Hc Hpre IH]; [reflexivity|].
  rewrite <- app_comm_cons. cbn [physical_line]. rewrite Hc.
  destruct (pre ++ x) eqn:E; [|exact IH].
  apply app_eq_nil in E as [_ ->]. congruence.
Qed.

Lemma physical_line_open (final : bool) (pre : pystr) :
  Forall (fun c => is_linebreak c = false) pre -> pre <> [] ->
  physical_line final pre = final.
Proof.
  induction 1 as [|c pre Hc Hpre IH]; intros Hne; [congruence|].
  cbn [physical_line]. rewrite Hc. destruct pre; [reflexivity|]. now apply IH.
Qed.

Lemma ends_with_cr_app (pre x : pystr) : x <> [] -> ends_with_cr (pre ++ x) = ends_with_cr x.
Proof.
  intros Hx. unfold ends_with_cr.
  destruct (exists_last Hx) as (x' & c & ->). now rewrite app_assoc, !last_snoc.
Qed.

Lemma ends_with_cr_run (pre : pystr) :
  Forall (fun c => is_linebreak c = false) pre -> ends_with_cr pre = false.
Proof.
  intros Hpre. unfold ends_with_cr. destruct (last pre) as [c|] eqn:E; [|reflexivity].
  apply last_Some in E as (pre' & ->). apply Forall_app in Hpre as [_ Hc].
  rewrite Forall_singleton in Hc.
  destruct (N.eqb_spec c CR) as [->|]; [vm_compute in Hc; discriminate|reflexivity].
Qed.

Section Insertion.
Context (pre suf T : pystr).
Hypothesis Hpre : Forall (fun c => is_linebreak c = false) pre.
Hypothesis HT : Forall (fun c => is_linebreak c = false) T.

Lemma physical_line_insert (final : bool) :
  physical_line final (pre ++ suf) = true -> physical_line final (pre ++ T ++ suf) = true.
Proof.
  intros Hp. destruct suf as [|c s] eqn:E.
  - rewrite app_nil_r in *.
    assert (pre <> []) by (intros ->; discriminate).
    rewrite physical_line_open in Hp by assumption.
    rewrite physical_line_open; [exact Hp|now apply Forall_app|].
    intros H0. apply app_eq_nil in H0 as [H0 _]. contradiction.
  - rewrite physical_line_app in Hp by (auto; discriminate).
    rewrite app_assoc, physical_line_app; [exact Hp|now apply Forall_app|discriminate].
Qed.

Lemma ends_with_cr_insert : ends_with_cr (pre ++ T ++ suf) = ends_with_cr (pre ++ suf).
Proof.
  destruct suf as [|c s] eqn:E.
  - rewrite !app_nil_r. rewrite !ends_with_cr_run; [reflexivity|assumption|now apply Forall_app].
  - rewrite app_assoc, !ends_with_cr_app by discriminate. reflexivity.
Qed.

Lemma starts_with_lf_insert (rest : list pystr) :
  starts_with_lf ((pre ++ T ++ suf) :: rest) = true ->
  starts_with_lf ((pre ++ suf) :: rest) = true.
Proof.
  destruct pre as [|c p]; [|exact (fun H => H)].
  destruct HT as [|c t Hc _]; [exact (fun H => H)|].
  simpl. intros Hlf. apply N.eqb_eq in Hlf. subst c. discriminate.
Qed.

End Insertion.

Lemma well_split_cons (l : pystr) (ls : list pystr) :
  well_split (l :: ls)
  = physical_line (match ls with [] => true | _ => false end) l
    && negb (ends_with_cr l && starts_with_lf ls) && well_split ls.
Proof. reflexivity. Qed.

(** Replacing a line by one with text inserted before its terminator keeps
    the list of lines well formed. *)
Lemma well_split_insert (pre suf T : pystr) :
  Forall (fun c => is_linebreak c = false) pre ->
  Forall (fun c => is_linebreak c = false) T ->
  forall (lines : list pystr) (l : nat),
    lines !! l = Some (pre ++ suf) -> well_split lines = true ->
    well_split (<[l := pre ++ T ++ suf]> lines) = true.
Proof.
  intros Hpre HT lines. induction lines as [|l0 lines IH]; intros l Hl Hw; [discriminate|].
  cbn [well_split] in Hw. apply andb_true_iff in Hw as [Hw Hrest].
  apply andb_true_iff in Hw as [Hp Hcr].
  destruct l as [|l]; simpl in Hl.
  - injection Hl as ->.
    change (<[0%nat := pre ++ T ++ suf]> ((pre ++ suf) :: lines))
      with ((pre ++ T ++ suf) :: lines).
    rewrite well_split_cons, Hrest, andb_true_r.
    rewrite physical_line_insert by assumption.
    rewrite ends_with_cr_insert by assumption. exact Hcr.
  - change (<[S l := pre ++ T ++ suf]> (l0 :: lines))
      with (l0 :: <[l := pre ++ T ++ suf]> lines).
    rewrite well_split_cons, (IH l Hl Hrest), andb_true_r.
    assert (Hshape : match <[l := pre ++ T ++ suf]> lines with [] => true | _ => false end
                     = match lines with [] => true | _ => false end).
    { destruct lines; [reflexivity|]. now destruct l. }
    rewrite Hshape, Hp. cbn [andb].
    destruct (ends_with_cr l0); [|reflexivity]. cbn [andb] in *.
    apply negb_true_iff in Hcr. apply negb_true_iff.
    destruct l as [|l]; [|destruct lines as [|l1 lines]; [discriminate|exact Hcr]].
    destruct lines as [|l1 lines]; [discriminate|]. simpl in Hl. injection Hl as ->.
    change (<[0%nat := pre ++ T ++ suf]> ((pre ++ suf) :: lines))
      with ((pre ++ T ++ suf) :: lines).
    destruct (starts_with_lf ((pre ++ T ++ suf) :: lines)) eqn:E; [|reflexivity].
    apply starts_with_lf_insert in E; [congruence|assumption..].
Qed.

Section InsertThenDelete.
Import TextDocument.
Context {Any : Type}.
Implicit Types (doc : TextDocument.t Any).

(** X14: typing and undoing.  Text without line boundaries inserted at a
    column of an existing line that lies before the line's terminator, and
    then deleted again by the range it occupies, gives back the buffer. *)
Theorem insert_then_delete_restores doc (v1 v2 : option Z) (p : Position) (T : pystr)
    (L : pystr) :
  _lock doc = false -> lines_consistent doc ->
  0 <= line p -> 0 <= character p ->
  splitlines_keepends (_text doc) !! Z.to_nat (line p) = Some L ->
  (Z.to_nat (character p) <= length L)%nat ->
  Forall (fun c => is_linebreak c = false) (take (Z.to_nat (character p)) L) ->
  Forall (fun c => is_linebreak c = false) T ->
  exists inserted restored,
    apply_incremental_change v1 (mkRange p p) T doc = Some (Ok tt, inserted)
    /\ _text inserted
       = concat (<[Z.to_nat (line p) :=
                    take (Z.to_nat (character p)) L ++ T ++ drop (Z.to_nat (character p)) L]>
                   (splitlines_keepends (_text doc)))
    /\ apply_incremental_change v2
         (mkRange p (mkPosition (line p) (character p + Z.of_nat (length T)))) [] inserted
       = Some (Ok tt, restored)
    /\ _text restored = _text doc.
Proof.
  intros Hl Hc Hline Hchar HL Hlen Hpre HT.
  set (l := Z.to_nat (line p)) in *. set (c := Z.to_nat (character p)) in *.
  set (lines := splitlines_keepends (_text doc)) in *.
  set (L' := take c L ++ T ++ drop c L).
  assert (Hl_lt : (l < length lines)%nat) by (apply lookup_lt_is_Some; eauto).
  assert (Hsb : forall n, slice_bound n (character p) = c).
  { intros n. unfold slice_bound. destruct (Z.ltb_spec (character p) 0); [lia|reflexivity]. }
  (* the insertion *)
  assert (Hle1 : Position_le (start (mkRange p p)) (end_ (mkRange p p)) = true).
  { simpl. unfold Position_le. rewrite Z.ltb_irrefl, Z.eqb_refl. apply Z.leb_refl. }
  assert (Htext1 : concat (imap (fun j x => written_for (mkRange p p) T (Z.of_nat j) x) lines)
                   = concat (<[l := L']> lines)).
  { rewrite (written_spliced (mkRange p p) T l l) by (simpl; lia).
    unfold spliced. cbn [start end_]. fold l. rewrite HL. cbn [default].
    unfold slice_to, slice_from. rewrite !Hsb.
    rewrite <- (take_drop_middle lines l L HL) at 3.
    rewrite insert_app_r_alt by (rewrite length_take; lia).
    rewrite length_take, Nat.min_l by lia. rewrite Nat.sub_diag. cbn [insert list_insert].
    rewrite concat_app, concat_cons. unfold L'. now rewrite <- !app_assoc. }
  assert (Hw1 : well_split (<[l := L']> lines) = true).
  { apply well_split_insert; [exact Hpre|exact HT|now rewrite take_drop|].
    apply (well_split_splitlines_from (length (_text doc))); [lia|constructor]. }
  pose proof (apply_incremental_change_as_full doc v1 (mkRange p p) T Hl Hc Hle1) as E1.
  cbn [start] in E1. fold lines in E1.
  destruct (Z.eqb_spec (line p) (Z.of_nat (length lines))) as [Heq|_]; [lia|].
  rewrite Htext1 in E1.
  unfold apply_full_change in E1. rewrite (with_lock_free doc _ Hl) in E1.
  cbn [fmap option_fmap option_map fst snd] in E1.
  eexists. eexists. split; [exact E1|]. split; [now destruct v1|].
  (* the deletion *)
  match type of E1 with _ = Some (_, ?d) => set (inserted := d) in * end.
  assert (Hl1 : _lock inserted = false) by reflexivity.
  assert (Hc1 : lines_consistent inserted) by (now left).
  assert (Ht1 : _text inserted = concat (<[l := L']> lines)) by (now destruct v1).
  set (r2 := mkRange p (mkPosition (line p) (character p + Z.of_nat (length T)))).
  assert (Hle2 : Position_le (start r2) (end_ r2) = true).
  { apply Position_le_spec. simpl. lia. }
  pose proof (apply_incremental_change_as_full inserted v2 r2 [] Hl1 Hc1 Hle2) as E2.
  rewrite Ht1, (splitlines_concat _ Hw1) in E2. rewrite length_insert in E2.
  cbn [start r2] in E2.
  destruct (Z.eqb_spec (line p) (Z.of_nat (length lines))) as [Heq|_]; [lia|].
  rewrite (written_spliced r2 [] l l) in E2 by (simpl; rewrite ?length_insert; lia).
  unfold apply_full_change in E2. rewrite (with_lock_free inserted _ Hl1) in E2.
  cbn [fmap option_fmap option_map fst snd] in E2.
  split; [exact E2|].
  assert (Hsp : spliced (<[l := L']> lines) r2 [] = _text doc).
  { unfold spliced. cbn [start end_ r2 line character]. fold l.
    rewrite list_lookup_insert_eq by exact Hl_lt. cbn [default].
    unfold slice_to, slice_from. rewrite Hsb.
    assert (Hsb2 : forall n, slice_bound n (character p + Z.of_nat (length T))
                   = (c + length T)%nat).
    { intros n. unfold slice_bound.
      destruct (Z.ltb_spec (character p + Z.of_nat (length T)) 0); lia. }
    rewrite Hsb2. rewrite take_insert_ge by lia. rewrite drop_insert_lt by lia.
    assert (Hc_len : length (take c L) = c) by (rewrite length_take; lia).
    unfold L', id. rewrite take_app_length' by (now rewrite Hc_len).
    rewrite (app_assoc (take c L) T (drop c L)).
    rewrite (drop_app_length' (take c L ++ T)) by (rewrite length_app; lia).
    rewrite app_nil_l.
    rewrite <- (concat_splitlines_keepends (_text doc)). fold lines.
    rewrite <- (take_drop_middle lines l L HL) at 3.
    rewrite concat_app, concat_cons.
    rewrite (app_assoc (take c L)), take_drop. reflexivity. }
  destruct v2; exact Hsp.
Qed.

End InsertThenDelete.

Lemma insert_then_delete_example :
  exists inserted restored,
    TextDocument.apply_incremental_change (Any:=unit) (Some 2)
      (mkRange (mkPosition 0 1) (mkPosition 0 1)) (u "X")
      (TextDocument.__init__ [97; 98; 10; 99]%N (Some 1)) = Some (Ok tt, inserted)
    /\ TextDocument._text inserted = [97; 88; 98; 10; 99]%N
    /\ TextDocument.apply_incremental_change (Some 3)
         (mkRange (mkPosition 0 1) (mkPosition 0 2)) [] inserted = Some (Ok tt, restored)
    /\ TextDocument._text restored = [97; 98; 10; 99]%N.
Proof.
  exact (insert_then_delete_restores (Any:=unit)
           (TextDocument.__init__ [97; 98; 10; 99]%N (Some 1)) (Some 2) (Some 3)
           (mkPosition 0 1) (u "X") [97; 98; 10]%N
           eq_refl (or_introl eq_refl) ltac:(vm_compute; discriminate)
           ltac:(vm_compute; discriminate) eq_refl ltac:(vm_compute; lia)
           ltac:(repeat constructor) ltac:(repeat constructor)).
Defined.

(** ** More on the matcher *)

Lemma rmatch_Star_iter {R} (r : regex) (s : bytes) (caps : groups)
    (k : bytes -> groups -> option R) :
  rmatch (Star r) s caps k = star_iter r k (length s) s caps.
Proof. reflexivity. Qed.

Lemma star_iter_S {R} (r : regex) (k : bytes -> groups -> option R) (n : nat)
    (s : bytes) (caps : groups) :
  star_iter r k (S n) s caps
  = match rmatch r s caps
            (fun s1 c1 => if (length s1 <? length s)%nat then star_iter r k n s1 c1 else None) with
    | Some x => Some x
    | None => k s caps
    end.
Proof. reflexivity. Qed.

(** A successful match hands its continuation a suffix of the input. *)
Lemma rmatch_suffix {R} (r : regex) : forall (s : bytes) (caps : groups)
    (k : bytes -> groups -> option R) (x : R),
  rmatch r s caps k = Some x ->
  exists s1 c1, k s1 c1 = Some x /\ s1 `suffix_of` s.
Proof.
  induction r as [| c | p | r1 IH1 r2 IH2 | r1 IH1 r2 IH2 | r1 IH1 | n r1 IH1];
    intros s caps k x Hm.
  - exists s, caps. split; [exact Hm|reflexivity].
  - simpl in Hm. destruct s as [|c' s']; [discriminate|].
    destruct (Ascii.eqb c c'); [|discriminate].
    exists s', caps. split; [exact Hm|]. now apply suffix_cons_r.
  - simpl in Hm. destruct s as [|c' s']; [discriminate|]. destruct (p c'); [|discriminate].
    exists s', caps. split; [exact Hm|]. now apply suffix_cons_r.
  - simpl in Hm. apply IH1 in Hm as (s1 & c1 & Hm & Hs1).
    apply IH2 in Hm as (s2 & c2 & Hm & Hs2).
    exists s2, c2. split; [exact Hm|]. now transitivity s1.
  - simpl in Hm. destruct (rmatch r1 s caps k) eqn:E1.
    + injection Hm as ->. now apply IH1 in E1.
    + now apply IH2 in Hm.
  - rewrite rmatch_Star_iter in Hm. revert Hm. generalize (length s). intros n.
    revert s caps. induction n as [|n IHn]; intros s caps Hm.
    + exists s, caps. split; [exact Hm|reflexivity].
    + rewrite star_iter_S in Hm.
      destruct (rmatch r1 s caps _) eqn:E1.
      * injection Hm as ->. apply IH1 in E1 as (s1 & c1 & Hk & Hs1).
        destruct (length s1 <? length s)%nat; [|discriminate].
        apply IHn in Hk as (s2 & c2 & Hk & Hs2).
        exists s2, c2. split; [exact Hk|]. now transitivity s1.
      * exists s, caps. split; [exact Hm|reflexivity].
  - simpl in Hm. apply IH1 in Hm as (s1 & c1 & Hm & Hs).
    eexists _, _. split; [exact Hm|exact Hs].
Qed.

(** A continuation that fails on every suffix makes the match fail. *)
Lemma rmatch_none {R} (r : regex) (s : bytes) (caps : groups)
    (k : bytes -> groups -> option R) :
  (forall s1 c1, s1 `suffix_of` s -> k s1 c1 = None) -> rmatch r s caps k = None.
Proof.
  intros Hk. destruct (rmatch r s caps k) eqn:E; [|reflexivity].
  apply rmatch_suffix in E as (s1 & c1 & E & Hs). rewrite (Hk _ _ Hs) in E. discriminate.
Qed.

(** Only what the continuation does on inputs no longer than [s] counts. *)
Lemma rmatch_ext {R} (r : regex) : forall (s : bytes) (caps : groups)
    (k1 k2 : bytes -> groups -> option R),
  (forall s1 c1, (length s1 <= length s)%nat -> k1 s1 c1 = k2 s1 c1) ->
  rmatch r s caps k1 = rmatch r s caps k2.
Proof.
  induction r as [| c | p | r1 IH1 r2 IH2 | r1 IH1 r2 IH2 | r1 IH1 | n r1 IH1];
    intros s caps k1 k2 Hk.
  - simpl. now apply Hk.
  - simpl. destruct s as [|c' s']; [reflexivity|]. destruct (Ascii.eqb c c'); [|reflexivity].
    apply Hk. simpl. lia.
  - simpl. destruct s as [|c' s']; [reflexivity|]. destruct (p c'); [|reflexivity].
    apply Hk. simpl. lia.
  - simpl. apply IH1. intros s1 c1 H1. apply IH2. intros s2 c2 H2. apply Hk. lia.
  - simpl. rewrite (IH1 s caps k1 k2 Hk), (IH2 s caps k1 k2 Hk). reflexivity.
  - rewrite !rmatch_Star_iter. generalize (length s). intros n.
    revert s caps Hk. induction n as [|n IHn]; intros s caps Hk.
    + simpl. now apply Hk.
    + rewrite !star_iter_S.
      rewrite (IH1 s caps _
                 (fun s1 c1 => if (length s1 <? length s)%nat then star_iter r1 k2 n s1 c1
                               else None)).
      * now rewrite (Hk s caps) by lia.
      * intros s1 c1 H1. destruct (length s1 <? length s)%nat; [|reflexivity].
        apply IHn. intros s2 c2 H2. apply Hk. lia.
  - simpl. apply IH1. intros s1 c1 H1. apply Hk. exact H1.
Qed.

(** The loop of [Star] does not depend on the iterations it is allowed
    beyond the length of the input. *)
Lemma star_iter_enough {R} (r : regex) (k : bytes -> groups -> option R) (n : nat) :
  forall (m : nat) (s : bytes) (caps : groups),
    (length s <= n)%nat -> (length s <= m)%nat ->
    star_iter r k n s caps = star_iter r k m s caps.
Proof.
  induction n as [|n IH]; intros m s caps Hn Hm.
  - destruct s; [|simpl in Hn; lia]. destruct m as [|m]; [reflexivity|].
    rewrite star_iter_S. cbn [star_iter].
    rewrite rmatch_none; [reflexivity|]. intros s1 c1 _.
    destruct (Nat.ltb_spec (length s1) (length (@nil ascii))); [simpl in *; lia|reflexivity].
  - destruct m as [|m].
    + destruct s; [|simpl in Hm; lia].
      rewrite star_iter_S. cbn [star_iter].
      rewrite rmatch_none; [reflexivity|]. intros s1 c1 _.
    destruct (Nat.ltb_spec (length s1) (length (@nil ascii))); [simpl in *; lia|reflexivity].
    + rewrite !star_iter_S.
      rewrite (rmatch_ext r s caps _
                 (fun s1 c1 => if (length s1 <? length s)%nat then star_iter r k m s1 c1
                               else None)); [reflexivity|].
      intros s1 c1 _. destruct (Nat.ltb_spec (length s1) (length s)); [|reflexivity].
      apply IH; lia.
Qed.

(** The equation of [Star]: one more iteration that consumes something,
    or else the continuation. *)
Lemma rmatch_Star {R} (r : regex) (s : bytes) (caps : groups)
    (k : bytes -> groups -> option R) :
  rmatch (Star r) s caps k
  = match rmatch r s caps
            (fun s1 c1 => if (length s1 <? length s)%nat then rmatch (Star r) s1 c1 k else None) with
    | Some x => Some x
    | None => k s caps
    end.
Proof.
  rewrite rmatch_Star_iter.
  rewrite (star_iter_enough r k (length s) (S (length s)) s caps) by lia.
  rewrite star_iter_S.
  rewrite (rmatch_ext r s caps _
             (fun s1 c1 => if (length s1 <? length s)%nat then rmatch (Star r) s1 c1 k
                           else None)); [reflexivity|].
  intros s1 c1 _. destruct (Nat.ltb_spec (length s1) (length s)); [|reflexivity].
  rewrite rmatch_Star_iter. apply star_iter_enough; lia.
Qed.

(** A pattern that needs the byte [c] does not match an input without it. *)
Lemma rmatch_requires_byte {R} (c : ascii) (r : regex) :
  requires_byte c r = true ->
  forall (s : bytes) (caps : groups) (k : bytes -> groups -> option R),
    c ∉ s -> rmatch r s caps k = None.
Proof.
  induction r as [| c' | p | r1 IH1 r2 IH2 | r1 IH1 r2 IH2 | r1 IH1 | n r1 IH1];
    simpl; intros Hr s caps k Hs; try discriminate.
  - destruct s as [|c'' s']; [reflexivity|].
    destruct (Ascii.eqb_spec c' c''); [|reflexivity]. subst c''.
    apply Ascii.eqb_eq in Hr. subst c'. exfalso. apply Hs. left.
  - apply orb_true_iff in Hr as [Hr|Hr].
    + now apply IH1.
    + apply rmatch_none. intros s1 c1 [pre ->]. apply IH2; [exact Hr|].
      intros Hin. apply Hs. apply elem_of_app. now right.
  - apply andb_true_iff in Hr as [H1 H2]. now rewrite IH1, IH2.
  - now apply IH1.
Qed.

Lemma rmatch_Lit_app {R} (l s : bytes) (caps : groups) (k : bytes -> groups -> option R) :
  rmatch (Lit l) (l ++ s) caps k = k s caps.
Proof.
  induction l as [|c l IH]; [reflexivity|]. simpl. now rewrite Ascii.eqb_refl.
Qed.

Lemma rmatch_Cls_cons {R} (p : ascii -> bool) (c : ascii) (s : bytes) (caps : groups)
    (k : bytes -> groups -> option R) :
  rmatch (Cls p) (c :: s) caps k = if p c then k s caps else None.
Proof. reflexivity. Qed.

Lemma rmatch_Chr_cons {R} (c c' : ascii) (s : bytes) (caps : groups)
    (k : bytes -> groups -> option R) :
  rmatch (Chr c) (c' :: s) caps k = if Ascii.eqb c c' then k s caps else None.
Proof. reflexivity. Qed.

Lemma rmatch_Alt {R} (r1 r2 : regex) (s : bytes) (caps : groups)
    (k : bytes -> groups -> option R) :
  rmatch (Alt r1 r2) s caps k
  = match rmatch r1 s caps k with Some x => Some x | None => rmatch r2 s caps k end.
Proof. reflexivity. Qed.

(** A greedy run of a class takes every byte of the class when what
    follows the run cannot start with a byte of the class. *)
Lemma rmatch_Star_Cls_run {R} (p : ascii -> bool) (xs s : bytes) (caps : groups)
    (k : bytes -> groups -> option R) :
  Forall (fun c => p c = true) xs ->
  match s with c :: _ => p c = false | [] => True end ->
  (forall c t cs, p c = true -> k (c :: t) cs = None) ->
  rmatch (Star (Cls p)) (xs ++ s) caps k = k s caps.
Proof.
  intros Hxs Hs Hk. induction Hxs as [|x xs Hx Hxs IH].
  - rewrite app_nil_l, rmatch_Star. destruct s as [|c t]; [reflexivity|].
    simpl. now rewrite Hs.
  - rewrite rmatch_Star. rewrite <- app_comm_cons, rmatch_Cls_cons, Hx.
    assert (Hlt : (length (xs ++ s) <? length (x :: xs ++ s))%nat = true)
      by (apply Nat.ltb_lt; simpl; lia).
    rewrite Hlt, IH. rewrite (Hk x _ _ Hx). now destruct (k s caps).
Qed.

(** The same run, when all that is known is that the continuation
    succeeds after it. *)
Lemma rmatch_Star_Cls_greedy {R} (p : ascii -> bool) (xs s : bytes) (caps : groups)
    (k : bytes -> groups -> option R) (x : R) :
  Forall (fun c => p c = true) xs ->
  match s with c :: _ => p c = false | [] => True end ->
  k s caps = Some x ->
  rmatch (Star (Cls p)) (xs ++ s) caps k = Some x.
Proof.
  intros Hxs Hs Hk. induction Hxs as [|y xs Hy Hxs IH].
  - rewrite app_nil_l, rmatch_Star. destruct s as [|c t]; [exact Hk|].
    simpl. now rewrite Hs.
  - rewrite rmatch_Star. rewrite <- app_comm_cons, rmatch_Cls_cons, Hy.
    assert (Hlt : (length (xs ++ s) <? length (y :: xs ++ s))%nat = true)
      by (apply Nat.ltb_lt; simpl; lia).
    now rewrite Hlt, IH.
Qed.

(** A group around a non-empty run of a class captures the run. *)
Lemma rmatch_Grp_Plus_Cls {R} (n : nat) (p : ascii -> bool) (xs s : bytes) (caps : groups)
    (k : bytes -> groups -> option R) :
  xs <> [] ->
  Forall (fun c => p c = true) xs ->
  match s with c :: _ => p c = false | [] => True end ->
  (forall c t cs, p c = true -> k (c :: t) cs = None) ->
  rmatch (Grp n (Plus (Cls p))) (xs ++ s) caps k = k s (<[n := xs]> caps).
Proof.
  intros Hne Hxs Hs Hk. destruct xs as [|x xs]; [congruence|].
  apply Forall_cons in Hxs as [Hx Hxs].
  rewrite rmatch_Grp. unfold Plus. rewrite rmatch_Cat.
  rewrite <- app_comm_cons, rmatch_Cls_cons, Hx.
  rewrite rmatch_Star_Cls_run; [|exact Hxs|exact Hs|intros; now apply Hk].
  do 2 f_equal. cbn [length]. rewrite length_app.
  replace (S (length xs + length s) - length s)%nat with (length (x :: xs)) by (simpl; lia).
  rewrite (app_comm_cons xs s x). apply take_app_length.
Qed.

(** ** Decimal lengths *)

Lemma digits_of_pos_fold (fuel : nat) : forall (n : nat) (acc : bytes) ,
  (n < fuel)%nat ->
  fold_left (fun a c => 10 * a + (Z.of_nat (nat_of_ascii c) - 48)) (digits_of_pos fuel n acc) 0
  = fold_left (fun a c => 10 * a + (Z.of_nat (nat_of_ascii c) - 48)) acc (Z.of_nat n).
Proof.
  induction fuel as [|fuel IH]; intros n acc Hn; [lia|].
  cbn [digits_of_pos].
  assert (Hd : Z.of_nat (nat_of_ascii (ascii_of_nat (48 + n mod 10))) - 48
               = Z.of_nat (n mod 10)).
  { rewrite nat_ascii_embedding; [lia|]. pose proof (Nat.mod_upper_bound n 10). lia. }
  destruct (Nat.ltb_spec n 10) as [Hlt|Hge].
  - cbn [fold_left]. rewrite Hd, Nat.mod_small by exact Hlt. f_equal.
  - assert (Hdiv : (n / 10 < fuel)%nat).
    { pose proof (Nat.div_lt n 10 ltac:(lia) ltac:(lia)). lia. }
    rewrite (IH _ _ Hdiv). cbn [fold_left]. rewrite Hd. f_equal.
    pose proof (Nat.div_mod_eq n 10). lia.
Qed.

Lemma digits_of_pos_digits (fuel : nat) : forall (n : nat) (acc : bytes),
  Forall (fun c => digit c = true) acc ->
  Forall (fun c => digit c = true) (digits_of_pos fuel n acc).
Proof.
  induction fuel as [|fuel IH]; intros n acc Hacc; [exact Hacc|].
  cbn [digits_of_pos].
  assert (Hd : digit (ascii_of_nat (48 + n mod 10)) = true).
  { unfold digit. rewrite nat_ascii_embedding by (pose proof (Nat.mod_upper_bound n 10); lia).
    pose proof (Nat.mod_upper_bound n 10 ltac:(lia)).
    apply andb_true_iff. split; apply Nat.leb_le; lia. }
  destruct (n <? 10)%nat; [now constructor|]. apply IH. now constructor.
Qed.

Lemma digits_of_pos_nonempty (fuel n : nat) (acc : bytes) :
  digits_of_pos (S fuel) n acc <> [].
Proof.
  revert n acc. induction fuel as [|fuel IH]; intros n acc; cbn [digits_of_pos].
  - destruct (n <? 10)%nat; discriminate.
  - destruct (n <? 10)%nat; [discriminate|]. apply IH.
Qed.

(** What [send_data] prints as the length is what [data_received] reads. *)
Lemma int_of_digits_str_of_nat (n : nat) : int_of_digits (str_of_nat n) = Z.of_nat n.
Proof. unfold int_of_digits, str_of_nat. now rewrite digits_of_pos_fold by lia. Qed.

Lemma str_of_nat_digits (n : nat) :
  str_of_nat n <> [] /\ Forall (fun c => digit c = true) (str_of_nat n).
Proof.
  split; [apply digits_of_pos_nonempty|apply digits_of_pos_digits; constructor].
Qed.

Lemma digit_not_crlf (c : ascii) : digit c = true -> not_crlf c = true.
Proof.
  intros Hd. unfold not_crlf, is_cr_or_lf.
  destruct (Ascii.eqb_spec c "013") as [->|_]; [discriminate Hd|].
  destruct (Ascii.eqb_spec c "010") as [->|_]; [discriminate Hd|]. reflexivity.
Qed.

(** ** The message pattern on a frame as [send_data] writes it *)

Lemma not_crlf_inv (c : ascii) :
  not_crlf c = true -> Ascii.eqb "013" c = false /\ Ascii.eqb "010" c = false.
Proof.
  unfold not_crlf, is_cr_or_lf. intros Hc. apply negb_true_iff, orb_false_iff in Hc as [H1 H2].
  rewrite Ascii.eqb_sym in H1. rewrite Ascii.eqb_sym in H2. auto.
Qed.

(** A line: a run of [^\r\n] closed by CR LF. *)
Lemma rmatch_line {R} (xs s : bytes) (caps : groups) (k : bytes -> groups -> option R) :
  Forall (fun c => not_crlf c = true) xs ->
  rmatch (Cat (Star (Cls not_crlf)) (Lit CRLF)) (xs ++ CRLF ++ s) caps k = k s caps.
Proof.
  intros Hxs. rewrite rmatch_Cat, rmatch_Star_Cls_run.
  - apply rmatch_Lit_app.
  - exact Hxs.
  - reflexivity.
  - intros c t cs Hc. apply not_crlf_inv in Hc as [Hc _].
    change (rmatch (Lit CRLF) (c :: t) cs k)
      with (rmatch (Chr "013") (c :: t) cs (fun s1 c1 => rmatch (Lit ["010"%char]) s1 c1 k)).
    now rewrite rmatch_Chr_cons, Hc.
Qed.

(** The Content-Length line. *)
Lemma rmatch_content_length {R} (ds s : bytes) (caps : groups)
    (k : bytes -> groups -> option R) :
  ds <> [] -> Forall (fun c => digit c = true) ds ->
  rmatch PAT_CONTENT_LENGTH (b "Content-Length: " ++ ds ++ CRLF ++ s) caps k
  = k s (<[1%nat := take (length (b "Content-Length: " ++ ds ++ CRLF ++ s) - length s)
                      (b "Content-Length: " ++ ds ++ CRLF ++ s)]>
           (<[g_length := ds]> caps)).
Proof.
  intros Hne Hds. unfold PAT_CONTENT_LENGTH. rewrite rmatch_Grp, rmatch_Cat.
  change (b "Content-Length: " ++ ds ++ CRLF ++ s)
    with (b "Content-Length:" ++ " "%char :: ds ++ CRLF ++ s) at 1.
  rewrite rmatch_Lit_app, rmatch_Cat. unfold Opt. rewrite rmatch_Alt, rmatch_Chr_cons.
  cbn [Ascii.eqb Bool.eqb]. rewrite rmatch_Cat.
  rewrite rmatch_Grp_Plus_Cls; [|exact Hne|exact Hds|reflexivity|].
  - rewrite rmatch_Lit_app.
    match goal with |- match ?x with _ => _ end = _ => destruct x; reflexivity end.
  - intros c t cs Hc. apply digit_not_crlf, not_crlf_inv in Hc as [Hc _].
    match goal with
    | |- rmatch (Lit CRLF) ?i ?cc ?kk = None =>
        change (rmatch (Chr "013") i cc (fun s1 c1 => rmatch (Lit ["010"%char]) s1 c1 kk) = None)
    end.
    now rewrite rmatch_Chr_cons, Hc.
Qed.

Lemma rmatch_Alt_l {R} (r1 r2 : regex) (s : bytes) (caps : groups)
    (k : bytes -> groups -> option R) (x : R) :
  rmatch r1 s caps k = Some x -> rmatch (Alt r1 r2) s caps k = Some x.
Proof. intros E. now rewrite rmatch_Alt, E. Qed.

Lemma rmatch_Star_l {R} (r : regex) (s : bytes) (caps : groups)
    (k : bytes -> groups -> option R) (x : R) :
  rmatch r s caps
    (fun s1 c1 => if (length s1 <? length s)%nat then rmatch (Star r) s1 c1 k else None) = Some x ->
  rmatch (Star r) s caps k = Some x.
Proof. intros E. now rewrite rmatch_Star, E. Qed.

Lemma rmatch_Star_r {R} (r : regex) (s : bytes) (caps : groups)
    (k : bytes -> groups -> option R) :
  rmatch r s caps
    (fun s1 c1 => if (length s1 <? length s)%nat then rmatch (Star r) s1 c1 k else None) = None ->
  rmatch (Star r) s caps k = k s caps.
Proof. intros E. now rewrite rmatch_Star, E. Qed.

Lemma rmatch_Lit_CRLF_ne {R} (c : ascii) (t : bytes) (caps : groups)
    (k : bytes -> groups -> option R) :
  Ascii.eqb "013" c = false -> rmatch (Lit CRLF) (c :: t) caps k = None.
Proof.
  intros Hc.
  change (rmatch (Chr "013") (c :: t) caps (fun s1 c1 => rmatch (Lit ["010"%char]) s1 c1 k) = None).
  now rewrite rmatch_Chr_cons, Hc.
Qed.

Lemma rmatch_Star_Cls_all {R} (p : ascii -> bool) (xs : bytes) (caps : groups)
    (k : bytes -> groups -> option R) (x : R) :
  Forall (fun c => p c = true) xs -> k [] caps = Some x ->
  rmatch (Star (Cls p)) xs caps k = Some x.
Proof.
  intros Hxs Hk. rewrite <- (app_nil_r xs).
  now apply rmatch_Star_Cls_greedy.
Qed.

Lemma not_crlf_semi_inv (c : ascii) :
  not_crlf_semi c = true -> Ascii.eqb "013" c = false /\ Ascii.eqb ";" c = false.
Proof.
  unfold not_crlf_semi, is_cr_or_lf. intros Hc.
  apply negb_true_iff, orb_false_iff in Hc as [H1 H2].
  apply orb_false_iff in H1 as [H1 _].
  rewrite Ascii.eqb_sym in H1. rewrite Ascii.eqb_sym in H2. auto.
Qed.

Ltac shorter :=
  match goal with
  | |- context [(length ?x <? length ?y)%nat] =>
      replace (length x <? length y)%nat with true
        by (symmetry; apply Nat.ltb_lt; rewrite ?length_app; simpl; rewrite ?length_app;
            simpl; lia)
  end.

(** The Content-Type line that [send_data] writes, the blank line and the
    body. *)
Lemma rmatch_headers_body (rest : bytes) (caps : groups) :
  exists g,
    rmatch (Cat PAT_HEADER_LINES PAT_BODY)
      (b "Content-Type: application/vscode-jsonrpc; charset=utf-8" ++ CRLF ++ CRLF ++ rest)
      caps (fun _ caps => Some caps) = Some g
    /\ g !! g_charset = Some (b "utf-8")
    /\ g !! g_body = Some rest
    /\ g !! g_length = caps !! g_length.
Proof.
  eexists. split.
  - rewrite rmatch_Cat. unfold PAT_HEADER_LINES. apply rmatch_Star_l.
    rewrite rmatch_Grp. apply rmatch_Alt_l. unfold PAT_CONTENT_TYPE.
    rewrite rmatch_Grp, rmatch_Cat.
    change (b "Content-Type: application/vscode-jsonrpc; charset=utf-8" ++ CRLF ++ CRLF ++ rest)
      with (b "Content-Type:" ++ " "%char :: b "application/vscode-jsonrpc"
              ++ ";"%char :: " "%char :: b "charset=" ++ b "utf-8" ++ CRLF ++ CRLF ++ rest) at 1.
    rewrite rmatch_Lit_app, rmatch_Cat. unfold Opt at 1. apply rmatch_Alt_l.
    rewrite rmatch_Chr_cons. cbn [Ascii.eqb Bool.eqb]. rewrite rmatch_Cat.
    rewrite rmatch_Grp_Plus_Cls.
    + rewrite rmatch_Cat. unfold Opt at 1. apply rmatch_Alt_l.
      rewrite rmatch_Grp, rmatch_Cat, rmatch_Chr_cons. cbn [Ascii.eqb Bool.eqb].
      rewrite rmatch_Cat. apply rmatch_Star_l. rewrite rmatch_Chr_cons.
      cbn [Ascii.eqb Bool.eqb]. shorter.
      rewrite rmatch_Star_r by reflexivity.
      unfold Opt at 1. apply rmatch_Alt_l.
      rewrite rmatch_Grp, rmatch_Cat, rmatch_Lit_app.
      rewrite rmatch_Grp_Plus_Cls.
      * rewrite rmatch_Lit_app. shorter.
        rewrite rmatch_Star_r by reflexivity.
        unfold PAT_BODY. rewrite rmatch_Cat, rmatch_Lit_app, rmatch_Grp.
        apply rmatch_Star_Cls_all; [|reflexivity].
        apply Forall_forall. reflexivity.
      * discriminate.
      * repeat constructor.
      * reflexivity.
      * intros c t cs Hc. apply not_crlf_inv in Hc as [Hc _].
        now apply rmatch_Lit_CRLF_ne.
    + discriminate.
    + repeat constructor.
    + reflexivity.
    + intros c t cs Hc. apply not_crlf_semi_inv in Hc as [H1 H2].
      rewrite rmatch_Cat. unfold Opt at 1.
      rewrite rmatch_Alt, rmatch_Grp, rmatch_Cat, rmatch_Chr_cons, H2.
      change (rmatch Eps (c :: t) cs ?kk) with (kk (c :: t) cs). cbv beta.
      now apply rmatch_Lit_CRLF_ne.
  - unfold g_charset, g_body, g_length, g_content_type.
    repeat split.
    + rewrite !lookup_insert_ne by discriminate. apply lookup_insert_eq.
    + rewrite lookup_insert_eq. f_equal. apply take_ge. simpl. lia.
    + now rewrite !lookup_insert_ne by discriminate.
Qed.

Lemma first_break_split (s : bytes) (c : ascii) :
  first_break s = Some c ->
  exists xs ys, s = xs ++ c :: ys /\ Forall (fun x => not_crlf x = true) xs
                /\ is_cr_or_lf c = true.
Proof.
  induction s as [|x s IH]; [discriminate|]. simpl.
  destruct (is_cr_or_lf x) eqn:E.
  - intros [= ->]. exists [], s. split; [reflexivity|]. split; [constructor|exact E].
  - intros Hs. destruct (IH Hs) as (xs & ys & -> & Hxs & Hc).
    exists (x :: xs), ys. split; [reflexivity|]. split; [|exact Hc].
    constructor; [|exact Hxs]. unfold not_crlf. now rewrite E.
Qed.

Lemma first_break_none (s : bytes) : first_break s = None -> "013"%char ∉ s.
Proof.
  induction s as [|x s IH]; simpl; intros Hs Hin; [now apply elem_of_nil in Hin|].
  destruct (is_cr_or_lf x) eqn:E; [discriminate|].
  apply elem_of_cons in Hin as [<-|Hin]; [discriminate E|]. now apply IH.
Qed.

Lemma first_break_app (s t : bytes) :
  first_break (s ++ t) = match first_break s with Some c => Some c | None => first_break t end.
Proof.
  induction s as [|x s IH]; [reflexivity|]. simpl. now destruct (is_cr_or_lf x).
Qed.

Lemma multiline_body_clean_front (body tail : bytes) :
  multiline_body body = true -> clean_front (body ++ tail) = true.
Proof.
  unfold multiline_body, clean_front. rewrite first_break_app.
  destruct (first_break body) as [c|]; [|discriminate].
  destruct body as [|c0 body]; [now rewrite andb_false_r|exact (fun H => H)].
Qed.

Lemma clean_front_prefix (pre post : bytes) :
  clean_front (pre ++ post) = true -> clean_front pre = true.
Proof.
  unfold clean_front. rewrite first_break_app.
  destruct (first_break pre) as [c|] eqn:E; [|reflexivity].
  destruct pre; [discriminate|]. exact (fun H => H).
Qed.

(** After a clean front no further line can be read. *)
Lemma rmatch_line_clean_front {R} (rest : bytes) (caps : groups)
    (k : bytes -> groups -> option R) :
  clean_front rest = true ->
  rmatch (Cat (Star (Cls not_crlf)) (Lit CRLF)) rest caps k = None.
Proof.
  unfold clean_front. destruct (first_break rest) as [c|] eqn:E.
  - intros Hc. apply andb_true_iff in Hc as [Hc _]. apply Ascii.eqb_eq in Hc. subst c.
    destruct (first_break_split _ _ E) as (xs & ys & -> & Hxs & _).
    rewrite rmatch_Cat, rmatch_Star_Cls_run.
    + now apply rmatch_Lit_CRLF_ne.
    + exact Hxs.
    + reflexivity.
    + intros c t cs Hc. apply not_crlf_inv in Hc as [Hc _]. now apply rmatch_Lit_CRLF_ne.
  - intros _. apply (rmatch_requires_byte "013"); [reflexivity|now apply first_break_none].
Qed.

(** Nor does a Content-Length line start there. *)
Lemma rmatch_content_length_clean_front {R} (r : regex) (rest : bytes) (caps : groups)
    (k : bytes -> groups -> option R) :
  clean_front rest = true ->
  rmatch (Cat PAT_CONTENT_LENGTH r) rest caps k = None.
Proof.
  unfold clean_front. destruct (first_break rest) as [c|] eqn:E.
  - intros Hc. apply andb_true_iff in Hc as [_ Hc].
    destruct rest as [|c0 rest]; [discriminate|]. apply negb_true_iff in Hc.
    rewrite rmatch_Cat. unfold PAT_CONTENT_LENGTH. rewrite rmatch_Grp, rmatch_Cat.
    change (Lit (b "Content-Length:")) with (Cat (Chr "C") (Lit (b "ontent-Length:"))).
    rewrite rmatch_Cat, rmatch_Chr_cons. rewrite Ascii.eqb_sym in Hc. now rewrite Hc.
  - intros _. apply (rmatch_requires_byte "013"); [reflexivity|now apply first_break_none].
Qed.

(** On the header [send_data] writes, followed by a clean front, the
    pattern matches at the very first byte: no leading line is skipped. *)
Lemma re_match_written (ds rest : bytes) :
  ds <> [] -> Forall (fun c => digit c = true) ds -> clean_front rest = true ->
  exists g,
    re_match MESSAGE_PATTERN
      (b "Content-Length: " ++ ds ++ CRLF
       ++ b "Content-Type: application/vscode-jsonrpc; charset=utf-8" ++ CRLF ++ CRLF ++ rest)
    = Some g
    /\ g !! g_length = Some ds
    /\ g !! g_charset = Some (b "utf-8")
    /\ g !! g_body = Some rest.
Proof.
  intros Hne Hds Hrest.
  set (H2 := b "Content-Type: application/vscode-jsonrpc; charset=utf-8").
  set (input := b "Content-Length: " ++ ds ++ CRLF ++ H2 ++ CRLF ++ CRLF ++ rest).
  destruct (rmatch_headers_body rest
              (<[1%nat := take (length input - length (H2 ++ CRLF ++ CRLF ++ rest)) input]>
                 (<[g_length := ds]> ∅))) as (g & Hg & Hcs & Hbody & Hlen).
  exists g. split; [|split; [|split; assumption]].
  2: { rewrite Hlen. now rewrite lookup_insert_ne, lookup_insert_eq by discriminate. }
  unfold re_match, MESSAGE_PATTERN. rewrite rmatch_Cat. unfold PAT_LEADING_LINES.
  set (LINE := Cat (Star (Cls not_crlf)) (Lit CRLF)).
  set (K0 := fun (s1 : bytes) (c1 : groups) =>
               rmatch (Cat PAT_CONTENT_LENGTH (Cat PAT_HEADER_LINES PAT_BODY)) s1 c1
                 (fun _ caps => Some caps)).
  assert (A3 : rmatch (Star LINE) rest ∅ K0 = None).
  { rewrite rmatch_Star. unfold LINE at 1. rewrite rmatch_line_clean_front by exact Hrest.
    unfold K0. now apply rmatch_content_length_clean_front. }
  assert (A2 : rmatch (Star LINE) (CRLF ++ rest) ∅ K0 = None).
  { rewrite rmatch_Star. unfold LINE at 1.
    rewrite (rmatch_line [] rest) by constructor. shorter. now rewrite A3. }
  assert (A1 : rmatch (Star LINE) (H2 ++ CRLF ++ CRLF ++ rest) ∅ K0 = None).
  { rewrite rmatch_Star. unfold LINE at 1.
    rewrite (rmatch_line H2 (CRLF ++ rest)) by (unfold H2; repeat constructor).
    shorter. now rewrite A2. }
  rewrite rmatch_Star_r.
  - unfold K0 in *. rewrite rmatch_Cat. unfold input at 1.
    rewrite rmatch_content_length by assumption. exact Hg.
  - unfold LINE at 1. unfold input.
    replace (b "Content-Length: " ++ ds ++ CRLF ++ H2 ++ CRLF ++ CRLF ++ rest)
      with ((b "Content-Length: " ++ ds) ++ CRLF ++ H2 ++ CRLF ++ CRLF ++ rest)
      by (now rewrite <- app_assoc).
    rewrite rmatch_line.
    + shorter. exact A1.
    + apply Forall_app. split; [repeat constructor|].
      eapply Forall_impl; [exact Hds|]. intros c. apply digit_not_crlf.
Qed.

(** ** Frames as [send_data] writes them *)

Section FramesWritten.
Import JsonRPC.
Context `{Library}.
Implicit Types (self : JsonRPC.t).

Lemma header_of_app (body rest : bytes) :
  header_of body ++ rest
  = b "Content-Length: " ++ str_of_nat (length body) ++ CRLF
    ++ b "Content-Type: application/vscode-jsonrpc; charset=utf-8" ++ CRLF ++ CRLF ++ rest.
Proof. unfold header_of. rewrite <- !app_assoc. reflexivity. Qed.

(** What [data_received] reads off the match on a written header followed
    by a clean front. *)
Lemma found_written (body rest : bytes) :
  clean_front rest = true ->
  let found := re_match MESSAGE_PATTERN (header_of body ++ rest) in
  found_charset found = Ok CHARSET
  /\ found_length found = Z.of_nat (length body)
  /\ found_body found = rest.
Proof.
  intros Hrest. rewrite header_of_app.
  destruct (str_of_nat_digits (length body)) as [Hne Hds].
  destruct (re_match_written _ rest Hne Hds Hrest) as (g & -> & Hl & Hc & Hb).
  simpl. rewrite Hl, Hc, Hb. simpl. split; [reflexivity|]. split; [|reflexivity].
  apply int_of_digits_str_of_nat.
Qed.

Lemma header_of_nonempty (body rest : bytes) : header_of body ++ rest <> [].
Proof. rewrite header_of_app. discriminate. Qed.

(** The header is ASCII, so it decodes, and so does what decodes once the
    header is put in front. *)
Lemma header_of_ascii (body : bytes) : is_ascii (header_of body) = true.
Proof.
  unfold header_of, is_ascii. rewrite !forallb_app.
  destruct (str_of_nat_digits (length body)) as [_ Hds].
  assert (Hd : forallb (fun c => (nat_of_ascii c <? 128)%nat) (str_of_nat (length body)) = true).
  { apply forallb_forall. intros c Hc. apply list_elem_of_In in Hc.
    rewrite Forall_forall in Hds. specialize (Hds c Hc). unfold digit in Hds.
    apply andb_true_iff in Hds as [_ Hle]. apply Nat.leb_le in Hle.
    apply Nat.ltb_lt. lia. }
  rewrite Hd. reflexivity.
Qed.

Lemma decodes_nil : decodes CHARSET [].
Proof. apply decode_utf8_ascii. reflexivity. Qed.

Lemma decodes_app (s1 s2 : bytes) :
  decodes CHARSET s1 -> decodes CHARSET s2 -> decodes CHARSET (s1 ++ s2).
Proof. intros [t1 H1] [t2 H2]. exact (decode_utf8_app s1 s2 t1 t2 H1 H2). Qed.

Lemma decodes_written (body rest : bytes) :
  decodes CHARSET rest -> decodes CHARSET (header_of body ++ rest).
Proof.
  intros Hrest. apply decodes_app; [|exact Hrest].
  apply decode_utf8_ascii, header_of_ascii.
Qed.

(** A frame as [send_data] writes it, at the front of what is read on an
    empty buffer, the bytes after its header decoding in UTF-8: its body is
    handled and the loop goes on with the bytes after the body. *)
Lemma data_received_written_frame (body tail : bytes) self :
  _message_buf self = [] -> clean_front (body ++ tail) = true ->
  decodes CHARSET (body ++ tail) ->
  data_received (header_of body ++ body ++ tail) self
  = data_received tail (handle_frame CHARSET body self).
Proof.
  intros Hbuf Hclean Hdec.
  destruct (found_written body (body ++ tail) Hclean) as (Hc & Hl & Hb).
  destruct (decodes_written body (body ++ tail) Hdec) as [text Hlog].
  rewrite (data_received_frame _ self CHARSET text); rewrite ?Hbuf, ?app_nil_l.
  - rewrite Hl, Hb, Nat2Z.id. now rewrite take_app_length, drop_app_length.
  - apply header_of_nonempty.
  - exact Hc.
  - rewrite Hl, Hb, length_app. lia.
  - exact Hlog.
Qed.

(** Bytes without CR on an empty buffer are no frame yet: they are kept. *)
Lemma data_received_no_frame (data : bytes) self :
  _message_buf self = [] -> data <> [] -> first_break data = None ->
  data_received data self = (Ok tt, set_message_buf data self).
Proof.
  intros Hbuf Hne Hfb.
  assert (Hnone : re_match MESSAGE_PATTERN data = None).
  { apply (rmatch_requires_byte "013"); [reflexivity|now apply first_break_none]. }
  rewrite (data_received_wait data self CHARSET); rewrite ?Hbuf, ?app_nil_l, ?Hnone.
  - reflexivity.
  - exact Hne.
  - reflexivity.
  - simpl. lia.
Qed.

(** X15: a frame as [send_data] writes it, at the front of what is read on
    an empty buffer.  When the bytes after its header decode in UTF-8, the
    frame is consumed exactly: its body is handled and the loop goes on with
    the bytes after the body; when these hold no CR or LF (the beginning of
    the next header, say) they are kept in the buffer for the next read and
    nothing more is decoded.  When the bytes read do not decode in UTF-8
    (the frame is followed by half a character, say), the exception leaves
    [data_received], the frame is not handled and the bytes stay in the
    buffer. *)
Theorem written_frame_consumed (body tail : bytes) self :
  _message_buf self = [] -> clean_front (body ++ tail) = true ->
  (decodes CHARSET (body ++ tail) ->
   data_received (header_of body ++ body ++ tail) self
   = data_received tail (handle_frame CHARSET body self)
   /\ (tail <> [] -> first_break tail = None ->
       data_received (header_of body ++ body ++ tail) self
       = (Ok tt, set_message_buf tail (handle_frame CHARSET body self))))
  /\ (forall e,
        bytes_decode CHARSET (header_of body ++ body ++ tail) = Raise e ->
        data_received (header_of body ++ body ++ tail) self
        = (Raise e, set_message_buf (header_of body ++ body ++ tail) self)).
Proof.
  intros Hbuf Hclean. split.
  - intros Hdec.
    pose proof (data_received_written_frame body tail self Hbuf Hclean Hdec) as Hframe.
    split; [exact Hframe|].
    intros Hne Hfb. rewrite Hframe.
    apply data_received_no_frame; [apply message_buf_handle_frame|exact Hne|exact Hfb].
  - intros e Hlog.
    destruct (found_written body (body ++ tail) Hclean) as (Hc & Hl & Hb).
    rewrite (data_received_undecodable _ self CHARSET e); rewrite ?Hbuf, ?app_nil_l.
    + reflexivity.
    + apply header_of_nonempty.
    + exact Hc.
    + rewrite Hl, Hb, length_app. lia.
    + exact Hlog.
Qed.

(** X16: frames written back to back, their bodies decoding in UTF-8, are
    all decoded, in order, however many of them arrive in one read: for
    reads that end where a frame ends, the bodies handled are the bodies
    sent. *)
Theorem aligned_reads_decode_every_frame (reads : list (list bytes)) : forall self,
  _message_buf self = [] ->
  Forall (Forall (fun body => multiline_body body = true /\ decodes CHARSET body)) reads ->
  feed ((fun bodies => concat ((fun body => header_of body ++ body) <$> bodies)) <$> reads) self
  = (Ok tt, fold_left (fun st body => handle_frame CHARSET body st) (concat reads) self).
Proof.
  assert (Hdec : forall bodies : list bytes,
            Forall (fun body => multiline_body body = true /\ decodes CHARSET body) bodies ->
            decodes CHARSET (concat ((fun body => header_of body ++ body) <$> bodies))).
  { induction bodies as [|body bodies IH]; intros Hb; [exact decodes_nil|].
    apply Forall_cons in Hb as [[_ Hbody] Hb].
    rewrite fmap_cons, concat_cons. apply decodes_app; [|now apply IH].
    now apply decodes_written. }
  assert (Hone : forall (bodies : list bytes) self,
            _message_buf self = [] ->
            Forall (fun body => multiline_body body = true /\ decodes CHARSET body) bodies ->
            data_received (concat ((fun body => header_of body ++ body) <$> bodies)) self
            = (Ok tt, fold_left (fun st body => handle_frame CHARSET body st) bodies self)).
  { induction bodies as [|body bodies IH]; intros self Hbuf Hb; [reflexivity|].
    pose proof Hb as Hall. apply Forall_cons in Hb as [[Hbody Hbd] Hb].
    rewrite fmap_cons, concat_cons, <- app_assoc.
    rewrite data_received_written_frame;
      [|exact Hbuf|now apply multiline_body_clean_front
       |apply decodes_app; [exact Hbd|now apply Hdec]].
    rewrite IH; [reflexivity|apply message_buf_handle_frame|exact Hb]. }
  assert (Hbuf_fold : forall (bodies : list bytes) self,
            _message_buf self = [] ->
            _message_buf (fold_left (fun st body => handle_frame CHARSET body st) bodies self)
            = []).
  { induction bodies as [|body bodies IH]; intros self Hbuf; [exact Hbuf|].
    simpl. apply IH, message_buf_handle_frame. }
  induction reads as [|bodies reads IH]; intros self Hbuf Hr; [reflexivity|].
  apply Forall_cons in Hr as [Hb Hr].
  rewrite fmap_cons. cbn [feed]. rewrite (Hone bodies self Hbuf Hb).
  rewrite IH; [|now apply Hbuf_fold|exact Hr].
  now rewrite concat_cons, fold_left_app.
Qed.

Lemma handle_frame_message_buf (charset : string) (body buf : bytes) self :
  handle_frame charset body (set_message_buf buf self) = handle_frame charset body self.
Proof. reflexivity. Qed.

(** X17: a frame whose body, decoding in UTF-8, arrives in two reads is
    handled when the second read completes it, and the outcome is the one
    of a single read. *)
Theorem split_body_is_reassembled (pre post : bytes) self :
  _message_buf self = [] -> post <> [] -> clean_front (pre ++ post) = true ->
  decodes CHARSET (pre ++ post) ->
  feed [header_of (pre ++ post) ++ pre; post] self
  = (Ok tt, handle_frame CHARSET (pre ++ post) self)
  /\ feed [header_of (pre ++ post) ++ pre ++ post] self
     = (Ok tt, handle_frame CHARSET (pre ++ post) self).
Proof.
  intros Hbuf Hpost Hclean Hdec. split.
  - cbn [feed].
    destruct (found_written (pre ++ post) pre (clean_front_prefix _ _ Hclean))
      as (Hc & Hl & Hb).
    rewrite (data_received_wait _ self CHARSET); rewrite ?Hbuf, ?app_nil_l.
    2: apply header_of_nonempty. 2: exact Hc.
    2: { rewrite Hl, Hb, length_app. destruct post; [congruence|simpl; lia]. }
    destruct (found_written (pre ++ post) (pre ++ post) Hclean) as (Hc' & Hl' & Hb').
    destruct (decodes_written (pre ++ post) (pre ++ post) Hdec) as [text Hlog].
    rewrite (data_received_frame post _ CHARSET text); cbn [_message_buf set_message_buf];
      rewrite <- ?app_assoc.
    + rewrite Hl', Hb', Nat2Z.id, take_ge, drop_ge by lia.
      now rewrite data_received_nil, handle_frame_message_buf.
    + exact Hpost.
    + exact Hc'.
    + rewrite Hl', Hb'. lia.
    + exact Hlog.
  - cbn [feed]. rewrite <- (app_nil_r (pre ++ post)) at 2.
    rewrite data_received_written_frame; [|exact Hbuf|now rewrite app_nil_r..].
    now rewrite data_received_nil.
Qed.

(** X18: what [send_data] writes for a message, whose serialization decodes
    in UTF-8 as the output of [encode] does, is read back by
    [data_received] as one frame: the serialized message is decoded and the
    messages it holds are scheduled, in order. *)
Theorem send_then_receive (m : JsonRPCMessage) (sender receiver : JsonRPC.t)
    (written : list bytes) :
  transport sender = Some written -> _message_buf receiver = [] ->
  clean_front (message_json m) = true ->
  decodes CHARSET (message_json m) ->
  exists wire received,
    transport (send_data m sender) = Some (written ++ [wire])
    /\ feed [wire] receiver = (Ok tt, received)
    /\ received = handle_frame CHARSET (message_json m) receiver
    /\ scheduled received = scheduled receiver ++ decoded CHARSET (message_json m)
    /\ _message_buf received = [].
Proof.
  intros Ht Hbuf Hclean Hdec. exists (written_message m). eexists.
  unfold send_data. rewrite Ht. split; [reflexivity|].
  split; [|split; [reflexivity|split;
            [apply scheduled_handle_frame|apply message_buf_handle_frame]]].
  cbn [feed]. unfold written_message.
  rewrite <- (app_nil_r (message_json m)) at 2.
  rewrite data_received_written_frame; [|exact Hbuf|now rewrite app_nil_r..].
  now rewrite data_received_nil.
Qed.

End FramesWritten.

Lemma written_frame_consumed_example :
  JsonRPC.data_received (H:=Sample.library)
    (JsonRPC.header_of (b "{}") ++ b "{}" ++ b "Content-Le") Sample.connected
  = JsonRPC.data_received (H:=Sample.library) (b "Content-Le")
      (JsonRPC.handle_frame (H:=Sample.library) JsonRPC.CHARSET (b "{}") Sample.connected)
  /\ JsonRPC.data_received (H:=Sample.library)
       (JsonRPC.header_of (b "{}") ++ b "{}" ++ ["195"%char]) Sample.connected
     = (Raise (JsonRPC.UnicodeDecodeError "invalid start byte"),
        JsonRPC.set_message_buf (JsonRPC.header_of (b "{}") ++ b "{}" ++ ["195"%char])
          Sample.connected).
Proof.
  split.
  - exact (proj1 (proj1 (written_frame_consumed (H:=Sample.library) (b "{}") (b "Content-Le")
                           Sample.connected eq_refl eq_refl)
                    ltac:(eexists; reflexivity))).
  - exact (proj2 (written_frame_consumed (H:=Sample.library) (b "{}") ["195"%char]
                    Sample.connected eq_refl eq_refl) _ eq_refl).
Defined.

Lemma aligned_reads_example :
  JsonRPC.feed (H:=Sample.library)
    [(JsonRPC.header_of Sample.two_line_body ++ Sample.two_line_body)
     ++ (JsonRPC.header_of Sample.two_line_body ++ Sample.two_line_body)]
    Sample.connected
  = JsonRPC.feed (H:=Sample.library)
      [JsonRPC.header_of Sample.two_line_body ++ Sample.two_line_body;
       JsonRPC.header_of Sample.two_line_body ++ Sample.two_line_body]
      Sample.connected.
Proof.
  assert (Hbody : multiline_body Sample.two_line_body = true
                  /\ JsonRPC.decodes (H:=Sample.library) JsonRPC.CHARSET Sample.two_line_body)
    by (split; [reflexivity|eexists; reflexivity]).
  pose proof (aligned_reads_decode_every_frame (H:=Sample.library)
                [[Sample.two_line_body; Sample.two_line_body]] Sample.connected eq_refl
                ltac:(repeat first [exact Hbody | constructor])) as H1.
  pose proof (aligned_reads_decode_every_frame (H:=Sample.library)
                [[Sample.two_line_body]; [Sample.two_line_body]] Sample.connected eq_refl
                ltac:(repeat first [exact Hbody | constructor])) as H2.
  cbn [fmap list_fmap concat app] in H1, H2. rewrite !app_nil_r in H1, H2.
  rewrite H1, H2. reflexivity.
Defined.

Lemma split_body_example :
  JsonRPC.feed (H:=Sample.library) [JsonRPC.header_of (b "{}") ++ b "{"; b "}"] Sample.connected
  = JsonRPC.feed (H:=Sample.library) [JsonRPC.header_of (b "{}") ++ b "{}"] Sample.connected.
Proof.
  destruct (split_body_is_reassembled (H:=Sample.library) (b "{") (b "}") Sample.connected
              eq_refl ltac:(discriminate) eq_refl ltac:(eexists; reflexivity)) as [H1 H2].
  change (b "{" ++ b "}") with (b "{}") in H1, H2. now rewrite H1, H2.
Defined.

Lemma send_then_receive_example :
  exists wire received,
    JsonRPC.transport
      (JsonRPC.send_data (H:=Sample.library)
         (JsonRPC.Notification (JsonRPC.mkNotification "exit" JsonRPC.PyNone)) Sample.connected)
    = Some [wire]
    /\ JsonRPC.feed (H:=Sample.library) [wire] Sample.connected = (Ok tt, received)
    /\ JsonRPC._message_buf received = [].
Proof.
  destruct (send_then_receive (H:=Sample.library)
              (JsonRPC.Notification (JsonRPC.mkNotification "exit" JsonRPC.PyNone))
              Sample.connected Sample.connected [] eq_refl eq_refl eq_refl
              ltac:(eexists; reflexivity))
    as (wire & received & H1 & H2 & _ & _ & H3).
  exists wire, received. split; [exact H1|]. split; assumption.
Defined.

(** ** Requests, replies and the registry *)

Section Correlation.
Import JsonRPC.
Context `{Library} {handlers : Handlers}.
Implicit Types (self : JsonRPC.t).

(** X19: a request sent and then answered.  [send_request] hands out a
    future that no earlier request holds and leaves the other pending
    requests and futures alone; the response that carries the id of the
    request finishes that future with the converted result and takes the
    request off the pending table; the same response once more finds no
    request and is answered with INTERNAL_ERROR, the future staying as it
    is. *)
Theorem request_then_response self (method : string) (params result : Any)
    (return_type : option TypeOrConverter) :
  let sent := send_request method params return_type self in
  let id : rpc_id := inl (uuid4 (uuids self)) in
  let response := mkResponse (Some id) result in
  let answered := snd (handle_response response (snd sent)) in
  futures self !! fst sent = None
  /\ _request_futures (snd sent)
     = <[id := mkFuturesEntry (fst sent) return_type]> (_request_futures self)
  /\ futures (snd sent) = <[fst sent := Pending]> (futures self)
  /\ handle_response response (snd sent) = (Ok tt, answered)
  /\ _request_futures answered = delete id (_request_futures self)
  /\ futures answered
     = <[fst sent := Finished (_try_convert_value result return_type)]> (futures self)
  /\ handle_response response answered
     = (Ok tt, send_error INTERNAL_ERROR
                 ("Invalid response. Could not find id '" +:+ str_of_id id
                  +:+ "' in our request list") None PyNone answered).
Proof.
  intros sent id response answered.
  assert (Hfresh : futures self !! fst sent = None).
  { apply not_elem_of_dom. apply is_fresh. }
  assert (Hpending : _request_futures (snd sent)
                     = <[id := mkFuturesEntry (fst sent) return_type]> (_request_futures self)).
  { unfold sent, send_request. cbn [snd]. now rewrite request_futures_send_data. }
  assert (Hfut : futures (snd sent) = <[fst sent := Pending]> (futures self)).
  { unfold sent, send_request. cbn [snd fst]. now rewrite futures_send_data. }
  assert (Hstep : handle_response response (snd sent)
                  = (Ok tt, set_futures
                              (<[fst sent := Finished (_try_convert_value result return_type)]>
                                 (futures (snd sent)))
                              (set_request_futures (delete id (_request_futures (snd sent)))
                                 (snd sent)))).
  { apply (handle_response_fulfilled (snd sent) response id
             (mkFuturesEntry (fst sent) return_type)); [reflexivity| | |reflexivity].
    - rewrite Hpending. apply lookup_insert_eq.
    - rewrite Hfut. apply lookup_insert_eq. }
  assert (Htable : _request_futures answered = delete id (_request_futures self)).
  { unfold answered. rewrite Hstep.
    cbn [snd _request_futures set_futures set_request_futures]. rewrite Hpending.
    apply delete_insert_eq. }
  split; [exact Hfresh|]. split; [exact Hpending|]. split; [exact Hfut|].
  split; [unfold answered; now rewrite Hstep|]. split; [exact Htable|]. split.
  - unfold answered. rewrite Hstep.
    cbn [snd futures set_futures set_request_futures]. rewrite Hfut. apply insert_insert_eq.
  - rewrite (handle_response_unknown_id answered response id eq_refl)
      by (rewrite Htable; apply lookup_delete_eq).
    do 2 f_equal. rewrite Htable, delete_delete_eq, <- Htable. now destruct answered.
Qed.

(** X20: a response to a request whose future is no longer pending (the
    caller cancelled it, say): the request is taken off the pending table
    and [InvalidStateError] leaves [handle_response]; nothing is written. *)
Theorem response_to_settled_future self (id : rpc_id) (result : Any)
    (entry : _RequestFuturesEntry) (state : Future) :
  _request_futures self !! id = Some entry ->
  futures self !! future entry = Some state -> state <> Pending ->
  handle_response (mkResponse (Some id) result) self
  = (Raise (InvalidStateError "invalid state"),
     set_request_futures (delete id (_request_futures self)) self).
Proof.
  intros He Hf Hs. unfold handle_response. cbn [p_id p_result]. rewrite He.
  unfold set_outcome. cbn [futures set_request_futures]. rewrite Hf.
  destruct state; [congruence| |]; now destruct (_try_convert_value _ _).
Qed.

(** X21: a request for a registered, callable method.  Whatever the
    handler does to the protocol (it may write to the transport itself),
    [handle_request] does not raise and ends by sending one reply that
    carries the id of the request: a response with what the handler
    returned, or an error with code INTERNAL_ERROR and the text of the
    exception when the binding of the parameters or the handler raised.  On
    a transport that is connected once the handler is through, that reply
    is the last message written.  The same method called by a notification
    is answered by nothing: the protocol is left as the handler left it,
    whatever the handler returned or raised. *)
Theorem requests_answered_once self (request : JsonRPCRequest)
    (notification : JsonRPCNotification) (e : RpcMethodEntry) :
  get_entry (registry self) (r_method request) = Some e ->
  n_method notification = r_method request ->
  is_callable (method e) = true ->
  let outcome := fst (invoke e (r_params request) self) in
  let after := snd (invoke e (r_params request) self) in
  exists reply,
    handle_request request self = (Ok tt, send_data reply after)
    /\ match reply with
       | Response m => p_id m = r_id request /\ outcome = Ok (p_result m)
       | Error m =>
           e_id m = r_id request /\ code (error m) = INTERNAL_ERROR
           /\ exists ex, outcome = Raise ex /\ message (error m) = Some (str ex)
       | _ => False
       end
    /\ (forall written, transport after = Some written ->
          transport (snd (handle_request request self))
          = Some (written ++ [written_message reply]))
    /\ handle_notification notification self
       = (Ok tt, snd (invoke e (n_params notification) self)).
Proof.
  intros He Hn Hc outcome after.
  assert (Hsend : forall m written, transport after = Some written ->
            transport (send_data m after) = Some (written ++ [written_message m])).
  { intros m written Ht. unfold send_data, written_message. now rewrite Ht. }
  assert (Hntf : handle_notification notification self
                 = (Ok tt, snd (invoke e (n_params notification) self))).
  { unfold handle_notification. now rewrite Hn, He, Hc. }
  unfold handle_request. rewrite He, Hc. cbn [negb].
  unfold outcome, after in *. destruct (invoke e (r_params request) self) as [[v|ex] p].
  - exists (Response (mkResponse (r_id request) v)). cbn [fst snd] in *.
    split; [reflexivity|]. split; [split; reflexivity|]. split; [|exact Hntf].
    intros written Ht. now apply Hsend.
  - exists (Error (mkError (r_id request) (mkErrorObject INTERNAL_ERROR (Some (str ex)) PyNone)
                     PyNone)).
    cbn [fst snd] in *. split; [reflexivity|].
    split; [split; [reflexivity|split; [reflexivity|exists ex; split; reflexivity]]|].
    split; [|exact Hntf].
    intros written Ht. now apply Hsend.
Qed.

(** X22: [add_method] and [remove_method] act on the registry's own
    entries.  An added method is found by [get_entry] and covers an
    inherited entry of the same name in [methods]; other names are as
    before; removing it returns the entry and uncovers the inherited one
    in [methods], while [get_entry], and with it the dispatcher, never
    sees inherited entries: a request for a method that only the parent
    registry has gets METHOD_NOT_FOUND. *)
Theorem registry_own_entries (parent : option RpcRegistry)
    (own : gmap string RpcMethodEntry) (name : string) (func : Callable)
    (pt : option ParamType) :
  let r := mkRegistry parent own in
  let e := mkEntry name func pt in
  let added := add_method name func pt r in
  let inherited := match parent with Some p => methods p !! name | None => None end in
  get_entry added name = Some e
  /\ methods added !! name = Some e
  /\ get_method added name = Some func
  /\ (forall other, other <> name ->
        get_entry added other = get_entry r other
        /\ methods added !! other = methods r !! other)
  /\ fst (remove_method name added) = Some e
  /\ get_entry (snd (remove_method name added)) name = None
  /\ methods (snd (remove_method name added)) !! name = inherited
  /\ forall self id params,
       registry self = snd (remove_method name added) ->
       handle_request (mkRequest id name params) self
       = (Ok tt, send_error METHOD_NOT_FOUND ("Unknown method: " +:+ name) id PyNone self).
Proof.
  intros r e added inherited. unfold added, r, add_method, remove_method, get_method, get_entry.
  cbn [own_methods fst snd].
  assert (Hm : forall o : gmap string RpcMethodEntry,
             methods (mkRegistry parent o)
             = match parent with Some p => o ∪ methods p | None => o end)
    by (intros o; now destruct parent).
  rewrite !Hm. rewrite lookup_insert_eq, lookup_delete_eq.
  split; [reflexivity|]. split.
  { destruct parent; [|apply lookup_insert_eq].
    apply lookup_union_Some_l, lookup_insert_eq. }
  split; [reflexivity|]. split.
  { intros other Hne. rewrite lookup_insert_ne by congruence. split; [reflexivity|].
    destruct parent as [p|]; [|now rewrite lookup_insert_ne by congruence].
    rewrite !lookup_union, lookup_insert_ne by congruence. reflexivity. }
  split; [reflexivity|]. split; [reflexivity|]. split.
  { unfold inherited. destruct parent as [p|]; [|apply lookup_delete_eq].
    rewrite lookup_union, lookup_delete_eq. now destruct (methods p !! name). }
  intros self id params Hr. unfold handle_request, get_entry. cbn [r_method r_id].
  rewrite Hr. cbn [own_methods]. now rewrite lookup_delete_eq.
Qed.

Lemma generator_stops (valid : list Any) (good : list JsonRPCMessage) (bad : Any)
    (later : list Any) (e : exn) :
  Forall2 (fun item m => inner item = Ok m) valid good ->
  inner bad = Raise e ->
  forall self,
    _handle_messages_generator (map inner (valid ++ bad :: later)) self
    = (Raise e, set_scheduled (scheduled self ++ good) self).
Proof.
  intros Hv Hbad. induction Hv as [|item m valid good Hitem Hv IH]; intros self.
  - simpl. rewrite Hbad, app_nil_r. now destruct self.
  - simpl. rewrite Hitem, IH. cbn [scheduled set_scheduled]. rewrite <- app_assoc.
    reflexivity.
Qed.

(** X23: a batch with an invalid element.  When the body decodes to a JSON
    array whose elements are valid messages up to one that is not, the
    messages before the invalid element are scheduled, one PARSE_ERROR with
    the text of its exception is sent, and the elements after it are
    dropped, valid or not. *)
Theorem batch_stops_at_invalid_element self (charset : string) (body : bytes)
    (text : pystr) (valid : list Any) (good : list JsonRPCMessage) (bad : Any)
    (later : list Any) (e : exn) :
  bytes_decode charset body = Ok text ->
  json_loads text = Ok (PyList (valid ++ bad :: later)) ->
  Forall2 (fun item m => inner item = Ok m) valid good ->
  inner bad = Raise e ->
  handle_frame charset body self
  = send_error PARSE_ERROR (str e) None PyNone
      (set_scheduled (scheduled self ++ good) (set_message_buf [] self)).
Proof.
  intros Hd Hj Hv Hbad. unfold handle_frame, decode_and_schedule. rewrite Hd, Hj.
  cbn [_json_rpc_message_from_dict]. now rewrite (generator_stops _ _ _ _ _ Hv Hbad).
Qed.

End Correlation.

(** A request that expects a list, answered by a string and by a number:
    [list(value)] converts the string into the list of its characters and
    raises on the number; the future is finished with that list, and with
    the [TypeError]. *)
Lemma request_then_response_example :
  let sent :=
    JsonRPC.send_request (H:=Sample.library) "workspace/configuration" JsonRPC.PyNone
      (Some (JsonRPC.TList [])) Sample.connected in
  let answered (result : JsonRPC.Any) :=
    snd (JsonRPC.handle_response (H:=Sample.library)
           (JsonRPC.mkResponse (Some (inl "uuid-0")) result) (snd sent)) in
  JsonRPC.futures (answered (JsonRPC.PyStr "ab")) !! fst sent
  = Some (JsonRPC.Finished (Ok (JsonRPC.PyList [JsonRPC.PyStr "a"; JsonRPC.PyStr "b"])))
  /\ JsonRPC.futures (answered (JsonRPC.PyInt 5)) !! fst sent
     = Some (JsonRPC.Finished (Raise (JsonRPC.TypeError "object is not iterable"))).
Proof.
  intros sent answered. split.
  - destruct (request_then_response (H:=Sample.library) Sample.connected
                "workspace/configuration" JsonRPC.PyNone (JsonRPC.PyStr "ab")
                (Some (JsonRPC.TList []))) as (_ & _ & _ & _ & _ & Hfut & _).
    refine (eq_trans (f_equal (fun m => m !! fst sent) Hfut) _).
    now rewrite lookup_insert_eq.
  - destruct (request_then_response (H:=Sample.library) Sample.connected
                "workspace/configuration" JsonRPC.PyNone (JsonRPC.PyInt 5)
                (Some (JsonRPC.TList []))) as (_ & _ & _ & _ & _ & Hfut & _).
    refine (eq_trans (f_equal (fun m => m !! fst sent) Hfut) _).
    now rewrite lookup_insert_eq.
Defined.

Lemma response_to_settled_future_example :
  JsonRPC.handle_response (H:=Sample.library)
    (JsonRPC.mkResponse (Some (inl "a")) JsonRPC.PyNone) Sample.cancelled_request
  = (Raise (JsonRPC.InvalidStateError "invalid state"),
     JsonRPC.set_request_futures
       (delete (inl "a") (JsonRPC._request_futures Sample.cancelled_request))
       Sample.cancelled_request).
Proof.
  exact (response_to_settled_future (H:=Sample.library) Sample.cancelled_request (inl "a")
           JsonRPC.PyNone (JsonRPC.mkFuturesEntry 0 None) JsonRPC.Cancelled
           ltac:(vm_compute; reflexivity) ltac:(vm_compute; reflexivity) ltac:(discriminate)).
Defined.

Lemma requests_answered_once_example :
  let log_message :=
    JsonRPC.written_message (H:=Sample.library)
      (JsonRPC.Notification (JsonRPC.mkNotification "window/logMessage" JsonRPC.PyNone)) in
  exists reply,
    JsonRPC.transport
      (snd (JsonRPC.handle_request (H:=Sample.library) (handlers:=Sample.handlers)
              (JsonRPC.mkRequest (Some (inr 7)) "log" JsonRPC.PyNone) Sample.serving))
    = Some [log_message; JsonRPC.written_message (H:=Sample.library) reply]
    /\ match reply with
       | JsonRPC.Response m =>
           JsonRPC.p_id m = Some (inr 7) /\ JsonRPC.p_result m = JsonRPC.PyNone
       | _ => False
       end
    /\ JsonRPC.transport
         (snd (JsonRPC.handle_notification (handlers:=Sample.handlers)
                 (JsonRPC.mkNotification "log" JsonRPC.PyNone) Sample.serving))
       = Some [log_message].
Proof.
  intros log_message.
  destruct (requests_answered_once (H:=Sample.library) (handlers:=Sample.handlers)
              Sample.serving (JsonRPC.mkRequest (Some (inr 7)) "log" JsonRPC.PyNone)
              (JsonRPC.mkNotification "log" JsonRPC.PyNone)
              (JsonRPC.mkEntry "log" Sample.log_message None)
              ltac:(vm_compute; reflexivity) eq_refl eq_refl)
    as (reply & _ & Hreply & Hlast & Hntf).
  exists reply. split; [exact (Hlast [log_message] eq_refl)|]. split.
  - destruct reply as [m|m|m|m]; [exact Hreply|exact Hreply| |].
    + destruct Hreply as (_ & _ & ex & Hex & _). discriminate Hex.
    + destruct Hreply as [Hid Hres]. split; [exact Hid|]. now injection Hres.
  - rewrite Hntf. reflexivity.
Defined.

Lemma batch_stops_example :
  JsonRPC.scheduled
    (JsonRPC.handle_frame (H:=Sample.batch_library) JsonRPC.CHARSET (b "[]") Sample.connected)
  = [JsonRPC.Notification (JsonRPC.mkNotification "exit" JsonRPC.PyNone)].
Proof.
  rewrite (batch_stops_at_invalid_element (H:=Sample.batch_library) Sample.connected
             JsonRPC.CHARSET (b "[]") (Sample.as_text (b "[]")) [Sample.exit_dict]
             [JsonRPC.Notification (JsonRPC.mkNotification "exit" JsonRPC.PyNone)]
             Sample.old_version_dict [Sample.exit_dict]
             (JsonRPC.InvalidProtocolVersionException "Invalid JSON-RPC2 protocol version.")
             eq_refl eq_refl ltac:(repeat constructor) eq_refl).
  reflexivity.
Defined.

(** ** Parameter binding with a catch-all keyword parameter *)

Section ConvertParamsVarKeyword.
Import JsonRPC.

Lemma list_remove_elem (x : string) (l : list string) :
  x ∈ l ->
  exists l', list_remove x l = Ok l'
             /\ (forall y, y ∈ l' -> y ∈ l)
             /\ (forall y, y <> x -> y ∈ l -> y ∈ l').
Proof.
  induction l as [|y l IH]; intros Hin; [now apply elem_of_nil in Hin|].
  simpl. destruct (String.eqb_spec y x) as [->|Hne].
  - exists l. split; [reflexivity|]. split.
    + intros z Hz. now right.
    + intros z Hzx Hz. apply elem_of_cons in Hz as [->|Hz]; [congruence|exact Hz].
  - apply elem_of_cons in Hin as [->|Hin]; [congruence|].
    destruct (IH Hin) as (l' & -> & H1 & H2). exists (y :: l'). split; [reflexivity|]. split.
    + intros z Hz. apply elem_of_cons in Hz as [->|Hz]; [left|right; auto].
    + intros z Hzx Hz. apply elem_of_cons in Hz as [->|Hz]; [left|right; auto].
Qed.

Lemma attr_get_elem (k : string) (attrs : list (string * Any)) :
  is_Some (attr_get k attrs) -> k ∈ map fst attrs.
Proof.
  induction attrs as [|[k' v] attrs IH]; simpl; [intros [? ?]; discriminate|].
  destruct (String.eqb_spec k' k) as [->|Hne]; [left|right; auto].
Qed.

Lemma elem_attr_get (k : string) (attrs : list (string * Any)) :
  k ∈ map fst attrs -> is_Some (attr_get k attrs).
Proof.
  induction attrs as [|[k' v] attrs IH]; simpl; intros Hin; [now apply elem_of_nil in Hin|].
  destruct (String.eqb_spec k' k) as [->|Hne]; [eauto|].
  apply elem_of_cons in Hin as [->|Hin]; [congruence|auto].
Qed.

Lemma add_rest_lookup (attrs : list (string * Any)) (rest : list string) :
  forall kw0 : gmap string Any,
    (forall r, r ∈ rest -> is_Some (attr_get r attrs)) ->
    exists kw, add_rest attrs rest kw0 = Ok kw
               /\ forall k, kw !! k = if decide (k ∈ rest) then attr_get k attrs else kw0 !! k.
Proof.
  induction rest as [|r rest IH]; intros kw0 Hrest.
  - exists kw0. split; [reflexivity|]. intros k.
    destruct (decide (k ∈ [])) as [Hin|_]; [now apply elem_of_nil in Hin|reflexivity].
  - simpl. destruct (Hrest r ltac:(left)) as [f Hf]. rewrite Hf.
    destruct (IH (<[r := f]> kw0)) as (kw & -> & Hkw).
    { intros r' Hr'. apply Hrest. now right. }
    exists kw. split; [reflexivity|]. intros k. rewrite Hkw.
    destruct (decide (k ∈ rest)) as [Hin|Hnin].
    + rewrite decide_True by (now right). reflexivity.
    + destruct (decide (k = r)) as [->|Hne].
      * rewrite decide_True by left. now rewrite lookup_insert_eq.
      * rewrite decide_False.
        -- now rewrite lookup_insert_ne by congruence.
        -- intros Hin. apply elem_of_cons in Hin as [?|?]; contradiction.
Qed.

Section Loop.
Context (converted_params : Any) (attrs : list (string * Any)).

(** What the loop over the signature keeps true when there is a catch-all
    keyword parameter and no positional-only parameter. *)
Lemma convert_parameters_var_keyword (sig : list SigParameter) : forall st : convert_state,
  NoDup (map name sig) ->
  Forall (fun v => param_kind_eqb (kind v) POSITIONAL_ONLY = false) sig ->
  args st = [] ->
  (forall k, k <> "params" -> kw_args st !! k = None \/ kw_args st !! k = attr_get k attrs) ->
  (forall k, is_Some (attr_get k attrs) ->
     k ∈ rest st \/ kw_args st !! k = attr_get k attrs) ->
  (forall r, r ∈ rest st -> is_Some (attr_get r attrs)) ->
  (params_added st = true ->
     kw_args st !! "params" = Some converted_params /\ attr_get "params" attrs = None) ->
  (forall v, v ∈ sig -> is_Some (attr_get (name v) attrs) -> name v ∈ rest st) ->
  exists st',
    convert_parameters true converted_params attrs sig st = Ok st'
    /\ args st' = []
    /\ (forall k, k <> "params" ->
          kw_args st' !! k = None \/ kw_args st' !! k = attr_get k attrs)
    /\ (forall k, is_Some (attr_get k attrs) ->
          k ∈ rest st' \/ kw_args st' !! k = attr_get k attrs)
    /\ (forall r, r ∈ rest st' -> is_Some (attr_get r attrs))
    /\ (params_added st' = true ->
          kw_args st' !! "params" = Some converted_params /\ attr_get "params" attrs = None).
Proof.
  induction sig as [|v sig IH]; intros st Hnd Hkind I1 I2 I3 I4 I5 I6.
  - exists st. split; [reflexivity|]. split; [exact I1|]. split; [exact I2|].
    split; [exact I3|]. split; [exact I4|exact I5].
  - cbn [map] in Hnd. apply NoDup_cons in Hnd as [Hv Hnd].
    apply Forall_cons in Hkind as [Hk Hkind].
    cbn [convert_parameters]. unfold convert_parameter. rewrite Hk.
    destruct (attr_get (name v) attrs) as [field|] eqn:Ha.
    + cbn [rest args kw_args params_added].
      destruct (list_remove_elem (name v) (rest st)) as (r' & -> & Hsub & Hkeep).
      { apply I6; [left|eauto]. }
      apply IH; cbn [rest args kw_args params_added]; try assumption.
      * intros k Hkp. destruct (decide (k = name v)) as [->|Hne].
        -- right. now rewrite lookup_insert_eq.
        -- rewrite lookup_insert_ne by congruence. auto.
      * intros k Hsome. destruct (decide (k = name v)) as [->|Hne].
        -- right. now rewrite lookup_insert_eq.
        -- rewrite lookup_insert_ne by congruence.
           destruct (I3 k Hsome) as [Hin|Hkw]; [left; auto|right; exact Hkw].
      * intros r Hr. apply I4. auto.
      * intros Hp. destruct (I5 Hp) as [H1 H2]. split; [|exact H2].
        rewrite lookup_insert_ne; [exact H1|]. intros E. rewrite E in Ha. congruence.
      * intros v' Hv' Hsome. apply Hkeep; [|apply I6; [now right|exact Hsome]].
        intros E. apply Hv. rewrite <- E. change (map name sig) with (name <$> sig).
        now apply list_elem_of_fmap_2.
    + destruct (String.eqb_spec (name v) "params") as [Hn|Hn].
      * apply IH; cbn [rest args kw_args params_added]; try assumption.
        -- intros k Hkp. rewrite lookup_insert_ne by congruence. auto.
        -- intros k Hsome. rewrite lookup_insert_ne; [auto|].
           intros <-. rewrite <- Hn, Ha in Hsome. now destruct Hsome.
        -- intros _. split; [apply lookup_insert_eq|now rewrite <- Hn].
        -- intros v' Hv' Hsome. apply I6; [now right|exact Hsome].
      * apply IH; try assumption.
        intros v' Hv' Hsome. apply I6; [now right|exact Hsome].
Qed.

End Loop.

(** X24: with a catch-all keyword parameter the fields do reach the handler.
    For a handler that has [**kwargs] and no positional-only parameter,
    [_convert_params] builds the parameter object and passes no positional
    argument, every field of the object as the keyword argument of its
    name, and the whole object as [params] (which replaces a field of that
    name). *)
Theorem convert_params_binds_fields (callable : Callable) (pt : ParamType) (params : Any)
    (cls : string) (attrs : list (string * Any)) :
  params <> PyNone ->
  existsb (fun p => param_kind_eqb (kind p) VAR_KEYWORD) (signature callable) = true ->
  Forall (fun v => param_kind_eqb (kind v) POSITIONAL_ONLY = false) (signature callable) ->
  NoDup (map name (signature callable)) ->
  construct pt params = Ok (PyObject cls attrs) ->
  exists kw,
    _convert_params callable (Some pt) params = Ok ([], kw)
    /\ kw !! "params" = Some (PyObject cls attrs)
    /\ forall k, k <> "params" -> kw !! k = attr_get k attrs.
Proof.
  intros Hparams Hvar Hkind Hnd Hc.
  destruct (convert_parameters_var_keyword (PyObject cls attrs) attrs (signature callable)
              (mkConvert [] ∅ false (map fst attrs)) Hnd Hkind)
    as (st & Hloop & I1 & I2 & I3 & I4 & I5); cbn [args kw_args rest params_added].
  - reflexivity.
  - intros k _. left. apply lookup_empty.
  - intros k Hk. left. now apply attr_get_elem.
  - intros r Hr. now apply elem_attr_get.
  - discriminate.
  - intros v _ Hsome. now apply attr_get_elem.
  - destruct (add_rest_lookup attrs (rest st) (kw_args st) I4) as (kw & Hadd & Hkw).
    assert (Hbody :
      match construct pt params with
      | Raise e => Raise e
      | Ok converted_params =>
          match instance_dict converted_params with
          | Raise e => Raise e
          | Ok attrs0 =>
              let has_var_kw :=
                existsb (fun p => param_kind_eqb (kind p) VAR_KEYWORD) (signature callable) in
              match convert_parameters has_var_kw converted_params attrs0
                      (signature callable) (mkConvert [] ∅ false (map fst attrs0)) with
              | Raise e => Raise e
              | Ok st0 =>
                  if has_var_kw then
                    match add_rest attrs0 (rest st0) (kw_args st0) with
                    | Raise e => Raise e
                    | Ok kw0 =>
                        Ok (args st0,
                            if params_added st0 then kw0
                            else <["params" := converted_params]> kw0)
                    end
                  else Ok (args st0, kw_args st0)
              end
          end
      end
      = Ok ([], if params_added st then kw else <["params" := PyObject cls attrs]> kw)).
    { rewrite Hc. cbn [instance_dict]. cbv zeta. rewrite Hvar, Hloop, Hadd, I1. reflexivity. }
    eexists. split.
    + unfold _convert_params. destruct params; try exact Hbody. congruence.
    + split.
      * destruct (params_added st) eqn:Hp; [|apply lookup_insert_eq].
        destruct (I5 eq_refl) as [H1 H2]. rewrite Hkw.
        rewrite decide_False; [exact H1|].
        intros Hin. apply I4 in Hin as [x Hx]. congruence.
      * intros k Hk.
        assert (Hgoal : kw !! k = attr_get k attrs).
        { rewrite Hkw. destruct (decide (k ∈ rest st)) as [Hin|Hnin]; [reflexivity|].
          destruct (attr_get k attrs) as [x|] eqn:Hx.
          - destruct (I3 k) as [Hin|Hkw']; [rewrite Hx; eauto|contradiction|].
            now rewrite Hkw', Hx.
          - destruct (I2 k Hk) as [E|E]; [exact E|]. now rewrite E, Hx. }
        destruct (params_added st); [exact Hgoal|].
        now rewrite lookup_insert_ne by congruence.
Qed.

End ConvertParamsVarKeyword.

Lemma convert_params_binds_fields_example :
  exists kw,
    JsonRPC._convert_params (Sample.hover true) (Some Sample.params_class) Sample.raw_params
    = Ok ([], kw)
    /\ kw !! "text_document" = Some (JsonRPC.PyStr "file:///a.robot")
    /\ kw !! "position" = Some (JsonRPC.PyInt 3).
Proof.
  destruct (convert_params_binds_fields (Sample.hover true) Sample.params_class
              Sample.raw_params "Params"
              [("text_document", JsonRPC.PyStr "file:///a.robot"); ("position", JsonRPC.PyInt 3)]
              ltac:(discriminate) eq_refl ltac:(repeat constructor)
              ltac:(cbn; apply (bool_decide_unpack _); vm_compute; exact I) eq_refl)
    as (kw & H1 & _ & H2).
  exists kw. split; [exact H1|].
  split; rewrite H2 by discriminate; reflexivity.
Defined.

(** ** Runs of the diagnostics loop *)

Section DiagnosticsRuns.
Import Diagnostics.
Context (uuid4 : nat -> string) (SERVER_CANCELLED : Z) (self_key : nat).
Implicit Types (w : Diagnostics.t) (doc : Document).
Local Abbreviation handler := (_text_document_diagnostic uuid4 SERVER_CANCELLED self_key).
Local Abbreviation run := (_get_diagnostics_for_document uuid4).

Lemma entries_set_new (k : nat) (v : option (list Diagnostic))
    (es : list (nat * option (list Diagnostic))) :
  k ∉ es.*1 -> entries_set k v es = es ++ [(k, v)].
Proof.
  induction es as [|[k' v'] es IH]; intros Hk; [reflexivity|].
  cbn [entries_set]. destruct (Nat.eqb_spec k' k) as [->|Hne].
  - exfalso. apply Hk. left.
  - cbn [app]. rewrite IH; [reflexivity|]. intros Hin. apply Hk. now right.
Qed.

Lemma chain_entries_filter (P : nat * option (list Diagnostic) -> bool)
    (es : list (nat * option (list Diagnostic))) :
  (forall k v, (k, Some v) ∈ es -> P (k, Some v) = true) ->
  chain_entries (List.filter P es) = chain_entries es.
Proof.
  unfold chain_entries. induction es as [|[k [v|]] es IH]; intros HP; [reflexivity| |].
  - cbn [List.filter]. rewrite (HP k v) by left. cbn [omap list_omap snd concat].
    f_equal. apply IH. intros k' v' Hin. apply HP. now right.
  - cbn [List.filter]. destruct (P (k, None)); cbn [omap list_omap snd];
      apply IH; intros k' v' Hin; apply HP; now right.
Qed.

Lemma chain_entries_delivered (rs : list DiagnosticsResult) :
  chain_entries ((fun r => (key r, diagnostics r)) <$> rs) = concat (omap diagnostics rs).
Proof.
  unfold chain_entries. f_equal.
  induction rs as [|r rs IH]; [reflexivity|]. cbn [fmap list_fmap omap list_omap snd].
  rewrite <- IH. reflexivity.
Qed.

Lemma collected_key (results : list (result JsonRPC.exn DiagnosticsResult))
    (r : DiagnosticsResult) (v : list Diagnostic) :
  r ∈ delivered results -> diagnostics r = Some v ->
  existsb (Nat.eqb (key r))
    (omap (fun r => match r with
                    | Ok r => match diagnostics r with Some _ => Some (key r) | None => None end
                    | Raise _ => None
                    end) results) = true.
Proof.
  intros Hin Hv. induction results as [|[r'|e] results IH];
    rewrite ?delivered_cons in Hin; cbn [omap list_omap] in *.
  - now apply elem_of_nil in Hin.
  - apply elem_of_cons in Hin as [<-|Hin].
    + rewrite Hv. cbn [existsb]. now rewrite Nat.eqb_refl.
    + destruct (diagnostics r'); [cbn [existsb]; rewrite (IH Hin); apply orb_true_r|auto].
  - auto.
Qed.

Lemma delivered_cons (r : result JsonRPC.exn DiagnosticsResult)
    (results : list (result JsonRPC.exn DiagnosticsResult)) :
  delivered (r :: results)
  = match r with Ok r => r :: delivered results | Raise _ => delivered results end.
Proof. now destruct r. Qed.

(** The loop over the collector results, for results with distinct keys
    none of which is in the record yet. *)
Lemma collect_results (a : nat) (results : list (result JsonRPC.exn DiagnosticsResult)) :
  forall w (d : DiagnosticsData),
    heap w !! a = Some d ->
    NoDup ((entries d).*1 ++ (key <$> delivered results)) ->
    let w' := fold_left (fun w r => match r with
                                    | Ok r => collect_result uuid4 a r w
                                    | Raise _ => w
                                    end) results w in
    heap w' !! a
    = Some (mkData (match length (delivered results) with
                    | O => id d
                    | S n => uuid4 (uuids w + n)
                    end)
              (entries d ++ ((fun r => (key r, diagnostics r)) <$> delivered results))
              (version d) (task d) (force d))
    /\ uuids w' = (uuids w + length (delivered results))%nat
    /\ documents w' = documents w /\ tasks w' = tasks w /\ trace w' = trace w.
Proof.
  induction results as [|[r|e] results IH]; intros w d Hd Hnd; cbn [fold_left];
    rewrite ?delivered_cons in *.
  - cbn [delivered omap list_omap length fmap list_fmap].
    rewrite app_nil_r, Nat.add_0_r. destruct d. auto.
  - cbn [fmap list_fmap] in Hnd.
    assert (Hk : key r ∉ (entries d).*1).
    { intros Hin. apply NoDup_app in Hnd as (_ & Hdis & _). apply (Hdis _ Hin). left. }
    set (d1 := mkData (uuid4 (uuids w)) (entries d ++ [(key r, diagnostics r)])
                 (version d) (task d) (force d)).
    assert (Hstep : heap (collect_result uuid4 a r w) !! a = Some d1
                    /\ uuids (collect_result uuid4 a r w) = S (uuids w)
                    /\ documents (collect_result uuid4 a r w) = documents w
                    /\ tasks (collect_result uuid4 a r w) = tasks w
                    /\ trace (collect_result uuid4 a r w) = trace w).
    { unfold collect_result, new_uuid, update_data. cbn [heap]. rewrite Hd.
      cbn [heap set_heap]. rewrite lookup_insert_eq. cbn [heap set_heap uuids documents tasks trace].
      rewrite lookup_insert_eq. unfold with_entries, with_id. cbn [entries id version task force].
      now rewrite entries_set_new by exact Hk. }
    destruct Hstep as (H1 & H2 & H3 & H4 & H5).
    destruct (IH _ d1 H1) as (I1 & I2 & I3 & I4 & I5).
    { unfold d1. cbn [entries]. rewrite fmap_app. cbn [fmap list_fmap fst].
      rewrite <- app_assoc. exact Hnd. }
    rewrite I1, I2, I3, I4, I5, H2, H3, H4, H5. cbn [length].
    split; [|split; [lia|auto]].
    f_equal. unfold d1. cbn [id entries version task force].
    rewrite <- app_assoc. cbn [fmap list_fmap app]. f_equal.
    destruct (length (delivered results)) as [|n]; [now rewrite Nat.add_0_r|].
    f_equal. lia.
  - now apply IH.
Qed.

(** The record of a run once it has ended, and what else has changed. *)
Lemma run_record w (t : nat) (x : Task) (d : DiagnosticsData)
    (results : list (result JsonRPC.exn DiagnosticsResult)) :
  tasks w !! t = Some x ->
  heap w !! task_data x = Some d ->
  entries d = [] ->
  NoDup (key <$> delivered results) ->
  exists es,
    heap (run t results w) !! task_data x
    = Some (mkData (match length (delivered results) with
                    | O => id d
                    | S n => uuid4 (uuids w + n)
                    end) es (version d) (task d) (force d))
    /\ chain_entries es = concat (omap diagnostics (delivered results))
    /\ tasks (run t results w) = <[t := mkTask (task_data x) true (cancel_posted x)]> (tasks w)
    /\ documents (run t results w) = documents w
    /\ uuids (run t results w) = (uuids w + length (delivered results))%nat
    /\ trace (run t results w) = trace w.
Proof.
  intros Ht Hd He Hnd. unfold _get_diagnostics_for_document. rewrite Ht. cbv zeta.
  destruct (collect_results (task_data x) results w d Hd) as (H1 & H2 & H3 & H4 & H5).
  { now rewrite He. }
  rewrite He in H1. cbn [app] in H1.
  unfold prune, update_data. rewrite H1. cbn [heap set_heap set_tasks tasks documents uuids trace].
  eexists. split; [apply lookup_insert_eq|].
  cbn [entries]. split; [|rewrite H2, H3, H4, H5; auto 10].
  rewrite chain_entries_filter; [apply chain_entries_delivered|].
  intros k v Hin. apply list_elem_of_fmap in Hin as (r & [= -> Hv] & Hr).
  cbn [fst]. now apply (collected_key results r v).
Qed.


(** X26: what a run collected becomes visible.  Once the run of the current
    record has ended with at least one result, the client that asks again
    with the id it was given (an id that the id of the last result differs
    from) gets the full report with the collected diagnostics and the new
    id, and the request starts no new run. *)
Theorem collected_results_are_reported w (uri : string) doc (a t : nat) (x : Task)
    (d : DiagnosticsData) (results : list (result JsonRPC.exn DiagnosticsResult)) (n : nat) :
  documents w !! uri = Some doc ->
  TextDocument.get_data self_key doc = Some a ->
  heap w !! a = Some d ->
  rerun_required doc d = false ->
  tasks w !! t = Some x -> task_data x = a ->
  entries d = [] ->
  NoDup (key <$> delivered results) ->
  length (delivered results) = S n ->
  uuid4 (uuids w + n) <> id d ->
  handler uri (Some (id d)) (run t results w)
  = (Ok (RelatedFullDocumentDiagnosticReport
           (concat (omap diagnostics (delivered results))) (uuid4 (uuids w + n))),
     run t results w).
Proof.
  intros Hdoc Ha Hd Hr Ht Hx He Hnd Hlen Hid. subst a.
  destruct (run_record w t x d results Ht Hd He Hnd) as (es & H1 & H2 & _ & H4 & _).
  rewrite Hlen in H1.
  rewrite <- H4 in Hdoc.
  rewrite (handler_settled uuid4 SERVER_CANCELLED self_key (run t results w) uri doc
             (task_data x) _ _ Hdoc Ha H1 Hr).
  unfold report_for. cbn [id entries]. rewrite H2.
  destruct (id_matches (uuid4 (uuids w + n)) (Some (id d))) eqn:E; [|reflexivity].
  apply id_matches_iff in E. congruence.
Qed.

(** X27: a forced refresh.  [force_refresh_document] marks the current
    record of the document; the next request then starts a new run although
    the version has not changed: it installs a fresh record, with the
    force mark cleared, and replies from it; the request after that, made
    with the id just returned, finds nothing to do. *)
Theorem forced_refresh_reruns_once w (uri : string) doc (a : nat) (d : DiagnosticsData)
    (previous_result_id : option string) :
  documents w !! uri = Some doc ->
  TextDocument.get_data self_key doc = Some a ->
  heap w !! a = Some d ->
  let forced := force_refresh_document uuid4 self_key uri doc w in
  let a' := fresh (dom (heap w)) in
  let t' := fresh (dom (tasks_after_cancel (task d) w)) in
  let d' := mkData (uuid4 (uuids w)) [] (TextDocument.version doc) (Some t') false in
  let w' := snd (handler uri previous_result_id forced) in
  heap forced !! a = Some (with_force true d)
  /\ handler uri previous_result_id forced = (Ok (report_for d' previous_result_id), w')
  /\ current_data self_key uri w' = Some d'
  /\ trace w' = trace w ++ [SetData uri a'] ++ cancel_events (task d) w ++ [CreateSubTask t' a']
  /\ handler uri (Some (id d')) w'
     = (Ok (RelatedUnchangedDocumentDiagnosticReport (id d')), w').
Proof.
  intros Hdoc Ha Hd forced a' t' d' w'.
  assert (Hforced : forced = set_heap (<[a := with_force true d]> (heap w)) w).
  { unfold forced, force_refresh_document, get_diagnostics_data. rewrite Ha.
    unfold update_data. now rewrite Hd. }
  assert (Hdom : dom (<[a := with_force true d]> (heap w)) = dom (heap w)).
  { apply dom_insert_lookup_L. eauto. }
  assert (Hrun : handler uri previous_result_id forced
                 = (Ok (report_for d' previous_result_id),
                    Diagnostics.mk
                      (<[uri := TextDocument.set_data self_key a' doc]> (documents w))
                      (<[a' := d']> (<[a := with_force true d]> (heap w)))
                      (<[t' := mkTask a' false false]> (tasks_after_cancel (task d) w))
                      (S (uuids w))
                      (trace w ++ [SetData uri a'] ++ cancel_events (task d) w
                       ++ [CreateSubTask t' a']))).
  { rewrite (handler_rerun uuid4 SERVER_CANCELLED self_key forced uri doc a
               (with_force true d)).
    - rewrite Hforced. cbn [heap set_heap uuids documents trace]. rewrite Hdom. reflexivity.
    - now rewrite Hforced.
    - exact Ha.
    - rewrite Hforced. apply lookup_insert_eq.
    - reflexivity. }
  split; [rewrite Hforced; apply lookup_insert_eq|].
  unfold w'. rewrite Hrun. cbn [snd]. split; [reflexivity|]. split; [|split; [reflexivity|]].
  - unfold current_data. cbn [documents heap]. rewrite lookup_insert_eq.
    unfold TextDocument.get_data, TextDocument.set_data. cbn. rewrite lookup_insert_eq.
    apply lookup_insert_eq.
  - erewrite handler_settled.
    + unfold report_for. cbn [id]. now rewrite (proj2 (id_matches_iff _ _) eq_refl).
    + cbn [documents]. apply lookup_insert_eq.
    + unfold TextDocument.get_data, TextDocument.set_data. cbn. apply lookup_insert_eq.
    + cbn [heap]. apply lookup_insert_eq.
    + apply rerun_not_required_after.
Qed.

End DiagnosticsRuns.


Lemma collected_results_are_reported_example :
  SampleRun.handler SampleRun.uri (Some "run-1")
    (Diagnostics._get_diagnostics_for_document SampleRun.uuid4 0 SampleRun.results
       SampleRun.started)
  = (Ok (Diagnostics.RelatedFullDocumentDiagnosticReport [SampleRun.unused_variable] "run-3"),
     Diagnostics._get_diagnostics_for_document SampleRun.uuid4 0 SampleRun.results
       SampleRun.started).
Proof.
  exact (collected_results_are_reported SampleRun.uuid4 SampleRun.SERVER_CANCELLED 0
           SampleRun.started SampleRun.uri SampleRun.started_document 1 0
           (Diagnostics.mkTask 1 false false)
           (Diagnostics.mkData "run-1" [] (Some 1) (Some 0%nat) false) SampleRun.results 1
           ltac:(vm_compute; reflexivity) ltac:(vm_compute; reflexivity)
           ltac:(vm_compute; reflexivity) eq_refl ltac:(vm_compute; reflexivity) eq_refl eq_refl
           ltac:(cbn; apply (bool_decide_unpack _); vm_compute; exact I) eq_refl
           ltac:(vm_compute; discriminate)).
Defined.

Lemma forced_refresh_example :
  exists w',
    SampleRun.handler SampleRun.uri (Some "run-1")
      (Diagnostics.force_refresh_document SampleRun.uuid4 0 SampleRun.uri
         SampleRun.started_document SampleRun.started)
    = (Ok (Diagnostics.RelatedFullDocumentDiagnosticReport [] "run-2"), w')
    /\ SampleRun.handler SampleRun.uri (Some "run-2") w'
       = (Ok (Diagnostics.RelatedUnchangedDocumentDiagnosticReport "run-2"), w').
Proof.
  destruct (forced_refresh_reruns_once SampleRun.uuid4 SampleRun.SERVER_CANCELLED 0
              SampleRun.started SampleRun.uri SampleRun.started_document 1
              (Diagnostics.mkData "run-1" [] (Some 1) (Some 0%nat) false) (Some "run-1")
              ltac:(vm_compute; reflexivity) ltac:(vm_compute; reflexivity)
              ltac:(vm_compute; reflexivity))
    as (_ & H1 & _ & _ & H2).
  eexists. split; [exact H1|exact H2].
Defined.

Section DiagnosticsSupervision.
Import Diagnostics.
Context (uuid4 : nat -> string) (SERVER_CANCELLED : Z) (self_key : nat).
Implicit Types (w : Diagnostics.t) (doc : Document).
Local Abbreviation handler := (_text_document_diagnostic uuid4 SERVER_CANCELLED self_key).
Local Abbreviation run := (_get_diagnostics_for_document uuid4).

Lemma tasks_after_cancel_live (task : option nat) w (t0 : nat) (x0 : Task) :
  tasks_after_cancel task w !! t0 = Some x0 -> live x0 = true ->
  tasks w !! t0 = Some x0 /\ task <> Some t0.
Proof.
  unfold tasks_after_cancel. intros Ht Hlive.
  destruct task as [t|]; [|now split].
  destruct (tasks w !! t) as [x|] eqn:E.
  - destruct (done x) eqn:Hd.
    + split; [exact Ht|]. intros [= ->]. rewrite E in Ht. injection Ht as <-.
      unfold live in Hlive. now rewrite Hd in Hlive.
    + destruct (decide (t = t0)) as [->|Hne].
      * rewrite lookup_insert_eq in Ht. injection Ht as <-.
        unfold live in Hlive. cbn [done cancel_posted negb] in Hlive.
        rewrite andb_false_r in Hlive. discriminate.
      * rewrite lookup_insert_ne in Ht by exact Hne. split; [exact Ht|congruence].
  - split; [exact Ht|]. intros [= ->]. congruence.
Qed.

Lemma update_data_task (a : nat) (f : DiagnosticsData -> DiagnosticsData) w :
  (forall d, task (f d) = task d) ->
  documents (update_data a f w) = documents w
  /\ tasks (update_data a f w) = tasks w
  /\ forall a0 d0, heap w !! a0 = Some d0 ->
       exists d1, heap (update_data a f w) !! a0 = Some d1 /\ task d1 = task d0.
Proof.
  intros Hf. unfold update_data. destruct (heap w !! a) as [d|] eqn:E.
  - split; [reflexivity|]. split; [reflexivity|]. intros a0 d0 H0. cbn [heap set_heap].
    destruct (decide (a = a0)) as [->|Hne].
    + rewrite lookup_insert_eq. eexists. split; [reflexivity|]. rewrite Hf. congruence.
    + rewrite lookup_insert_ne by exact Hne. eauto.
  - split; [reflexivity|]. split; [reflexivity|]. eauto.
Qed.

Lemma collect_result_task (a : nat) (r : DiagnosticsResult) w :
  documents (collect_result uuid4 a r w) = documents w
  /\ tasks (collect_result uuid4 a r w) = tasks w
  /\ forall a0 d0, heap w !! a0 = Some d0 ->
       exists d1, heap (collect_result uuid4 a r w) !! a0 = Some d1 /\ task d1 = task d0.
Proof.
  unfold collect_result, new_uuid.
  match goal with
  | |- context [update_data a ?g (update_data a ?f ?w0)] =>
      destruct (update_data_task a f w0 ltac:(reflexivity)) as (D1 & T1 & H1);
      destruct (update_data_task a g (update_data a f w0) ltac:(reflexivity))
        as (D2 & T2 & H2)
  end.
  split; [now rewrite D2, D1|]. split; [now rewrite T2, T1|].
  intros a0 d0 H0. destruct (H1 a0 d0 H0) as (d1 & E1 & Ht1).
  destruct (H2 a0 d1 E1) as (d2 & E2 & Ht2). exists d2. split; [exact E2|congruence].
Qed.

Lemma collect_all_task (a : nat) (results : list (result JsonRPC.exn DiagnosticsResult)) :
  forall w,
    let w' := fold_left (fun w r => match r with
                                    | Ok r => collect_result uuid4 a r w
                                    | Raise _ => w
                                    end) results w in
    documents w' = documents w /\ tasks w' = tasks w
    /\ forall a0 d0, heap w !! a0 = Some d0 ->
         exists d1, heap w' !! a0 = Some d1 /\ task d1 = task d0.
Proof.
  induction results as [|[r|e] results IH]; intros w; cbn [fold_left].
  - split; [reflexivity|]. split; [reflexivity|]. eauto.
  - destruct (collect_result_task a r w) as (D1 & T1 & H1).
    destruct (IH (collect_result uuid4 a r w)) as (D2 & T2 & H2).
    split; [now rewrite D2, D1|]. split; [now rewrite T2, T1|].
    intros a0 d0 H0. destruct (H1 a0 d0 H0) as (d1 & E1 & Ht1).
    destruct (H2 a0 d1 E1) as (d2 & E2 & Ht2). exists d2. split; [exact E2|congruence].
  - apply IH.
Qed.

(** X28: no run is left behind.  If every live task (running, no
    cancellation posted) is the task of the record some document currently
    refers to, then this is still so after a diagnostics request, whatever
    it does (reply from the current record, start the first run, or
    replace an active run, whose cancellation it then posts), and after a
    run has ended. *)
Theorem live_runs_stay_supervised w (uri : string) (previous_result_id : option string)
    (t : nat) (results : list (result JsonRPC.exn DiagnosticsResult)) :
  supervised self_key w ->
  (forall doc a, documents w !! uri = Some doc ->
     TextDocument.get_data self_key doc = Some a -> is_Some (heap w !! a)) ->
  supervised self_key (snd (handler uri previous_result_id w))
  /\ supervised self_key (run t results w).
Proof.
  intros Hsup Hwf. split.
  - destruct (documents w !! uri) as [doc|] eqn:Hdoc.
    2:{ unfold _text_document_diagnostic. rewrite Hdoc. exact Hsup. }
    destruct (TextDocument.get_data self_key doc) as [a|] eqn:Ha.
    + destruct (Hwf doc a eq_refl Ha) as [d Hd].
      destruct (rerun_required doc d) eqn:Hr.
      * rewrite (handler_rerun uuid4 SERVER_CANCELLED self_key w uri doc a d _ Hdoc Ha Hd Hr).
        cbn [snd]. intros t0 x0 Ht0 Hlive. cbn [tasks] in Ht0.
        destruct (decide (fresh (dom (tasks_after_cancel (task d) w)) = t0)) as [<-|Hne].
        -- exists uri,
             (mkData (uuid4 (uuids w)) [] (TextDocument.version doc)
                (Some (fresh (dom (tasks_after_cancel (task d) w)))) false).
           split; [|reflexivity].
           unfold current_data. cbn [documents heap]. rewrite lookup_insert_eq.
           unfold TextDocument.get_data, TextDocument.set_data. cbn.
           rewrite lookup_insert_eq. apply lookup_insert_eq.
        -- rewrite lookup_insert_ne in Ht0 by exact Hne.
           destruct (tasks_after_cancel_live _ _ _ _ Ht0 Hlive) as [Hw Hold].
           destruct (Hsup t0 x0 Hw Hlive) as (uri0 & d0 & Hcur & Htask).
           exists uri0, d0. split; [|exact Htask].
           unfold current_data in *. cbn [documents heap].
           destruct (decide (uri = uri0)) as [<-|Hu].
           ++ rewrite Hdoc, Ha, Hd in Hcur. injection Hcur as <-. congruence.
           ++ rewrite lookup_insert_ne by exact Hu.
              destruct (documents w !! uri0) as [doc0|]; [|discriminate].
              destruct (TextDocument.get_data self_key doc0) as [a0|]; [|discriminate].
              rewrite lookup_insert_ne; [exact Hcur|].
              intros E. apply (is_fresh (dom (heap w))). rewrite E. apply elem_of_dom. eauto.
      * now rewrite (handler_settled uuid4 SERVER_CANCELLED self_key w uri doc a d _
                       Hdoc Ha Hd Hr).
    + rewrite (handler_first uuid4 SERVER_CANCELLED self_key w uri doc _ Hdoc Ha).
      cbn [snd]. intros t0 x0 Ht0 Hlive. cbn [tasks] in Ht0.
      destruct (decide (fresh (dom (tasks w)) = t0)) as [<-|Hne].
      * exists uri,
          (mkData (uuid4 (S (uuids w))) [] (TextDocument.version doc)
             (Some (fresh (dom (tasks w)))) false).
        split; [|reflexivity].
        unfold current_data. cbn [documents heap]. rewrite lookup_insert_eq.
        unfold TextDocument.get_data, TextDocument.set_data. cbn.
        rewrite lookup_insert_eq. apply lookup_insert_eq.
      * rewrite lookup_insert_ne in Ht0 by exact Hne.
        destruct (Hsup t0 x0 Ht0 Hlive) as (uri0 & d0 & Hcur & Htask).
        exists uri0, d0. split; [|exact Htask].
        unfold current_data in *. cbn [documents heap].
        destruct (decide (uri = uri0)) as [<-|Hu].
        -- rewrite Hdoc, Ha in Hcur. discriminate.
        -- rewrite lookup_insert_ne by exact Hu.
           destruct (documents w !! uri0) as [doc0|]; [|discriminate].
           destruct (TextDocument.get_data self_key doc0) as [a0|]; [|discriminate].
           assert (Hdom : a0 ∈ dom (heap w)) by (apply elem_of_dom; eauto).
           rewrite !lookup_insert_ne; [exact Hcur| |].
           ++ intros E. apply (is_fresh (dom (heap w))). now rewrite E.
           ++ intros E.
              apply (is_fresh (dom (<[fresh (dom (heap w)) :=
                                        mkData (uuid4 (uuids w)) [] None None false]> (heap w)))).
              rewrite E. apply dom_insert. apply elem_of_union. now right.
  - unfold _get_diagnostics_for_document.
    destruct (tasks w !! t) as [x|] eqn:Ht; [|exact Hsup]. cbv zeta.
    destruct (collect_all_task (task_data x) results w) as (D1 & T1 & H1).
    match goal with
    | |- context [prune (task_data x) ?keys ?w1] =>
        destruct (update_data_task (task_data x)
                    (fun d => with_entries
                                (List.filter (fun kv => existsb (Nat.eqb (fst kv)) keys)
                                   (entries d)) d) w1 ltac:(reflexivity)) as (D2 & T2 & H2)
    end.
    intros t0 x0 Ht0 Hlive. cbn [tasks set_tasks] in Ht0.
    destruct (decide (t = t0)) as [<-|Hne].
    + rewrite lookup_insert_eq in Ht0. injection Ht0 as <-. discriminate Hlive.
    + rewrite lookup_insert_ne in Ht0 by exact Hne.
      unfold prune in Ht0. rewrite T2, T1 in Ht0.
      destruct (Hsup t0 x0 Ht0 Hlive) as (uri0 & d0 & Hcur & Htask).
      unfold current_data in Hcur.
      destruct (documents w !! uri0) as [doc0|] eqn:Edoc; [|discriminate].
      destruct (TextDocument.get_data self_key doc0) as [a0|] eqn:Ea; [|discriminate].
      destruct (H1 a0 d0 Hcur) as (d1 & E1 & Ht1).
      destruct (H2 a0 d1 E1) as (d2 & E2 & Ht2).
      exists uri0, d2. split; [|congruence].
      unfold current_data. cbn [documents heap set_tasks].
      unfold prune. rewrite D2, D1, Edoc, Ea. exact E2.
Qed.

End DiagnosticsSupervision.

(** The sample document edited while the run of its record is active
    (task 0, live): the request replaces the run, posting the cancellation
    of task 0 and starting task 1 for the new record; and the run of task
    0 ends with three results. *)
Lemma live_runs_stay_supervised_example :
  let replaced := snd (SampleRun.handler SampleRun.uri (Some "run-1") SampleRun.edited) in
  Diagnostics.tasks SampleRun.edited !! 0%nat = Some (Diagnostics.mkTask 1 false false)
  /\ Diagnostics.tasks replaced !! 0%nat = Some (Diagnostics.mkTask 1 false true)
  /\ Diagnostics.tasks replaced !! 1%nat = Some (Diagnostics.mkTask 2 false false)
  /\ Diagnostics.supervised 0 replaced
  /\ Diagnostics.supervised 0
       (Diagnostics._get_diagnostics_for_document SampleRun.uuid4 0 SampleRun.results
          SampleRun.edited).
Proof.
  intros replaced.
  split; [vm_compute; reflexivity|]. split; [vm_compute; reflexivity|].
  split; [vm_compute; reflexivity|].
  apply (live_runs_stay_supervised SampleRun.uuid4 SampleRun.SERVER_CANCELLED 0
           SampleRun.edited SampleRun.uri (Some "run-1") 0 SampleRun.results).
  - intros t x Ht Hlive.
    change (Diagnostics.tasks SampleRun.edited)
      with ({[ 0%nat := Diagnostics.mkTask 1 false false ]} : gmap nat Diagnostics.Task) in Ht.
    apply lookup_singleton_Some in Ht as [<- <-].
    exists SampleRun.uri, (Diagnostics.mkData "run-1" [] (Some 1) (Some 0%nat) false).
    split; vm_compute; reflexivity.
  - intros doc a Hdoc Ha. vm_compute in Hdoc. injection Hdoc as <-.
    vm_compute in Ha. injection Ha as <-. vm_compute. eauto.
Defined.
